(** * Parachute descent simulator: physics model and integration loop

    Shallow embedding of [src/physics.py] (class [PhysicsCalculator]) and
    [src/simulation.py] (class [ParachuteSimulation]), and the properties
    of the specification proved or refuted on it; then of the input
    validation of [utils/input_handler.py] (class [InputHandler]) with the
    bounds of the input widgets, and of the plots of
    [utils/graph_utils.py] (class [GraphUtils]), with further properties
    of the four classes and of their composition in [app.py].

    Numbers.  The program computes with Python and numpy floats; here
    every float is read as the real number it stands for ([R] of the
    Standard Library), so rounding, overflow, infinities and NaN are
    outside the model.  [x ** 5.2561] is [Rpower], [np.cos] and [np.sin]
    are [cos] and [sin], [np.radians d] is [d * PI / 180].  That covers
    the [OverflowError] of [**] on a Python float and a time step so small
    that the float clock absorbs it: the properties about raising and
    about the run ending are stated within [within_float_range], where
    neither happens.  The strings of the phase results are the one-decimal
    formatting [format_1f] of the numbers.

    Failure.  The places where the Python code can raise are kept as
    errors of a small result monad: a dictionary read with a missing key
    ([KeyError]), [selected_phases[0]] or [xs[-1] = v] on an empty list
    ([IndexError]), and a division by zero ([ZeroDivisionError]).  Python
    raises the last one for its own floats; for numpy floats the quotient
    is an infinity or NaN, which has no real number to stand for, and the
    model stops with the same error.

    State.  The attributes that [__init__] receives and never changes are
    the record [Inputs]; the attributes the loop mutates are the record
    [Sim], passed from operation to operation.  Dictionaries keyed by the
    phase name are [gmap string], the set of deployed phases is a [gset],
    the series are lists that grow at the end.

    The loop.  [run_loop] is the [while] loop with a bound on the number
    of passes (fuel); [after cfg n s] says that the loop has completed [n]
    passes and is in state [s].  [run_loop_after] and [after_run_loop]
    relate the two, [run_terminates] shows that fuel for the passes to the
    time ceiling is enough when the time step is positive, and
    [run_returns] that a valid configuration gets its summary. *)

From Stdlib Require Import Reals Lra Lia List Sorted DecimalString.
From stdpp Require Import base option list gmap strings.

Open Scope R_scope.

(** ** Errors *)

Inductive exn : Type :=
| KeyError (k : string)
| IndexError
| ZeroDivisionError.

Inductive result (A : Type) : Type :=
| Ok (a : A)
| Raise (e : exn).
Arguments Ok {A} a.
Arguments Raise {A} e.

#[global] Instance result_bind : MBind result := fun A B k m =>
  match m with
  | Ok a => k a
  | Raise e => Raise e
  end.

(** Python's [a / b] on floats. *)
Definition py_div (a b : R) : result R :=
  if Req_dec_T b 0 then Raise ZeroDivisionError else Ok (a / b).

(** [f"{x:.1f}"]: the sign, then the magnitude rounded to one decimal,
    ties to the even digit, written out in decimal.  [0.25] gives [0.2],
    [0.26] gives [0.3], [-0.04] gives [-0.0].  The rounding is that of
    the real number: a decimal such as 0.35, which is a tie as a real, is
    stored as a float slightly below it and printed as [0.3]. *)
Definition round_half_even (x : R) : Z :=
  let f := Int_part x in
  let d := frac_part x in
  if Rlt_dec d (1 / 2) then f
  else if Rlt_dec (1 / 2) d then (f + 1)%Z
  else if Z.even f then f else (f + 1)%Z.

Definition format_1f (x : R) : string :=
  let tenths := Z.to_N (round_half_even (Rabs x * 10)) in
  (if Rlt_dec x 0 then "-" else "")
  +:+ NilZero.string_of_uint (N.to_uint (tenths / 10))
  +:+ "." +:+ NilZero.string_of_uint (N.to_uint (tenths mod 10)).

(** [d[k]] for a dictionary read. *)
Definition getitem {V : Type} (d : gmap string V) (k : string) : result V :=
  match d !! k with
  | Some v => Ok v
  | None => Raise (KeyError k)
  end.

(** ** [PhysicsCalculator] *)

Module Physics.

(** The constants set in [__init__]. *)
Definition g : R := 9.81.
Definition rho0 : R := 1.225.
Definition T0 : R := 288.15.
Definition L : R := 0.0065.

Definition calculate_air_density (altitude : R) : R :=
  let altitude := if Rlt_dec altitude 0 then 0 else altitude in
  let temperature_ratio := 1 - (L * altitude / T0) in
  if Rle_dec temperature_ratio 0 then 0.001
  else
    let density := rho0 * Rpower temperature_ratio 5.2561 in
    Rmax density 0.001.

(** [base_drag] of [calculate_drag_force], named so that statements can
    refer to it.  The two squares are Python's [**], which raises
    [OverflowError] when the square of a Python float leaves the float
    range (magnitudes beyond about 1.3e154); like every overflow this is
    outside the model, and the properties about which calls or runs raise
    are stated for magnitudes of at most 1e150 ([square_range]). *)
Definition base_drag (altitude velocity diameter drag_coefficient : R) : R :=
  let rho := calculate_air_density altitude in
  let area := PI * (diameter / 2) ^ 2 in
  0.5 * rho * velocity ^ 2 * drag_coefficient * area.

Definition calculate_drag_force
    (altitude velocity diameter drag_coefficient
     reefing_factor time_since_deployment inflation_time : R) : result R :=
  if Rle_dec velocity 0 then Ok 0
  else
    let base := base_drag altitude velocity diameter drag_coefficient in
    if Rlt_dec time_since_deployment inflation_time then
      inflation_progress ← py_div time_since_deployment inflation_time;
      let effective_drag_coefficient :=
        reefing_factor + (1 - reefing_factor) * inflation_progress in
      Ok (base * effective_drag_coefficient)
    else Ok base.

(** The division is guarded by [velocity <= 0] and cannot raise. *)
Definition calculate_inflation_time (n_factor diameter velocity : R) : R :=
  if Rle_dec velocity 0 then 0
  else
    let inflation_time := n_factor * diameter / velocity in
    Rmax inflation_time 0.1.

(** [np.sqrt] of a negative number is NaN, which no real number stands
    for: the result is [None] there.  The division is guarded by the test
    on [rho], [drag_coefficient] and [area]. *)
Definition calculate_terminal_velocity
    (mass diameter drag_coefficient altitude : R) : option R :=
  let rho := calculate_air_density altitude in
  let area := PI * (diameter / 2) ^ 2 in
  if Rle_dec rho 0 then Some 0
  else if Rle_dec drag_coefficient 0 then Some 0
  else if Rle_dec area 0 then Some 0
  else
    let radicand := 2 * mass * g / (rho * drag_coefficient * area) in
    if Rlt_dec radicand 0 then None else Some (sqrt radicand).

(** [np.radians]. *)
Definition np_radians (deg : R) : R := deg * PI / 180.

Definition calculate_trajectory_with_wind
    (velocity angle wind_speed wind_direction : R) : R * R :=
  let v_vertical := velocity * cos (np_radians angle) in
  let v_horizontal := velocity * sin (np_radians angle) in
  let v_horizontal_total :=
    v_horizontal + wind_speed * cos (np_radians wind_direction) in
  (v_vertical, v_horizontal_total).

Definition calculate_reynolds_number (velocity diameter altitude : R) : R :=
  let rho := calculate_air_density altitude in
  let mu := 1.81e-5 in
  if Rle_dec mu 0 then 0
  else rho * velocity * diameter / mu.

Definition calculate_drag_coefficient_correction (reynolds_number : R) : R :=
  if Rlt_dec reynolds_number 1000 then 0.8 else 1.0.

End Physics.

(** ** [ParachuteSimulation] *)

Module Simulation.
Import Physics.

(** [global_params] and one entry of [phase_params]: dictionaries with
    fixed keys, read as records. *)
Record GlobalParams : Type := {
  initial_altitude : R;
  initial_velocity : R;
  time_step : R;
  descent_angle : R
}.

Record PhaseParams : Type := {
  diameter : R;
  drag_coefficient : R;
  deployment_altitude : R;
  inflation_index : R;
  payload_mass : R;
  reefing_factor : R
}.

(** The arguments of [__init__]; none of them is modified by a run. *)
Record Inputs : Type := {
  global_params : GlobalParams;
  phase_params : gmap string PhaseParams;
  selected_phases : list string
}.

(** An element of [active_phases]. *)
Record PhaseInfo : Type := {
  phase : string;
  deployment_time : R;
  inflation_time : R;
  params : PhaseParams
}.

(** The mutable attributes of the object. *)
Record Sim : Type := {
  time : list R;
  altitude : list R;
  velocity : list R;
  total_drag_force : list R;
  phase_drag_forces : gmap string (list R);
  horizontal_position : list R;
  current_time : R;
  current_altitude : R;
  current_velocity : R;
  current_horizontal_pos : R;
  active_phases : list PhaseInfo;
  deployed_phases : gset string;
  phase_deployment_times : gmap string R;
  phase_inflation_times : gmap string R
}.

Definition radians (deg : R) : R := deg * PI / 180.

Definition dt (cfg : Inputs) : R := time_step (global_params cfg).
Definition descent_angle_rad (cfg : Inputs) : R :=
  radians (descent_angle (global_params cfg)).

Definition __init__ (cfg : Inputs) : Sim := {|
  time := [];
  altitude := [];
  velocity := [];
  total_drag_force := [];
  phase_drag_forces :=
    foldr (fun phase d => <[phase := []]> d) ∅ (selected_phases cfg);
  horizontal_position := [];
  current_time := 0;
  current_altitude := initial_altitude (global_params cfg);
  current_velocity := initial_velocity (global_params cfg);
  current_horizontal_pos := 0;
  active_phases := [];
  deployed_phases := ∅;
  phase_deployment_times := ∅;
  phase_inflation_times := ∅
|}.

Definition _deploy_phase (cfg : Inputs) (phase : string) (s : Sim) : result Sim :=
  pp ← getitem (phase_params cfg) phase;
  let inflation_time :=
    calculate_inflation_time (inflation_index pp) (diameter pp) (current_velocity s) in
  Ok {|
    time := time s;
    altitude := altitude s;
    velocity := velocity s;
    total_drag_force := total_drag_force s;
    phase_drag_forces := phase_drag_forces s;
    horizontal_position := horizontal_position s;
    current_time := current_time s;
    current_altitude := current_altitude s;
    current_velocity := current_velocity s;
    current_horizontal_pos := current_horizontal_pos s;
    active_phases :=
      active_phases s ++
      [ {| phase := phase;
           deployment_time := current_time s;
           inflation_time := inflation_time;
           params := pp |} ];
    deployed_phases := {[ phase ]} ∪ deployed_phases s;
    phase_deployment_times := <[phase := current_time s]> (phase_deployment_times s);
    phase_inflation_times := <[phase := inflation_time]> (phase_inflation_times s)
  |}.

(** The body of the [for] loop of [_check_phase_deployments]. *)
Definition check_phase (cfg : Inputs) (phase : string) (s : Sim) : result Sim :=
  if decide (phase ∈ deployed_phases s) then Ok s
  else
    pp ← getitem (phase_params cfg) phase;
    if Rle_dec (current_altitude s) (deployment_altitude pp)
    then _deploy_phase cfg phase s
    else Ok s.

Fixpoint check_phases (cfg : Inputs) (phases : list string) (s : Sim) : result Sim :=
  match phases with
  | [] => Ok s
  | phase :: rest => s' ← check_phase cfg phase s; check_phases cfg rest s'
  end.

Definition _check_phase_deployments (cfg : Inputs) (s : Sim) : result Sim :=
  check_phases cfg (selected_phases cfg) s.

(** [xs[-1] = v]. *)
Definition set_last (xs : list R) (v : R) : result (list R) :=
  match xs with
  | [] => Raise IndexError
  | _ => Ok (removelast xs ++ [v])
  end.

(** First loop of [_calculate_forces]: append [0.0] to the series of
    every selected phase. *)
Fixpoint append_zeros (phases : list string) (d : gmap string (list R))
    : result (gmap string (list R)) :=
  match phases with
  | [] => Ok d
  | phase :: rest =>
      xs ← getitem d phase;
      append_zeros rest (<[phase := xs ++ [0]]> d)
  end.

(** Second loop of [_calculate_forces], over [active_phases]; the
    accumulator is [total_drag] and the per-phase series. *)
Fixpoint active_drags (s : Sim) (infos : list PhaseInfo)
    (total_drag : R) (d : gmap string (list R))
    : result (R * gmap string (list R)) :=
  match infos with
  | [] => Ok (total_drag, d)
  | phase_info :: rest =>
      let time_since_deployment := current_time s - deployment_time phase_info in
      drag_force ← calculate_drag_force
                     (current_altitude s) (current_velocity s)
                     (diameter (params phase_info))
                     (drag_coefficient (params phase_info))
                     (reefing_factor (params phase_info))
                     time_since_deployment
                     (inflation_time phase_info);
      xs ← getitem d (phase phase_info);
      xs' ← set_last xs drag_force;
      active_drags s rest (total_drag + drag_force) (<[phase phase_info := xs']> d)
  end.

Definition _calculate_forces (cfg : Inputs) (s : Sim) : result Sim :=
  d0 ← append_zeros (selected_phases cfg) (phase_drag_forces s);
  '(total_drag, d) ← active_drags s (active_phases s) 0 d0;
  Ok {|
    time := time s;
    altitude := altitude s;
    velocity := velocity s;
    total_drag_force := total_drag_force s ++ [total_drag];
    phase_drag_forces := d;
    horizontal_position := horizontal_position s;
    current_time := current_time s;
    current_altitude := current_altitude s;
    current_velocity := current_velocity s;
    current_horizontal_pos := current_horizontal_pos s;
    active_phases := active_phases s;
    deployed_phases := deployed_phases s;
    phase_deployment_times := phase_deployment_times s;
    phase_inflation_times := phase_inflation_times s
  |}.

Definition _get_current_mass (cfg : Inputs) (s : Sim) : result R :=
  match active_phases s with
  | phase_info :: _ => Ok (payload_mass (params phase_info))
  | [] =>
      first_phase ← match selected_phases cfg with
                     | phase :: _ => Ok phase
                     | [] => Raise IndexError
                     end;
      pp ← getitem (phase_params cfg) first_phase;
      Ok (payload_mass pp)
  end.

Definition _update_dynamics (cfg : Inputs) (s : Sim) : result Sim :=
  let current_drag := List.last (total_drag_force s) 0 in
  mass ← _get_current_mass cfg s;
  let gravity_component := g * cos (descent_angle_rad cfg) in
  drag_deceleration ← py_div current_drag mass;
  let net_acceleration := gravity_component - drag_deceleration in
  let v := Rmax 0 (current_velocity s + net_acceleration * dt cfg) in
  let altitude_change := v * dt cfg in
  let horizontal_velocity := v * sin (descent_angle_rad cfg) in
  Ok {|
    time := time s;
    altitude := altitude s;
    velocity := velocity s;
    total_drag_force := total_drag_force s;
    phase_drag_forces := phase_drag_forces s;
    horizontal_position := horizontal_position s;
    current_time := current_time s;
    current_altitude := current_altitude s - altitude_change;
    current_velocity := v;
    current_horizontal_pos := current_horizontal_pos s + horizontal_velocity * dt cfg;
    active_phases := active_phases s;
    deployed_phases := deployed_phases s;
    phase_deployment_times := phase_deployment_times s;
    phase_inflation_times := phase_inflation_times s
  |}.

Definition _store_data (s : Sim) : Sim := {|
  time := time s ++ [current_time s];
  altitude := altitude s ++ [Rmax 0 (current_altitude s)];
  velocity := velocity s ++ [current_velocity s];
  total_drag_force := total_drag_force s;
  phase_drag_forces := phase_drag_forces s;
  horizontal_position := horizontal_position s ++ [current_horizontal_pos s];
  current_time := current_time s;
  current_altitude := current_altitude s;
  current_velocity := current_velocity s;
  current_horizontal_pos := current_horizontal_pos s;
  active_phases := active_phases s;
  deployed_phases := deployed_phases s;
  phase_deployment_times := phase_deployment_times s;
  phase_inflation_times := phase_inflation_times s
|}.

(** [self.current_time += self.dt] *)
Definition advance_time (cfg : Inputs) (s : Sim) : Sim := {|
  time := time s;
  altitude := altitude s;
  velocity := velocity s;
  total_drag_force := total_drag_force s;
  phase_drag_forces := phase_drag_forces s;
  horizontal_position := horizontal_position s;
  current_time := current_time s + dt cfg;
  current_altitude := current_altitude s;
  current_velocity := current_velocity s;
  current_horizontal_pos := current_horizontal_pos s;
  active_phases := active_phases s;
  deployed_phases := deployed_phases s;
  phase_deployment_times := phase_deployment_times s;
  phase_inflation_times := phase_inflation_times s
|}.

(** One pass through the body of the [while] loop of [run], up to and
    including the advance of the clock. *)
Definition step (cfg : Inputs) (s : Sim) : result Sim :=
  s1 ← _check_phase_deployments cfg s;
  s2 ← _calculate_forces cfg s1;
  s3 ← _update_dynamics cfg s2;
  Ok (advance_time cfg (_store_data s3)).

(** The [while] loop.  [None] means that [fuel] passes were not enough. *)
Fixpoint run_loop (fuel : nat) (cfg : Inputs) (s : Sim) : option (result Sim) :=
  if Rlt_dec 0 (current_altitude s) then
    match fuel with
    | O => None
    | S fuel' =>
        match step cfg s with
        | Raise e => Some (Raise e)
        | Ok s' =>
            if Rlt_dec 10000 (current_time s') then Some (Ok s')
            else run_loop fuel' cfg s'
        end
    end
  else Some (Ok s).

(** [max(xs) if xs else 0] and [xs[-1] if xs else 0]. *)
Definition max_or_zero (xs : list R) : R :=
  match xs with
  | [] => 0
  | x :: rest => fold_left Rmax rest x
  end.

Definition last_or_zero (xs : list R) : R := List.last xs 0.

(** One row of [phase_results]: the name of the phase and three numbers
    formatted with [:.1f], that is, strings. *)
Record PhaseResult : Type := {
  Phase : string;
  Max_Drag_Force : string;
  Deployment_Time : string;
  Inflation_Time : string
}.

Record Results : Type := {
  max_total_drag_force : R;
  landing_velocity : R;
  total_flight_time : R;
  total_horizontal_range : R;
  final_altitude : R;
  phase_results : list PhaseResult
}.

Fixpoint compile_phases (s : Sim) (phases : list string) : result (list PhaseResult) :=
  match phases with
  | [] => Ok []
  | phase :: rest =>
      forces ← getitem (phase_drag_forces s) phase;
      rows ← compile_phases s rest;
      Ok ({| Phase := phase;
             Max_Drag_Force := format_1f (max_or_zero forces);
             Deployment_Time :=
               format_1f (default 0 (phase_deployment_times s !! phase));
             Inflation_Time :=
               format_1f (default 0 (phase_inflation_times s !! phase)) |} :: rows)
  end.

Definition _compile_results (cfg : Inputs) (s : Sim) : result Results :=
  rows ← compile_phases s (selected_phases cfg);
  Ok {|
    max_total_drag_force := max_or_zero (total_drag_force s);
    landing_velocity := last_or_zero (velocity s);
    total_flight_time := last_or_zero (time s);
    total_horizontal_range := last_or_zero (horizontal_position s);
    final_altitude := last_or_zero (altitude s);
    phase_results := rows
  |}.

(** [ParachuteSimulation(global_params, phase_params, selected_phases).run()];
    the final object is returned with the summary because
    [get_plot_data] reads the series from it. *)
Definition run (fuel : nat) (cfg : Inputs) : option (result (Sim * Results)) :=
  match run_loop fuel cfg (__init__ cfg) with
  | None => None
  | Some (Raise e) => Some (Raise e)
  | Some (Ok s) => Some (r ← _compile_results cfg s; Ok (s, r))
  end.

(** The dictionary [get_plot_data] returns, with its entry
    ['selected_phases']; the arrays are the series. *)
Record PlotsData : Type := {
  pd_time : list R;
  pd_altitude : list R;
  pd_velocity : list R;
  pd_total_drag_force : list R;
  pd_phase_drag_forces : gmap string (list R);
  pd_horizontal_position : list R;
  pd_selected_phases : list string
}.

Definition get_plot_data_dict (cfg : Inputs) (s : Sim) : PlotsData := {|
  pd_time := time s;
  pd_altitude := altitude s;
  pd_velocity := velocity s;
  pd_total_drag_force := total_drag_force s;
  pd_phase_drag_forces := phase_drag_forces s;
  pd_horizontal_position := horizontal_position s;
  pd_selected_phases := selected_phases cfg
|}.

End Simulation.

(** ** [InputHandler] and the input widgets of [app.py] *)

Module InputHandler.
Import Simulation.

(** A value of [st.number_input(..., value=None)] is [None] until a
    number is entered.  The dictionaries built from the widgets have fixed
    keys and are read as records of such values. *)
Record GlobalForm : Type := {
  f_initial_altitude : option R;
  f_initial_velocity : option R;
  f_time_step : option R;
  f_descent_angle : option R
}.

Record PhaseForm : Type := {
  f_diameter : option R;
  f_drag_coefficient : option R;
  f_deployment_altitude : option R;
  f_inflation_index : option R;
  f_payload_mass : option R;
  f_reefing_factor : option R
}.

(** [d.items()], in the order in which the keys are inserted. *)
Definition global_items (g : GlobalForm) : list (string * option R) :=
  [ ("initial_altitude", f_initial_altitude g);
    ("initial_velocity", f_initial_velocity g);
    ("time_step", f_time_step g);
    ("descent_angle", f_descent_angle g) ].

Definition phase_items (pp : PhaseForm) : list (string * option R) :=
  [ ("diameter", f_diameter pp);
    ("drag_coefficient", f_drag_coefficient pp);
    ("deployment_altitude", f_deployment_altitude pp);
    ("inflation_index", f_inflation_index pp);
    ("payload_mass", f_payload_mass pp);
    ("reefing_factor", f_reefing_factor pp) ].

(** What [st.number_input] can return for given [min_value] and
    [max_value]. *)
Definition number_input (min_value : R) (max_value : option R) (v : option R) : Prop :=
  match v with
  | None => True
  | Some x => min_value <= x /\ match max_value with Some m => x <= m | None => True end
  end.

(** The dictionaries [get_phase_inputs] can return: one entry per
    selected phase, each value within the bounds of its widget. *)
Definition get_phase_inputs (selected_phases : list string)
    (phase_params : gmap string PhaseForm) : Prop :=
  (forall phase, is_Some (phase_params !! phase) <-> phase ∈ selected_phases)
  /\ forall phase pp, phase_params !! phase = Some pp ->
       number_input 0.1 None (f_diameter pp)
       /\ number_input 0.1 None (f_drag_coefficient pp)
       /\ number_input 0.0 None (f_deployment_altitude pp)
       /\ number_input 0.1 None (f_inflation_index pp)
       /\ number_input 1.0 None (f_payload_mass pp)
       /\ number_input 0.0 (Some 1.0) (f_reefing_factor pp).

(** The global parameters the sidebar of [main] can produce. *)
Definition sidebar_inputs (g : GlobalForm) : Prop :=
  number_input 0.0 None (f_initial_altitude g)
  /\ number_input 0.0 None (f_initial_velocity g)
  /\ number_input 0.001 (Some 1.0) (f_time_step g)
  /\ number_input 0.0 (Some 90.0) (f_descent_angle g).

(** [value is None or value <= 0] and [value is None or value < 0],
    negated. *)
Definition global_value_ok (v : option R) : bool :=
  match v with
  | None => false
  | Some value => if Rle_dec value 0 then false else true
  end.

Definition phase_value_ok (param : string) (v : option R) : bool :=
  match v with
  | None => false
  | Some value =>
      if Rlt_dec value 0 then false
      else if decide (param = "reefing_factor") then
        if Rlt_dec value 0 then false
        else if Rlt_dec 1 value then false
        else true
      else true
  end.

Definition phase_order : list string := ["ACS"; "Drogue"; "Pilot"; "Main"].

(** [l.sort(key=lambda x: x[1], reverse=True)]: descending, entries with
    equal keys in their original order. *)
Fixpoint insert_desc (x : string * R) (l : list (string * R)) : list (string * R) :=
  match l with
  | [] => [x]
  | y :: l' => if Rle_dec (snd y) (snd x) then x :: y :: l' else y :: insert_desc x l'
  end.

Definition sort_desc (l : list (string * R)) : list (string * R) :=
  foldr insert_desc [] l.

(** [phase_params[phase]['deployment_altitude']] in the second half of
    [validate_inputs], which is reached only when the first half has found
    the entry and its value; the defaults are never used. *)
Definition form_deployment_altitude (phase_params : gmap string PhaseForm)
    (phase : string) : R :=
  default 0 (phase_params !! phase ≫= f_deployment_altitude).

(** The result is the returned boolean and whether [st.warning] was
    called. *)
Definition validate_inputs (global_params : GlobalForm)
    (phase_params : gmap string PhaseForm) (selected_phases : list string)
    : bool * bool :=
  if negb (forallb (fun item => global_value_ok (snd item)) (global_items global_params))
  then (false, false)
  else if negb (forallb (fun phase =>
                  match phase_params !! phase with
                  | None => false
                  | Some pp =>
                      forallb (fun item => phase_value_ok (fst item) (snd item))
                        (phase_items pp)
                  end) selected_phases)
  then (false, false)
  else if (1 <? length selected_phases)%nat then
    let deployment_altitudes :=
      (fun phase => (phase, form_deployment_altitude phase_params phase))
        <$> selected_phases in
    let sorted_phases := fst <$> sort_desc deployment_altitudes in
    (true,
     negb (bool_decide
             (sorted_phases = filter (fun p => p ∈ selected_phases) phase_order)))
  else (true, false).

(** [ParachuteSimulation] is given the same dictionaries; it reads their
    values as numbers, which they are when none is [None]. *)
Definition global_of_form (g : GlobalForm) : option GlobalParams :=
  a ← f_initial_altitude g; v ← f_initial_velocity g;
  t ← f_time_step g; d ← f_descent_angle g;
  Some {| initial_altitude := a; initial_velocity := v;
          time_step := t; descent_angle := d |}.

Definition phase_of_form (pp : PhaseForm) : option PhaseParams :=
  d ← f_diameter pp; c ← f_drag_coefficient pp;
  a ← f_deployment_altitude pp; n ← f_inflation_index pp;
  m ← f_payload_mass pp; r ← f_reefing_factor pp;
  Some {| diameter := d; drag_coefficient := c; deployment_altitude := a;
          inflation_index := n; payload_mass := m; reefing_factor := r |}.

Definition inputs_of_forms (global_params : GlobalForm)
    (phase_params : gmap string PhaseForm) (selected_phases : list string)
    : option Inputs :=
  g ← global_of_form global_params;
  Some {| Simulation.global_params := g;
          Simulation.phase_params := omap phase_of_form phase_params;
          Simulation.selected_phases := selected_phases |}.

End InputHandler.

(** ** [GraphUtils] *)

Module GraphUtils.
Import Simulation.

Definition phase_colors : gmap string string :=
  {[ "ACS" := "#ef4444"; "Drogue" := "#f97316";
     "Pilot" := "#eab308"; "Main" := "#22c55e" ]}.

Definition _get_time_tick_spacing (max_time : R) : R :=
  if Rle_dec max_time 300 then 0.5
  else if Rle_dec max_time 1500 then 5.0
  else 10.0.

(** [np.max] of a non-empty array. *)
Definition np_max (x : R) (rest : list R) : R := fold_left Rmax rest x.

(** A [go.Scatter] trace: its data, name and line.  Of a figure, the
    traces and the spacing of the linear time ticks ([None] while the axis
    is left automatic); titles and layout are not kept. *)
Record Scatter : Type := {
  trace_x : list R;
  trace_y : list R;
  trace_name : string;
  trace_color : string;
  trace_width : R
}.

Record Figure : Type := {
  traces : list Scatter;
  dtick : option R
}.

Definition add_trace (fig : Figure) (t : Scatter) : Figure :=
  {| traces := traces fig ++ [t]; dtick := dtick fig |}.

Definition _configure_time_axis (fig : Figure) (plots_data : PlotsData) : Figure :=
  match pd_time plots_data with
  | [] => fig
  | t :: rest =>
      let max_time := np_max t rest in
      {| traces := traces fig; dtick := Some (_get_time_tick_spacing max_time) |}
  end.

(** The loop of [create_force_plot] over the selected phases. *)
Fixpoint add_phase_traces (plots_data : PlotsData) (phases : list string)
    (fig : Figure) : result Figure :=
  match phases with
  | [] => Ok fig
  | phase :: rest =>
      match pd_phase_drag_forces plots_data !! phase with
      | Some (f :: fs) =>
          if Rlt_dec 0 (np_max f fs) then
            color ← getitem phase_colors phase;
            add_phase_traces plots_data rest
              (add_trace fig
                 {| trace_x := pd_time plots_data; trace_y := f :: fs;
                    trace_name := phase +:+ " Drag Force";
                    trace_color := color; trace_width := 2 |})
          else add_phase_traces plots_data rest fig
      | _ => add_phase_traces plots_data rest fig
      end
  end.

Definition create_force_plot (plots_data : PlotsData) : result Figure :=
  let fig :=
    {| traces := [ {| trace_x := pd_time plots_data;
                      trace_y := pd_total_drag_force plots_data;
                      trace_name := "Total Drag Force";
                      trace_color := "#1f2937"; trace_width := 3 |} ];
       dtick := None |} in
  fig ← add_phase_traces plots_data (pd_selected_phases plots_data) fig;
  Ok (_configure_time_axis fig plots_data).

Definition create_velocity_plot (plots_data : PlotsData) : Figure :=
  _configure_time_axis
    {| traces := [ {| trace_x := pd_time plots_data;
                      trace_y := pd_velocity plots_data;
                      trace_name := "Velocity";
                      trace_color := "#3b82f6"; trace_width := 3 |} ];
       dtick := None |}
    plots_data.

Definition create_altitude_plot (plots_data : PlotsData) : Figure :=
  _configure_time_axis
    {| traces := [ {| trace_x := pd_time plots_data;
                      trace_y := pd_altitude plots_data;
                      trace_name := "Altitude";
                      trace_color := "#10b981"; trace_width := 3 |} ];
       dtick := None |}
    plots_data.

Definition create_trajectory_plot (plots_data : PlotsData) : Figure :=
  {| traces := [ {| trace_x := pd_horizontal_position plots_data;
                    trace_y := pd_altitude plots_data;
                    trace_name := "Trajectory";
                    trace_color := "#8b5cf6"; trace_width := 3 |} ];
     dtick := None |}.

End GraphUtils.

Import Physics Simulation InputHandler GraphUtils.

(** * Derived notions used in the statements *)

(** The temperature ratio of [calculate_air_density], after the clamp of
    negative altitudes. *)
Definition temperature_ratio (altitude : R) : R :=
  1 - (L * (if Rlt_dec altitude 0 then 0 else altitude) / T0).

(** The value [calculate_drag_force] returns for a positive velocity and a
    positive inflation time [T], as a function of the time [t] since
    deployment. *)
Definition ramp (altitude velocity diameter drag_coefficient reefing_factor T t : R) : R :=
  let base := base_drag altitude velocity diameter drag_coefficient in
  if Rlt_dec t T
  then base * (reefing_factor + (1 - reefing_factor) * (t / T))
  else base.

(** The test the [while] loop of [run] makes between two passes: the
    altitude test at the head of the loop and the safety check at the end
    of the previous pass (which holds trivially at the start, where the
    clock is 0). *)
Definition continues (s : Sim) : Prop :=
  0 < current_altitude s /\ current_time s <= 10000.

(** [after cfg n s]: the loop of [run] has completed [n] passes and the
    object is then in state [s]. *)
Inductive after (cfg : Inputs) : nat -> Sim -> Prop :=
| after_init : after cfg 0 (__init__ cfg)
| after_step n s s' :
    after cfg n s -> continues s -> step cfg s = Ok s' -> after cfg (S n) s'.

(** The two ways in which the loop can end. *)
Definition landed (s : Sim) : Prop := current_altitude s <= 0.
Definition hit_ceiling (s : Sim) : Prop :=
  0 < current_altitude s /\ 10000 < current_time s.

(** The kinds of outcome of [run] that a caller can tell apart without
    reading the numbers of the summary: a summary is returned, an
    exception is raised, or there is no answer yet.  C3 asks for a kind of
    its own for a run that did not land. *)
Inductive outcome_kind : Type :=
| Summary
| Exception (e : exn)
| NoAnswer.

Definition kind_of (x : option (result (Sim * Results))) : outcome_kind :=
  match x with
  | Some (Ok _) => Summary
  | Some (Raise e) => Exception e
  | None => NoAnswer
  end.

(** What [get_plot_data] returns (the list of selected phases apart). *)
Definition get_plot_data (s : Sim)
    : list R * list R * list R * list R * gmap string (list R) * list R :=
  (time s, altitude s, velocity s, total_drag_force s,
   phase_drag_forces s, horizontal_position s).

(** The drag series of one phase ([[]] when the phase has none). *)
Definition drag_series (s : Sim) (p : string) : list R :=
  default [] (phase_drag_forces s !! p).

(** A phase is pending until it is put in [deployed_phases]. *)
Definition pending (s : Sim) (p : string) : Prop := p ∉ deployed_phases s.
Definition deployed (s : Sim) (p : string) : Prop := p ∈ deployed_phases s.

(** The names of the active phases, in the order of [active_phases]. *)
Definition active_names (s : Sim) : list string := phase <$> active_phases s.

(** Relations between the state before and after an operation: which
    attributes it leaves alone. *)
Definition same_motion (s s' : Sim) : Prop :=
  time s' = time s /\ altitude s' = altitude s /\ velocity s' = velocity s
  /\ horizontal_position s' = horizontal_position s
  /\ total_drag_force s' = total_drag_force s
  /\ phase_drag_forces s' = phase_drag_forces s
  /\ current_time s' = current_time s
  /\ current_altitude s' = current_altitude s
  /\ current_velocity s' = current_velocity s
  /\ current_horizontal_pos s' = current_horizontal_pos s.

Definition same_phases (s s' : Sim) : Prop :=
  active_phases s' = active_phases s
  /\ deployed_phases s' = deployed_phases s
  /\ phase_deployment_times s' = phase_deployment_times s
  /\ phase_inflation_times s' = phase_inflation_times s.

(** How often a phase name occurs in a list of names. *)
Fixpoint occurrences (q : string) (phases : list string) : nat :=
  match phases with
  | [] => 0
  | p :: rest => (if decide (p = q) then 1 else 0) + occurrences q rest
  end.

(** Two series that differ at most in their last entry. *)
Definition same_but_last (xs ys : list R) : Prop :=
  removelast xs = removelast ys /\ length xs = length ys.

(** The altitude test of [_check_phase_deployments] for one phase, at a
    given altitude. *)
Definition crossed (cfg : Inputs) (alt : R) (p : string) : Prop :=
  exists pp, phase_params cfg !! p = Some pp /\ alt <= deployment_altitude pp.

Definition crossedb (cfg : Inputs) (alt : R) (p : string) : bool :=
  match phase_params cfg !! p with
  | Some pp => if Rle_dec alt (deployment_altitude pp) then true else false
  | None => false
  end.

(** The bookkeeping of deployments is consistent: [active_phases] lists
    each deployed phase once, with the parameters, deployment time and
    inflation time recorded for it, and only selected phases deploy. *)
Definition well_tracked (cfg : Inputs) (s : Sim) : Prop :=
  NoDup (active_names s)
  /\ (forall q, q ∈ active_names s <-> q ∈ deployed_phases s)
  /\ (forall q, q ∈ deployed_phases s -> q ∈ selected_phases cfg)
  /\ (forall info, info ∈ active_phases s ->
        phase_params cfg !! phase info = Some (params info)
        /\ phase_deployment_times s !! phase info = Some (deployment_time info)
        /\ phase_inflation_times s !! phase info = Some (inflation_time info)).

(** The per-phase drag series after [n] passes: one series per selected
    phase, [n] entries per occurrence of the phase in [selected_phases],
    all of them [0] while the phase is pending. *)
Definition series_tracked (cfg : Inputs) (n : nat) (s : Sim) : Prop :=
  forall q,
    (q ∈ selected_phases cfg ->
       exists xs, phase_drag_forces s !! q = Some xs
                  /\ length xs = (n * occurrences q (selected_phases cfg))%nat
                  /\ (pending s q -> xs = replicate (length xs) 0))
    /\ (q ∉ selected_phases cfg -> phase_drag_forces s !! q = None).

(** The first phase, in the order of [selected_phases], whose deployment
    altitude is reached at the altitude of state [s]. *)
Definition first_crossing (cfg : Inputs) (s : Sim) : option string :=
  List.find (crossedb cfg (current_altitude s)) (selected_phases cfg).

(** The mass that the pass of the loop starting in state [s] uses in
    [_update_dynamics]. *)
Definition mass_used (cfg : Inputs) (s : Sim) : result R :=
  s1 ← _check_phase_deployments cfg s;
  s2 ← _calculate_forces cfg s1;
  _get_current_mass cfg s2.

(** The mass as C5 words it: the payload mass of the first phase, in the
    order of [selected_phases], among the deployed ones; that of the first
    selected phase when none is deployed. *)
Definition mass_by_configured_order (cfg : Inputs) (s : Sim) : result R :=
  match List.find (fun p => bool_decide (p ∈ deployed_phases s)) (selected_phases cfg) with
  | Some p => pp ← getitem (phase_params cfg) p; Ok (payload_mass pp)
  | None =>
      match selected_phases cfg with
      | p :: _ => pp ← getitem (phase_params cfg) p; Ok (payload_mass pp)
      | [] => Raise IndexError
      end
  end.

(** [head_known cfg n s]: either nothing has deployed and no threshold was
    reached in the passes before pass [n], or the head of [active_phases]
    is the phase found by [first_crossing] at the first pass where it
    found one. *)
Definition head_known (cfg : Inputs) (n : nat) (s : Sim) : Prop :=
  (active_phases s = []
   /\ forall j sj, (j < n)%nat -> after cfg j sj -> first_crossing cfg sj = None)
  \/ (exists k sk p info rest,
        (k < n)%nat /\ after cfg k sk /\ first_crossing cfg sk = Some p
        /\ (forall j sj, (j < k)%nat -> after cfg j sj -> first_crossing cfg sj = None)
        /\ active_phases s = info :: rest
        /\ phase info = p
        /\ phase_params cfg !! p = Some (params info)).

(** ** Changing the reefing factor of one phase *)

Definition with_reefing (rf : R) (pp : PhaseParams) : PhaseParams := {|
  diameter := diameter pp;
  drag_coefficient := drag_coefficient pp;
  deployment_altitude := deployment_altitude pp;
  inflation_index := inflation_index pp;
  payload_mass := payload_mass pp;
  reefing_factor := rf
|}.

Definition set_reefing (p : string) (rf : R) (cfg : Inputs) : Inputs := {|
  global_params := global_params cfg;
  phase_params := alter (with_reefing rf) p (phase_params cfg);
  selected_phases := selected_phases cfg
|}.

(** Whenever phase [p] is about to deploy in a pass of the run of [cfg],
    the velocity is not positive. *)
Definition deploys_at_rest (cfg : Inputs) (p : string) : Prop :=
  forall n s, after cfg n s -> continues s ->
    p ∈ selected_phases cfg -> pending s p ->
    crossed cfg (current_altitude s) p -> current_velocity s <= 0.

(** Two results that raise the same error or return related values. *)
Definition result_match {A B : Type} (Rel : A -> B -> Prop)
    (x : result A) (y : result B) : Prop :=
  match x, y with
  | Ok a, Ok b => Rel a b
  | Raise e, Raise e' => e = e'
  | _, _ => False
  end.

(** Two entries of [active_phases] that agree except for the reefing
    factor of phase [p], which has inflation time 0. *)
Definition info_match (p : string) (i i' : PhaseInfo) : Prop :=
  phase i' = phase i
  /\ deployment_time i' = deployment_time i
  /\ inflation_time i' = inflation_time i
  /\ (exists rf, params i' = with_reefing rf (params i))
  /\ (phase i <> p -> params i' = params i)
  /\ (phase i = p -> inflation_time i = 0).

Definition sim_match (p : string) (s s' : Sim) : Prop :=
  same_motion s s'
  /\ deployed_phases s' = deployed_phases s
  /\ phase_deployment_times s' = phase_deployment_times s
  /\ phase_inflation_times s' = phase_inflation_times s
  /\ Forall2 (info_match p) (active_phases s) (active_phases s').

(** What two runs have to agree on to be the same for a caller: both run
    out of fuel, both raise the same error, or both return the same
    summary and the same series. *)
Definition same_outcome (x y : option (result (Sim * Results))) : Prop :=
  match x, y with
  | None, None => True
  | Some (Raise e), Some (Raise e') => e = e'
  | Some (Ok (s, r)), Some (Ok (s', r')) =>
      r' = r /\ get_plot_data s' = get_plot_data s
  | _, _ => False
  end.

(** The phase [p] cannot deploy in motion from state [s]. *)
Definition safe (cfg : Inputs) (p : string) (s : Sim) : Prop :=
  current_velocity s <= 0
  \/ ~ crossed cfg (current_altitude s) p
  \/ p ∈ deployed_phases s.

(** The mass as C5 words it, for the pass that starts in state [s]: read
    when [_update_dynamics] reads the mass. *)
Definition mass_claimed (cfg : Inputs) (s : Sim) : result R :=
  s1 ← _check_phase_deployments cfg s;
  s2 ← _calculate_forces cfg s1;
  mass_by_configured_order cfg s2.

(** ** Example runs *)

(** A main parachute that opens very low: the capsule falls at
    constant speed along a horizontal flight path and lands in the second
    pass without deploying. *)
Definition pp_low : PhaseParams := {|
  diameter := 20; drag_coefficient := 1.5; deployment_altitude := 0.5;
  inflation_index := 5; payload_mass := 100; reefing_factor := 0.3 |}.

Definition cfg_coast : Inputs := {|
  global_params := {| initial_altitude := 10; initial_velocity := 6;
                      time_step := 1; descent_angle := 90 |};
  phase_params := {[ "Main" := pp_low ]};
  selected_phases := ["Main"] |}.

Definition coast_s1 : Sim := {|
  time := [0]; altitude := [4]; velocity := [6]; total_drag_force := [0];
  phase_drag_forces := {[ "Main" := [0] ]}; horizontal_position := [6];
  current_time := 1; current_altitude := 4; current_velocity := 6;
  current_horizontal_pos := 6;
  active_phases := []; deployed_phases := ∅;
  phase_deployment_times := ∅; phase_inflation_times := ∅ |}.

Definition coast_s2 : Sim := {|
  time := [0; 1]; altitude := [4; 0]; velocity := [6; 6]; total_drag_force := [0; 0];
  phase_drag_forces := {[ "Main" := [0; 0] ]}; horizontal_position := [6; 12];
  current_time := 2; current_altitude := -2; current_velocity := 6;
  current_horizontal_pos := 12;
  active_phases := []; deployed_phases := ∅;
  phase_deployment_times := ∅; phase_inflation_times := ∅ |}.

Definition coast_results : Results := {|
  max_total_drag_force := 0; landing_velocity := 6; total_flight_time := 1;
  total_horizontal_range := 12; final_altitude := 0;
  phase_results := [ {| Phase := "Main"; Max_Drag_Force := "0.0";
                        Deployment_Time := "0.0"; Inflation_Time := "0.0" |} ] |}.

(** The same parachute with the capsule already on the ground. *)
Definition cfg_degenerate : Inputs := {|
  global_params := {| initial_altitude := 0; initial_velocity := 50;
                      time_step := 0.1; descent_angle := 0 |};
  phase_params := {[ "Main" := pp_low ]};
  selected_phases := ["Main"] |}.

(** Two phases listed Drogue, Main, with the main parachute set to open
    higher than the drogue; both fully reefed at deployment. *)
Definition pp_drogue : PhaseParams := {|
  diameter := 5; drag_coefficient := 1.2; deployment_altitude := 5;
  inflation_index := 5; payload_mass := 50; reefing_factor := 0 |}.

Definition pp_main_high : PhaseParams := {|
  diameter := 20; drag_coefficient := 1.5; deployment_altitude := 20;
  inflation_index := 5; payload_mass := 100; reefing_factor := 0 |}.

Definition cfg_order : Inputs := {|
  global_params := {| initial_altitude := 10; initial_velocity := 6;
                      time_step := 1; descent_angle := 90 |};
  phase_params := {[ "Drogue" := pp_drogue; "Main" := pp_main_high ]};
  selected_phases := ["Drogue"; "Main"] |}.

Definition order_s1 : Sim := {|
  time := [0]; altitude := [4]; velocity := [6]; total_drag_force := [0];
  phase_drag_forces := {[ "Drogue" := [0]; "Main" := [0] ]};
  horizontal_position := [6];
  current_time := 1; current_altitude := 4; current_velocity := 6;
  current_horizontal_pos := 6;
  active_phases :=
    [ {| phase := "Main"; deployment_time := 0; inflation_time := 5 * 20 / 6;
         params := pp_main_high |} ];
  deployed_phases := {[ "Main" ]};
  phase_deployment_times := {[ "Main" := 0 ]};
  phase_inflation_times := {[ "Main" := 5 * 20 / 6 ]} |}.

(** A capsule at rest on a horizontal flight path: nothing ever moves and
    the loop ends at the time ceiling. *)
Definition pp_scenario : PhaseParams := {|
  diameter := 20; drag_coefficient := 1.5; deployment_altitude := 500;
  inflation_index := 5; payload_mass := 100; reefing_factor := 0.3 |}.

Definition cfg_ceiling : Inputs := {|
  global_params := {| initial_altitude := 1000; initial_velocity := 0;
                      time_step := 1; descent_angle := 90 |};
  phase_params := {[ "Main" := pp_scenario ]};
  selected_phases := ["Main"] |}.

Definition ceiling_state (n : nat) : Sim := {|
  time := INR <$> seq 0 n;
  altitude := replicate n 1000; velocity := replicate n 0;
  total_drag_force := replicate n 0;
  phase_drag_forces := {[ "Main" := replicate n 0 ]};
  horizontal_position := replicate n 0;
  current_time := INR n; current_altitude := 1000; current_velocity := 0;
  current_horizontal_pos := 0;
  active_phases := []; deployed_phases := ∅;
  phase_deployment_times := ∅; phase_inflation_times := ∅ |}.

(** The number of passes after which the clock exceeds 10000 s. *)
Definition ceiling_passes : nat := 100 * 100 + 1.

(** A capsule released at rest below the deployment altitude of its
    parachute: the parachute deploys in the first pass, without airspeed. *)
Definition cfg_stall : Inputs := {|
  global_params := {| initial_altitude := 400; initial_velocity := 0;
                      time_step := 0.1; descent_angle := 0 |};
  phase_params := {[ "Main" := pp_scenario ]};
  selected_phases := ["Main"] |}.

(** The part of the data model a run needs in order not to raise: a
    positive time step, at least one selected phase, and parameters with a
    non-zero payload mass for every selected phase. *)
Definition valid_config (cfg : Inputs) : Prop :=
  0 < dt cfg
  /\ selected_phases cfg <> []
  /\ forall p, p ∈ selected_phases cfg ->
       exists pp, phase_params cfg !! p = Some pp /\ payload_mass pp <> 0.

(** * Notions used in the further properties *)

(** The sum of a list of numbers. *)
Definition sum_list (xs : list R) : R := foldr Rplus 0 xs.

(** Sample [i] of the drag series of phase [p], 0 where the series has no
    such sample. *)
Definition drag_sample (s : Sim) (i : nat) (p : string) : R :=
  default 0 (drag_series s p !! i).

(** The last entry of the series of phase [p] in a dictionary of series. *)
Definition last_entry (d : gmap string (list R)) (p : string) : R :=
  List.last (default [] (d !! p)) 0.

(** The parameters of every configured phase are physical as far as the
    drag force goes: a drag coefficient that is not negative and a reefing
    factor between 0 and 1. *)
Definition physical_phases (cfg : Inputs) : Prop :=
  forall p pp, phase_params cfg !! p = Some pp ->
    0 <= drag_coefficient pp /\ 0 <= reefing_factor pp <= 1.

(** The coasting capsule with a time step of 0: the clock and the capsule
    stand still. *)
Definition cfg_still : Inputs := {|
  global_params := {| initial_altitude := 10; initial_velocity := 6;
                      time_step := 0; descent_angle := 90 |};
  phase_params := {[ "Main" := pp_low ]};
  selected_phases := ["Main"] |}.

(** ** What [validate_inputs] lets through *)

Definition positive_value (v : option R) : Prop := exists x, v = Some x /\ 0 < x.
Definition non_negative_value (v : option R) : Prop := exists x, v = Some x /\ 0 <= x.

(** Every global value is entered and positive; every selected phase has
    an entry whose values are entered and not negative, with a reefing
    factor of at most 1. *)
Definition accepted_forms (g : GlobalForm) (phase_params : gmap string PhaseForm)
    (selected_phases : list string) : Prop :=
  (positive_value (f_initial_altitude g) /\ positive_value (f_initial_velocity g)
   /\ positive_value (f_time_step g) /\ positive_value (f_descent_angle g))
  /\ forall phase, phase ∈ selected_phases ->
       exists pp, phase_params !! phase = Some pp
         /\ non_negative_value (f_diameter pp)
         /\ non_negative_value (f_drag_coefficient pp)
         /\ non_negative_value (f_deployment_altitude pp)
         /\ non_negative_value (f_inflation_index pp)
         /\ non_negative_value (f_payload_mass pp)
         /\ exists rf, f_reefing_factor pp = Some rf /\ 0 <= rf <= 1.

(** The selected phases in the typical sequence, as [validate_inputs]
    lists them. *)
Definition typical_sequence (selected_phases : list string) : list string :=
  filter (fun p => p ∈ selected_phases) phase_order.

(** A list of numbers that never increases from one entry to the next. *)
Definition non_increasing (xs : list R) : Prop :=
  forall i a b, xs !! i = Some a -> xs !! S i = Some b -> b <= a.

(** ** Example forms *)

(** The forms of the coasting capsule, and the same with a payload mass
    of 0. *)
Definition form_coast : GlobalForm := {|
  f_initial_altitude := Some 10; f_initial_velocity := Some 6;
  f_time_step := Some 1; f_descent_angle := Some 90 |}.

Definition form_low (mass : R) : PhaseForm := {|
  f_diameter := Some 20; f_drag_coefficient := Some 1.5;
  f_deployment_altitude := Some 0.5; f_inflation_index := Some 5;
  f_payload_mass := Some mass; f_reefing_factor := Some 0.3 |}.

(** Drogue above main, both selected. *)
Definition form_phase (altitude : R) : PhaseForm := {|
  f_diameter := Some 5; f_drag_coefficient := Some 1.2;
  f_deployment_altitude := Some altitude; f_inflation_index := Some 5;
  f_payload_mass := Some 50; f_reefing_factor := Some 0.5 |}.

Definition forms_two : gmap string PhaseForm :=
  {[ "Drogue" := form_phase 3000; "Main" := form_phase 1000 ]}.

(** ** The plots *)

(** The first trace of the force plot. *)
Definition total_drag_trace (plots_data : PlotsData) : Scatter := {|
  trace_x := pd_time plots_data;
  trace_y := pd_total_drag_force plots_data;
  trace_name := "Total Drag Force";
  trace_color := "#1f2937"; trace_width := 3 |}.

(** A trace of the force plot that shows the drag series of phase [p]. *)
Definition phase_trace_of (plots_data : PlotsData) (p : string) (t : Scatter) : Prop :=
  trace_x t = pd_time plots_data
  /\ pd_phase_drag_forces plots_data !! p = Some (trace_y t)
  /\ trace_name t = p +:+ " Drag Force"
  /\ phase_colors !! p = Some (trace_color t)
  /\ exists y, y ∈ trace_y t /\ 0 < y.

(** Every configured phase has a positive payload mass. *)
Definition positive_masses (cfg : Inputs) : Prop :=
  forall p pp, phase_params cfg !! p = Some pp -> 0 < payload_mass pp.

(** ** Where reals and floats agree on raising and on ending *)

(** A magnitude whose square Python's [**] computes: the square of a
    float of magnitude up to 1e150 is below the largest float, so that
    [(diameter / 2) ** 2] and [velocity ** 2] do not raise
    [OverflowError]. *)
Definition square_range (x : R) : Prop := Rabs x <= 1e150.

(** A configuration on which the run of the model and the run on floats
    agree on raising and on ending: a time step that the clock of floats
    does not absorb before it passes 10000 s (at least 0.001 s, the least
    value of the time-step widget), and an initial velocity and diameters
    within [square_range].  After the first pass the velocity is a numpy
    float, whose square does not raise. *)
Definition within_float_range (cfg : Inputs) : Prop :=
  0.001 <= dt cfg
  /\ square_range (initial_velocity (global_params cfg))
  /\ forall p pp, phase_params cfg !! p = Some pp -> square_range (diameter pp).

(** The same for the values entered in the forms. *)
Definition forms_within_float_range (g : GlobalForm)
    (phase_params : gmap string PhaseForm) : Prop :=
  (forall v, f_initial_velocity g = Some v -> square_range v)
  /\ forall p form d, phase_params !! p = Some form -> f_diameter form = Some d ->
       square_range d.

(** A main parachute that opens in the first pass, fully reefed, on a
    horizontal flight path: the capsule coasts into the ground in that
    pass. *)
Definition cfg_touch : Inputs := {|
  global_params := {| initial_altitude := 4; initial_velocity := 6;
                      time_step := 1; descent_angle := 90 |};
  phase_params := {[ "Main" := pp_main_high ]};
  selected_phases := ["Main"] |}.

Definition touch_s1 : Sim := {|
  time := [0]; altitude := [0]; velocity := [6]; total_drag_force := [0];
  phase_drag_forces := {[ "Main" := [0] ]}; horizontal_position := [6];
  current_time := 1; current_altitude := -2; current_velocity := 6;
  current_horizontal_pos := 6;
  active_phases :=
    [ {| phase := "Main"; deployment_time := 0; inflation_time := 5 * 20 / 6;
         params := pp_main_high |} ];
  deployed_phases := {[ "Main" ]};
  phase_deployment_times := {[ "Main" := 0 ]};
  phase_inflation_times := {[ "Main" := 5 * 20 / 6 ]} |}.

Definition touch_results : Results := {|
  max_total_drag_force := 0; landing_velocity := 6; total_flight_time := 0;
  total_horizontal_range := 6; final_altitude := 0;
  phase_results := [ {| Phase := "Main"; Max_Drag_Force := "0.0";
                        Deployment_Time := "0.0"; Inflation_Time := "16.7" |} ] |}.

(** * Properties of the physics model *)

Ltac unfold_consts := unfold L, T0, rho0, g in *.

Section AirDensity.

Lemma Rpower_le_1 (x y : R) : 0 < x -> x <= 1 -> 0 <= y -> Rpower x y <= 1.
Proof.
  intros Hx Hx1 Hy. unfold Rpower.
  rewrite <- exp_0.
  destruct (Rle_lt_or_eq_dec _ _ Hx1) as [Hlt | ->].
  - assert (ln x < 0) by (rewrite <- ln_1; apply ln_increasing; lra).
    destruct (Rle_lt_or_eq_dec _ _ Hy) as [Hy' | <-].
    + left. apply exp_increasing. nra.
    + right. f_equal. lra.
  - rewrite ln_1. right. f_equal. lra.
Qed.

Lemma Rpower_pos (x y : R) : 0 < Rpower x y.
Proof. unfold Rpower. apply exp_pos. Qed.

Lemma temperature_ratio_le_1 h : temperature_ratio h <= 1.
Proof.
  unfold temperature_ratio. unfold_consts.
  destruct (Rlt_dec h 0); lra.
Qed.

Lemma temperature_ratio_antitone h1 h2 :
  h1 <= h2 -> temperature_ratio h2 <= temperature_ratio h1.
Proof.
  unfold temperature_ratio. unfold_consts. intros H.
  destruct (Rlt_dec h1 0), (Rlt_dec h2 0); lra.
Qed.

Lemma air_density_unfold h :
  calculate_air_density h =
    if Rle_dec (temperature_ratio h) 0 then 0.001
    else Rmax (rho0 * Rpower (temperature_ratio h) 5.2561) 0.001.
Proof. reflexivity. Qed.

Lemma air_density_lower h : 0.001 <= calculate_air_density h.
Proof.
  rewrite air_density_unfold.
  destruct (Rle_dec _ _); [lra | apply Rmax_r].
Qed.

Lemma air_density_upper h : calculate_air_density h <= 1.225.
Proof.
  rewrite air_density_unfold.
  destruct (Rle_dec _ _) as [| Hpos]; [lra |].
  apply Rmax_lub; [| lra].
  pose proof (Rpower_le_1 (temperature_ratio h) 5.2561) as Hp.
  pose proof (temperature_ratio_le_1 h).
  unfold rho0. assert (Rpower (temperature_ratio h) 5.2561 <= 1) by (apply Hp; lra).
  lra.
Qed.

Lemma air_density_pos h : 0 < calculate_air_density h.
Proof. pose proof (air_density_lower h). lra. Qed.

Lemma air_density_antitone h1 h2 :
  h1 <= h2 -> calculate_air_density h2 <= calculate_air_density h1.
Proof.
  intros Hle. pose proof (temperature_ratio_antitone _ _ Hle) as Hr.
  rewrite (air_density_unfold h2).
  destruct (Rle_dec (temperature_ratio h2) 0) as [| H2]; [apply air_density_lower |].
  rewrite (air_density_unfold h1).
  destruct (Rle_dec (temperature_ratio h1) 0) as [| H1]; [lra |].
  apply Rle_max_compat_r.
  apply Rmult_le_compat_l; [unfold rho0; lra |].
  apply Rle_Rpower_l; lra.
Qed.

End AirDensity.

(** C7. [calculate_air_density] is non-increasing in altitude: for
    altitudes [0 <= a1 <= a2 <= 44000] the density at [a2] is at most the
    density at [a1]. *)
Theorem air_density_non_increasing (a1 a2 : R) :
  0 <= a1 -> a1 <= a2 -> a2 <= 44000 ->
  calculate_air_density a2 <= calculate_air_density a1.
Proof. intros _ H _. by apply air_density_antitone. Qed.

Lemma air_density_non_increasing_witness :
  calculate_air_density 3000 <= calculate_air_density 1000.
Proof. apply (air_density_non_increasing 1000 3000); lra. Defined.

(** C8. [calculate_air_density] is a total function of the altitude and
    its value is positive, at least the floor 0.001 and at most the
    sea-level density 1.225, for every real altitude; a negative altitude
    gives the sea-level value (clamp to 0) and an altitude whose
    temperature ratio is not positive gives the floor. *)
Theorem air_density_total_positive (h : R) :
  0 < calculate_air_density h
  /\ 0.001 <= calculate_air_density h <= 1.225
  /\ (h < 0 -> calculate_air_density h = calculate_air_density 0)
  /\ (1 - L * h / T0 <= 0 -> calculate_air_density h = 0.001).
Proof.
  split; [apply air_density_pos |].
  split; [split; [apply air_density_lower | apply air_density_upper] |].
  split.
  - intros Hneg. unfold calculate_air_density.
    destruct (Rlt_dec h 0); [| lra]. destruct (Rlt_dec 0 0); [lra | reflexivity].
  - intros Hr. unfold calculate_air_density.
    destruct (Rlt_dec h 0) as [Hneg |].
    + exfalso. unfold_consts. lra.
    + destruct (Rle_dec _ _); [reflexivity | contradiction].
Qed.

(** ** Drag force and the inflation ramp *)

Section DragForce.

Variables altitude velocity diameter drag_coefficient reefing_factor : R.

Local Abbreviation base := (base_drag altitude velocity diameter drag_coefficient).
Local Abbreviation drag :=
  (calculate_drag_force altitude velocity diameter drag_coefficient reefing_factor).

Lemma py_div_nonzero a b : b <> 0 -> py_div a b = Ok (a / b).
Proof. intros H. unfold py_div. destruct (Req_dec_T b 0); [contradiction | reflexivity]. Qed.

Lemma base_drag_nonneg : 0 <= drag_coefficient -> 0 <= base.
Proof.
  intros Hcd. unfold base_drag. cbv zeta.
  pose proof (air_density_pos altitude) as Hrho.
  pose proof PI_RGT_0 as Hpi.
  assert (0 <= velocity ^ 2) by (apply pow2_ge_0).
  assert (0 <= (diameter / 2) ^ 2) by (apply pow2_ge_0).
  apply Rmult_le_pos;
    [apply Rmult_le_pos;
       [apply Rmult_le_pos; [apply Rmult_le_pos; lra | assumption] | assumption]
    | apply Rmult_le_pos; [lra | assumption]].
Qed.

(** During inflation the force is the base force scaled by the
    interpolated coefficient. *)
Lemma drag_force_inflating t T :
  0 < velocity -> t < T -> T <> 0 ->
  drag t T = Ok (base * (reefing_factor + (1 - reefing_factor) * (t / T))).
Proof.
  intros Hv Ht HT. unfold calculate_drag_force.
  destruct (Rle_dec velocity 0); [lra |].
  destruct (Rlt_dec t T); [| lra].
  rewrite py_div_nonzero by assumption. reflexivity.
Qed.

Lemma drag_force_inflated t T :
  0 < velocity -> T <= t -> drag t T = Ok base.
Proof.
  intros Hv Ht. unfold calculate_drag_force.
  destruct (Rle_dec velocity 0); [lra |].
  destruct (Rlt_dec t T); [lra | reflexivity].
Qed.

Lemma drag_force_no_airspeed t T : velocity <= 0 -> drag t T = Ok 0.
Proof.
  intros Hv. unfold calculate_drag_force.
  destruct (Rle_dec velocity 0); [reflexivity | lra].
Qed.

Lemma drag_force_ramp t T :
  0 < velocity -> 0 < T ->
  drag t T = Ok (ramp altitude velocity diameter drag_coefficient reefing_factor T t).
Proof.
  intros Hv HT. unfold ramp. destruct (Rlt_dec t T).
  - apply drag_force_inflating; lra.
  - apply drag_force_inflated; lra.
Qed.

Lemma ramp_monotone T t1 t2 :
  0 < T -> 0 <= drag_coefficient -> reefing_factor <= 1 -> t1 <= t2 ->
  ramp altitude velocity diameter drag_coefficient reefing_factor T t1
  <= ramp altitude velocity diameter drag_coefficient reefing_factor T t2.
Proof.
  intros HT Hcd Hrf Hle. pose proof (base_drag_nonneg Hcd) as Hb.
  assert (Hdiv : forall t, t / T * T = t) by (intros; field; lra).
  assert (Hmono : t1 / T <= t2 / T).
  { unfold Rdiv. apply Rmult_le_compat_r; [| lra].
    left. by apply Rinv_0_lt_compat. }
  unfold ramp. fold base.
  destruct (Rlt_dec t1 T) as [H1 | H1], (Rlt_dec t2 T) as [H2 | H2].
  - apply Rmult_le_compat_l; [lra |]. nra.
  - assert (t1 / T < 1).
    { apply (Rmult_lt_reg_r T); [lra |]. rewrite Hdiv. lra. }
    assert (reefing_factor + (1 - reefing_factor) * (t1 / T) <= 1) by nra.
    nra.
  - lra.
  - lra.
Qed.

End DragForce.

(** C1 (amended: the monotonicity part is for a non-negative drag
    coefficient).  For a positive velocity and a positive inflation time:
    at time 0 since deployment the drag force is [reefing_factor] times the
    base force; from the inflation time on it is the base force; and when
    [0 <= drag_coefficient] and [reefing_factor <= 1] the force is
    non-decreasing in the time since deployment. *)
Theorem drag_force_inflation_ramp
    (altitude velocity diameter drag_coefficient reefing_factor inflation_time : R) :
  0 < velocity -> 0 < inflation_time ->
  let drag := calculate_drag_force altitude velocity diameter drag_coefficient
                reefing_factor in
  let base := base_drag altitude velocity diameter drag_coefficient in
  drag 0 inflation_time = Ok (reefing_factor * base)
  /\ (forall t, inflation_time <= t -> drag t inflation_time = Ok base)
  /\ (0 <= drag_coefficient -> reefing_factor <= 1 ->
      forall t1 t2, t1 <= t2 ->
        exists f1 f2, drag t1 inflation_time = Ok f1
                      /\ drag t2 inflation_time = Ok f2
                      /\ f1 <= f2).
Proof.
  intros Hv HT drag base. split; [| split].
  - subst drag base. rewrite drag_force_inflating by lra.
    f_equal. field. lra.
  - intros t Ht. by apply drag_force_inflated.
  - intros Hcd Hrf t1 t2 Hle.
    exists (ramp altitude velocity diameter drag_coefficient reefing_factor inflation_time t1),
           (ramp altitude velocity diameter drag_coefficient reefing_factor inflation_time t2).
    subst drag. rewrite !drag_force_ramp by assumption.
    split; [reflexivity |]. split; [reflexivity |].
    by apply ramp_monotone.
Qed.

Lemma drag_force_inflation_ramp_witness :
  exists f1 f2,
    calculate_drag_force 1000 50 20 1.5 0.3 1 2 = Ok f1
    /\ calculate_drag_force 1000 50 20 1.5 0.3 3 2 = Ok f2
    /\ f1 <= f2.
Proof.
  destruct (drag_force_inflation_ramp 1000 50 20 1.5 0.3 2) as (_ & _ & H); [lra | lra |].
  apply (H ltac:(lra) ltac:(lra) 1 3). lra.
Defined.

(** C1 as first stated, without the condition on the drag coefficient,
    fails: with [drag_coefficient = -1] the base force is negative and the
    force at time 1 (fully inflated) is below the force at time 0. *)
Lemma drag_force_monotone_counterexample :
  ~ (forall t1 t2 f1 f2, t1 <= t2 ->
       calculate_drag_force 0 1 2 (-1) 0 t1 1 = Ok f1 ->
       calculate_drag_force 0 1 2 (-1) 0 t2 1 = Ok f2 ->
       f1 <= f2).
Proof.
  intros H.
  specialize (H 0 1 (base_drag 0 1 2 (-1) * (0 + (1 - 0) * (0 / 1)))
                (base_drag 0 1 2 (-1)) ltac:(lra)).
  rewrite drag_force_inflating in H by lra.
  rewrite drag_force_inflated in H by lra.
  specialize (H eq_refl eq_refl).
  unfold base_drag in H.
  pose proof (air_density_pos 0) as Hrho. pose proof PI_RGT_0 as Hpi.
  replace ((2 / 2) ^ 2) with 1 in H by field.
  replace (1 ^ 2) with 1 in H by field.
  nra.
Qed.
(** * The one-decimal formatting of the phase results *)

Section Format.

Lemma round_half_even_spec (z : Z) (f : R) :
  0 <= f < 1 ->
  round_half_even (IZR z + f)
  = if Rlt_dec f (1 / 2) then z
    else if Rlt_dec (1 / 2) f then (z + 1)%Z
    else if Z.even z then z else (z + 1)%Z.
Proof.
  intros Hf. unfold round_half_even.
  destruct (Int_part_frac_part_spec (IZR z + f) z f Hf eq_refl) as [<- <-]. done.
Qed.

Lemma format_1f_0 : format_1f 0 = "0.0".
Proof.
  unfold format_1f. rewrite Rabs_R0.
  replace (0 * 10) with (IZR 0 + 0) by lra.
  rewrite round_half_even_spec by lra.
  destruct (Rlt_dec 0 (1 / 2)); [| lra]. destruct (Rlt_dec 0 0); [lra |]. done.
Qed.

(** A tie goes to the even digit, other values to the nearest one. *)
Lemma format_1f_examples : format_1f 0.25 = "0.2" /\ format_1f 0.26 = "0.3".
Proof.
  unfold format_1f. rewrite !Rabs_pos_eq by lra. split.
  - replace (0.25 * 10) with (IZR 2 + 1 / 2) by lra.
    rewrite round_half_even_spec by lra.
    destruct (Rlt_dec (1 / 2) (1 / 2)); [lra |]. destruct (Rlt_dec 0.25 0); [lra |]. done.
  - replace (0.26 * 10) with (IZR 2 + 0.6) by lra.
    rewrite round_half_even_spec by lra.
    destruct (Rlt_dec 0.6 (1 / 2)); [lra |]. destruct (Rlt_dec (1 / 2) 0.6); [| lra].
    destruct (Rlt_dec 0.26 0); [lra |]. done.
Qed.

End Format.

(** * The loop body, operation by operation *)

Lemma bind_Ok {A B : Type} (m : result A) (k : A -> result B) (b : B) :
  (m ≫= k) = Ok b <-> exists a, m = Ok a /\ k a = Ok b.
Proof.
  destruct m as [a | e]; simpl; split.
  - intros H. by exists a.
  - by intros (a' & [= <-] & H).
  - intros [=].
  - by intros (a' & [=] & _).
Qed.

Lemma getitem_Ok {V : Type} (d : gmap string V) (k : string) (v : V) :
  getitem d k = Ok v <-> d !! k = Some v.
Proof. unfold getitem. destruct (d !! k); split; congruence. Qed.

(** Decompose a hypothesis [(x ← m; k) = Ok b]. *)
Ltac inv_bind H :=
  let a := fresh "a" in
  let Ha := fresh "H" a in
  apply bind_Ok in H; destruct H as (a & Ha & H).

Section Frames.

Context (cfg : Inputs).

(** ** [_deploy_phase] and [_check_phase_deployments] *)

Lemma same_motion_refl s : same_motion s s.
Proof. by repeat split. Qed.

Lemma same_motion_trans s1 s2 s3 :
  same_motion s1 s2 -> same_motion s2 s3 -> same_motion s1 s3.
Proof. unfold same_motion. intros; destruct_and!; repeat split; congruence. Qed.

Lemma deploy_phase_Ok p s s' :
  _deploy_phase cfg p s = Ok s' ->
  exists pp,
    phase_params cfg !! p = Some pp
    /\ same_motion s s'
    /\ active_phases s' =
         active_phases s ++
         [ {| phase := p; deployment_time := current_time s;
              inflation_time :=
                calculate_inflation_time (inflation_index pp) (diameter pp)
                  (current_velocity s);
              params := pp |} ]
    /\ deployed_phases s' = {[ p ]} ∪ deployed_phases s
    /\ phase_deployment_times s' = <[p := current_time s]> (phase_deployment_times s)
    /\ phase_inflation_times s' =
         <[p := calculate_inflation_time (inflation_index pp) (diameter pp)
                  (current_velocity s)]> (phase_inflation_times s).
Proof.
  unfold _deploy_phase. intros H. inv_bind H. apply getitem_Ok in Ha.
  injection H as <-. exists a. simpl. by repeat split.
Qed.

(** The three outcomes of one pass of the loop of
    [_check_phase_deployments]. *)
Lemma check_phase_Ok p s s' :
  check_phase cfg p s = Ok s' ->
  (p ∈ deployed_phases s /\ s' = s)
  \/ (exists pp, (p ∉ deployed_phases s) /\ phase_params cfg !! p = Some pp
                 /\ deployment_altitude pp < current_altitude s /\ s' = s)
  \/ (exists pp, (p ∉ deployed_phases s) /\ phase_params cfg !! p = Some pp
                 /\ current_altitude s <= deployment_altitude pp
                 /\ _deploy_phase cfg p s = Ok s').
Proof.
  unfold check_phase. intros H.
  destruct (decide (p ∈ deployed_phases s)) as [Hin | Hout].
  - left. by injection H as <-.
  - right. inv_bind H. apply getitem_Ok in Ha.
    destruct (Rle_dec _ _) as [Hle | Hgt].
    + right. by exists a.
    + left. exists a. injection H as <-. repeat split; try done. lra.
Qed.

Lemma check_phase_same_motion p s s' :
  check_phase cfg p s = Ok s' -> same_motion s s'.
Proof.
  intros H. apply check_phase_Ok in H as [[_ ->] | [(pp & _ & _ & _ & ->) | (pp & _ & _ & _ & H)]];
    try apply same_motion_refl.
  apply deploy_phase_Ok in H as (? & _ & H & _). exact H.
Qed.

(** Induction principle for the deployment loop: a relation to the
    starting state that every pass extends holds at the end. *)
Lemma check_phases_ind (P : Sim -> Sim -> Prop) :
  (forall s, P s s) ->
  (forall s0 s p s', P s0 s -> check_phase cfg p s = Ok s' -> P s0 s') ->
  forall phases s s', check_phases cfg phases s = Ok s' -> P s s'.
Proof.
  intros Hrefl Hstep phases s.
  assert (Hgen : forall s0 s', P s0 s -> check_phases cfg phases s = Ok s' -> P s0 s').
  { revert s. induction phases as [| p rest IH]; intros s s0 s' HP H; simpl in H.
    - by injection H as <-.
    - inv_bind H. eapply IH; [| exact H]. eapply Hstep; eauto. }
  intros s' H. eapply Hgen; eauto.
Qed.

Lemma check_phases_same_motion phases s s' :
  check_phases cfg phases s = Ok s' -> same_motion s s'.
Proof.
  revert s s'. apply check_phases_ind.
  - apply same_motion_refl.
  - intros s0 s p s' H0 H. eapply same_motion_trans; [exact H0 |].
    by eapply check_phase_same_motion.
Qed.

End Frames.

Section Forces.

Context (cfg : Inputs).

(** ** [_calculate_forces] *)

Lemma occurrences_pos q phases : q ∈ phases -> (1 <= occurrences q phases)%nat.
Proof.
  induction 1 as [x l | x y l _ IH]; simpl.
  - destruct (decide (x = x)); [lia | done].
  - lia.
Qed.

Lemma occurrences_NoDup q phases :
  NoDup phases -> q ∈ phases -> occurrences q phases = 1%nat.
Proof.
  induction 1 as [| x l Hx _ IH]; intros Hq; [by apply elem_of_nil in Hq |].
  simpl. destruct (decide (x = q)) as [-> | Hne].
  - assert (occurrences q l = 0%nat); [| lia].
    clear IH Hq. induction l as [| y l IHl]; [done |]. simpl.
    apply not_elem_of_cons in Hx as [Hy Hl].
    destruct (decide (y = q)); [congruence |]. by rewrite IHl.
  - apply elem_of_cons in Hq as [-> | Hq]; [done |]. by rewrite IH.
Qed.

(** The first loop appends one [0] per occurrence of the phase. *)
Lemma append_zeros_Ok phases d d' :
  append_zeros phases d = Ok d' ->
  forall q, d' !! q = (fun xs => xs ++ replicate (occurrences q phases) 0) <$> (d !! q).
Proof.
  revert d. induction phases as [| p rest IH]; intros d H q; simpl in H.
  - injection H as <-. simpl. destruct (d !! q); simpl; [| done].
    by rewrite app_nil_r.
  - inv_bind H. apply getitem_Ok in Ha. rewrite (IH _ H q). simpl.
    destruct (decide (p = q)) as [-> | Hne].
    + rewrite lookup_insert_eq, Ha. simpl. by rewrite <- app_assoc.
    + by rewrite lookup_insert_ne.
Qed.

Lemma same_but_last_refl xs : same_but_last xs xs.
Proof. by split. Qed.

Lemma same_but_last_trans xs ys zs :
  same_but_last xs ys -> same_but_last ys zs -> same_but_last xs zs.
Proof. intros [? ?] [? ?]. split; congruence. Qed.

Lemma set_last_Ok xs v xs' :
  set_last xs v = Ok xs' -> xs <> [] /\ xs' = removelast xs ++ [v].
Proof. destruct xs; simpl; [done |]. intros [= <-]. by split. Qed.

Lemma set_last_same_but_last xs v xs' :
  set_last xs v = Ok xs' -> same_but_last xs xs'.
Proof.
  intros H. apply set_last_Ok in H as [Hne ->]. split.
  - by rewrite removelast_last.
  - rewrite length_app. simpl.
    rewrite (app_removelast_last 0 Hne) at 1. rewrite length_app. simpl. lia.
Qed.

(** The second loop changes at most the last entry of a series, and only
    for the phases it runs over. *)
Lemma active_drags_Ok s infos total d total' d' :
  active_drags s infos total d = Ok (total', d') ->
  forall q,
    match d !! q with
    | Some xs => exists xs', d' !! q = Some xs' /\ same_but_last xs xs'
                             /\ (q ∉ phase <$> infos -> xs' = xs)
    | None => d' !! q = None
    end.
Proof.
  revert total d. induction infos as [| info rest IH]; intros total d H q; simpl in H.
  - injection H as <- <-. destruct (d !! q) as [xs |]; [| done].
    exists xs. split; [done |]. split; [apply same_but_last_refl | done].
  - inv_bind H. inv_bind H. inv_bind H. apply getitem_Ok in Ha0.
    specialize (IH _ _ H q).
    destruct (decide (phase info = q)) as [Heq | Hne].
    + subst q. rewrite lookup_insert_eq in IH. rewrite Ha0.
      destruct IH as (xs' & Hd' & Hsame & _).
      exists xs'. split; [done |]. split.
      * eapply same_but_last_trans; [| exact Hsame].
        by eapply set_last_same_but_last.
      * intros Hnot. exfalso. apply Hnot. rewrite fmap_cons. apply elem_of_cons. by left.
    + rewrite lookup_insert_ne in IH by done.
      destruct (d !! q) as [xs |]; [| done].
      destruct IH as (xs' & Hd' & Hsame & Hout).
      exists xs'. split; [done |]. split; [done |].
      intros Hnot. apply Hout. intros Hin. apply Hnot.
      rewrite fmap_cons. apply elem_of_cons. by right.
Qed.

Lemma calculate_forces_Ok s s' :
  _calculate_forces cfg s = Ok s' ->
  exists d0 total,
    append_zeros (selected_phases cfg) (phase_drag_forces s) = Ok d0
    /\ active_drags s (active_phases s) 0 d0 = Ok (total, phase_drag_forces s')
    /\ total_drag_force s' = total_drag_force s ++ [total]
    /\ same_phases s s'
    /\ time s' = time s /\ altitude s' = altitude s /\ velocity s' = velocity s
    /\ horizontal_position s' = horizontal_position s
    /\ current_time s' = current_time s
    /\ current_altitude s' = current_altitude s
    /\ current_velocity s' = current_velocity s
    /\ current_horizontal_pos s' = current_horizontal_pos s.
Proof.
  unfold _calculate_forces. intros H. inv_bind H. inv_bind H.
  destruct a0 as [total d]. injection H as <-. simpl.
  exists a, total. by repeat split.
Qed.

Lemma same_but_last_snoc ys z xs' :
  same_but_last (ys ++ [z]) xs' -> exists x, xs' = ys ++ [x].
Proof.
  intros [Hrem Hlen]. rewrite removelast_last in Hrem.
  rewrite length_app in Hlen. simpl in Hlen.
  assert (Hne : xs' <> []) by (intros ->; simpl in Hlen; lia).
  exists (List.last xs' 0). rewrite Hrem. by apply app_removelast_last.
Qed.

(** What one pass does to the drag series of a selected phase: it grows
    by one entry per occurrence of the phase in [selected_phases]; the
    old entries stay; the new ones are [0] unless the phase is active. *)
Lemma calculate_forces_series s s' q xs :
  _calculate_forces cfg s = Ok s' ->
  q ∈ selected_phases cfg ->
  phase_drag_forces s !! q = Some xs ->
  exists new, phase_drag_forces s' !! q = Some (xs ++ new)
              /\ length new = occurrences q (selected_phases cfg)
              /\ (q ∉ active_names s -> new = replicate (length new) 0).
Proof.
  intros H Hsel Hq. apply calculate_forces_Ok in H as (d0 & total & Hz & Ha & _).
  pose proof (append_zeros_Ok _ _ _ Hz q) as Hd0.
  pose proof (active_drags_Ok _ _ _ _ _ _ Ha q) as Hd.
  rewrite Hq in Hd0. simpl in Hd0. rewrite Hd0 in Hd.
  destruct Hd as (xs' & Hxs' & Hsame & Hout).
  pose proof (occurrences_pos _ _ Hsel) as Hpos.
  destruct (occurrences q (selected_phases cfg)) as [| k]; [lia |].
  rewrite replicate_S_end, app_assoc in Hsame, Hout.
  destruct (same_but_last_snoc _ _ _ Hsame) as (x & ->).
  exists (replicate k 0 ++ [x]). rewrite app_assoc. split; [done |]. split.
  - rewrite length_app, length_replicate. simpl. lia.
  - intros Hnot. specialize (Hout Hnot). apply app_inj_tail in Hout as [_ ->].
    rewrite length_app, length_replicate. simpl.
    replace (k + 1)%nat with (S k) by lia. by rewrite replicate_S_end.
Qed.

Lemma calculate_forces_keys s s' q :
  _calculate_forces cfg s = Ok s' ->
  phase_drag_forces s !! q = None -> phase_drag_forces s' !! q = None.
Proof.
  intros H Hq. apply calculate_forces_Ok in H as (d0 & total & Hz & Ha & _).
  pose proof (append_zeros_Ok _ _ _ Hz q) as Hd0.
  pose proof (active_drags_Ok _ _ _ _ _ _ Ha q) as Hd.
  rewrite Hq in Hd0. simpl in Hd0. by rewrite Hd0 in Hd.
Qed.

End Forces.

Section Dynamics.

Context (cfg : Inputs).

(** ** [_update_dynamics], [_store_data] and the whole pass *)

Lemma py_div_Ok a b c : py_div a b = Ok c -> b <> 0 /\ c = a / b.
Proof. unfold py_div. destruct (Req_dec_T b 0); [done |]. by intros [= <-]. Qed.

Lemma update_dynamics_Ok s s' :
  _update_dynamics cfg s = Ok s' ->
  exists mass,
    _get_current_mass cfg s = Ok mass /\ mass <> 0
    /\ current_velocity s' =
         Rmax 0 (current_velocity s
                 + (g * cos (descent_angle_rad cfg)
                    - List.last (total_drag_force s) 0 / mass) * dt cfg)
    /\ current_altitude s' = current_altitude s - current_velocity s' * dt cfg
    /\ current_horizontal_pos s' =
         current_horizontal_pos s
         + current_velocity s' * sin (descent_angle_rad cfg) * dt cfg
    /\ current_time s' = current_time s
    /\ same_phases s s'
    /\ time s' = time s /\ altitude s' = altitude s /\ velocity s' = velocity s
    /\ horizontal_position s' = horizontal_position s
    /\ total_drag_force s' = total_drag_force s
    /\ phase_drag_forces s' = phase_drag_forces s.
Proof.
  unfold _update_dynamics. intros H. inv_bind H. inv_bind H.
  apply py_div_Ok in Ha0 as [Hm ->]. injection H as <-. simpl.
  exists a. by repeat split.
Qed.

Lemma step_Ok s s' :
  step cfg s = Ok s' ->
  exists s1 s2 s3,
    _check_phase_deployments cfg s = Ok s1
    /\ _calculate_forces cfg s1 = Ok s2
    /\ _update_dynamics cfg s2 = Ok s3
    /\ s' = advance_time cfg (_store_data s3).
Proof.
  unfold step. intros H. inv_bind H. inv_bind H. inv_bind H.
  injection H as <-. by exists a, a0, a1.
Qed.

(** The motion part of one pass: the velocity is clamped at 0 before it
    is used, the snapshot is taken after the update and before the clock
    advances. *)
Lemma step_motion s s' :
  step cfg s = Ok s' ->
  0 <= current_velocity s'
  /\ current_altitude s' = current_altitude s - current_velocity s' * dt cfg
  /\ current_horizontal_pos s' =
       current_horizontal_pos s
       + current_velocity s' * sin (descent_angle_rad cfg) * dt cfg
  /\ current_time s' = current_time s + dt cfg
  /\ time s' = time s ++ [current_time s]
  /\ altitude s' = altitude s ++ [Rmax 0 (current_altitude s')]
  /\ velocity s' = velocity s ++ [current_velocity s']
  /\ horizontal_position s' = horizontal_position s ++ [current_horizontal_pos s'].
Proof.
  intros H. apply step_Ok in H as (s1 & s2 & s3 & H1 & H2 & H3 & ->).
  apply check_phases_same_motion in H1.
  apply calculate_forces_Ok in H2 as (_ & _ & _ & _ & _ & H2).
  apply update_dynamics_Ok in H3 as (mass & _ & _ & Hv & Ha & Hh & Ht & _ & H3).
  unfold same_motion in H1. destruct_and!. simpl.
  repeat split; try congruence.
  - rewrite Hv. apply Rmax_l.
Qed.

(** The deployment part of one pass: only [_check_phase_deployments]
    touches the phase tracking. *)
Lemma step_phases s s' :
  step cfg s = Ok s' ->
  exists s1, _check_phase_deployments cfg s = Ok s1 /\ same_phases s1 s'.
Proof.
  intros H. apply step_Ok in H as (s1 & s2 & s3 & H1 & H2 & H3 & ->).
  exists s1. split; [done |].
  apply calculate_forces_Ok in H2 as (_ & _ & _ & _ & _ & H2 & _).
  apply update_dynamics_Ok in H3 as (mass & _ & _ & _ & _ & _ & _ & H3 & _).
  unfold same_phases in *. destruct_and!. simpl. repeat split; congruence.
Qed.

End Dynamics.

(** * The loop *)

Section Loop.

Context (cfg : Inputs).

Lemma after_det n s s' : after cfg n s -> after cfg n s' -> s = s'.
Proof.
  intros H. revert s'. induction H as [| n s1 s2 H1 IH Hc Hs]; intros s' H'.
  - by inversion H'.
  - inversion H' as [| n' s1' s2' H1' Hc' Hs']; subst.
    rewrite (IH _ H1') in Hs. congruence.
Qed.

Lemma after_prefix n s m : after cfg n s -> (m <= n)%nat -> exists sm, after cfg m sm.
Proof.
  induction 1 as [| n s1 s2 H1 IH Hc Hs]; intros Hle.
  - exists (__init__ cfg). replace m with 0%nat by lia. constructor.
  - destruct (decide (m = S n)) as [-> | Hne].
    + exists s2. by econstructor.
    + apply IH. lia.
Qed.

Lemma after_pred n s :
  after cfg (S n) s -> exists s0, after cfg n s0 /\ continues s0 /\ step cfg s0 = Ok s.
Proof. inversion 1; subst. eauto. Qed.

(** The clock and the lengths of the series after [n] passes. *)
Lemma after_clock n s :
  after cfg n s ->
  current_time s = INR n * dt cfg
  /\ length (time s) = n /\ length (altitude s) = n
  /\ length (velocity s) = n /\ length (horizontal_position s) = n.
Proof.
  induction 1 as [| n s1 s2 H1 IH Hc Hs].
  - simpl. repeat split; try done. lra.
  - apply step_motion in Hs as (_ & _ & _ & Ht & Hts & Has & Hvs & Hhs).
    destruct IH as (IHt & IH1 & IH2 & IH3 & IH4).
    rewrite Ht, Hts, Has, Hvs, Hhs, !length_app, IHt, S_INR. simpl.
    repeat split; try lia. lra.
Qed.

(** Snapshot [i] of the series: the clock of before pass [i] with the
    altitude (floored at 0), velocity and horizontal position of after
    it. *)
Lemma after_snapshot n s i :
  after cfg n s -> (i < n)%nat ->
  exists si,
    after cfg (S i) si
    /\ time s !! i = Some (INR i * dt cfg)
    /\ altitude s !! i = Some (Rmax 0 (current_altitude si))
    /\ velocity s !! i = Some (current_velocity si)
    /\ horizontal_position s !! i = Some (current_horizontal_pos si).
Proof.
  induction 1 as [| n s1 s2 H1 IH Hc Hs]; intros Hlt; [lia |].
  pose proof (after_clock _ _ H1) as (Hclk & L1 & L2 & L3 & L4).
  pose proof (step_motion _ _ _ Hs) as (_ & _ & _ & Ht & Hts & Has & Hvs & Hhs).
  rewrite Hts, Has, Hvs, Hhs.
  destruct (decide (i = n)) as [-> | Hne].
  - exists s2. split; [by econstructor |].
    rewrite !lookup_app_r by lia. rewrite L1, L2, L3, L4, Nat.sub_diag. simpl.
    by rewrite Hclk.
  - destruct IH as (si & Hsi & I1 & I2 & I3 & I4); [lia |].
    exists si. split; [done |].
    rewrite !lookup_app_l by lia. by repeat split.
Qed.

(** ** [run_loop] against [after] *)

Lemma run_loop_after fuel n s s' :
  after cfg n s -> current_time s <= 10000 ->
  run_loop fuel cfg s = Some (Ok s') ->
  exists N, (n <= N)%nat /\ after cfg N s' /\ ~ continues s'.
Proof.
  revert n s. induction fuel as [| fuel IH]; intros n s Hs Ht H; simpl in H.
  - destruct (Rlt_dec 0 (current_altitude s)); [done |].
    injection H as <-. exists n. split; [lia |]. split; [done |].
    unfold continues. lra.
  - destruct (Rlt_dec 0 (current_altitude s)) as [Halt |].
    + destruct (step cfg s) as [s1 | e] eqn:Hstep; [| done].
      assert (after cfg (S n) s1) by (econstructor; eauto; by split).
      destruct (Rlt_dec 10000 (current_time s1)) as [Hbrk | Hgo].
      * injection H as <-. exists (S n). split; [lia |]. split; [done |].
        unfold continues. lra.
      * destruct (IH (S n) s1) as (N & ? & ? & ?); [done | lra | done |].
        exists N. split; [lia | done].
    + injection H as <-. exists n. split; [lia |]. split; [done |].
      unfold continues. lra.
Qed.

(** The loop ends either on the ground or at the ceiling. *)
Lemma not_continues s : ~ continues s <-> landed s \/ hit_ceiling s.
Proof.
  unfold continues, landed, hit_ceiling. split.
  - intros H. destruct (Rle_dec (current_altitude s) 0); [by left | right].
    split; [lra |]. apply Rnot_le_lt. intros ?. apply H. split; lra.
  - intros [H | [H1 H2]] [H3 H4]; lra.
Qed.

Lemma run_after fuel s r :
  run fuel cfg = Some (Ok (s, r)) ->
  _compile_results cfg s = Ok r
  /\ exists N, after cfg N s /\ ~ continues s.
Proof.
  unfold run. intros H.
  destruct (run_loop fuel cfg (__init__ cfg)) as [[s0 | e] |] eqn:Hloop; try done.
  injection H as H. inv_bind H. injection H as <- <-. split; [done |].
  destruct (run_loop_after fuel 0 (__init__ cfg) s0) as (N & _ & ? & ?);
    [constructor | simpl; lra | done |].
  by exists N.
Qed.

Lemma after_continues n s j s' :
  after cfg n s -> after cfg (n + S j) s' -> continues s.
Proof.
  intros Hs Hs'.
  destruct (after_prefix _ _ (S n) Hs') as (s1 & H1); [lia |].
  apply after_pred in H1 as (s0 & H0 & Hc & _).
  by rewrite (after_det _ _ _ Hs H0).
Qed.

(** The converse: a state from which the loop does not go on is what
    [run_loop] returns, given fuel for the passes. *)
Lemma after_run_loop fuel n s m s' :
  after cfg n s -> current_time s <= 10000 ->
  after cfg (n + m) s' -> ~ continues s' -> (m <= fuel)%nat ->
  run_loop fuel cfg s = Some (Ok s').
Proof.
  revert n s m. induction fuel as [| fuel IH]; intros n s m Hs Ht Hs' Hstop Hm.
  - assert (m = 0%nat) as -> by lia. rewrite Nat.add_0_r in Hs'.
    rewrite (after_det _ _ _ Hs' Hs) in *. simpl.
    destruct (Rlt_dec 0 (current_altitude s)); [| done].
    exfalso. apply Hstop. by split.
  - destruct m as [| m].
    + rewrite Nat.add_0_r in Hs'. rewrite (after_det _ _ _ Hs' Hs) in *. simpl.
      destruct (Rlt_dec 0 (current_altitude s)); [| done].
      exfalso. apply Hstop. by split.
    + pose proof (after_continues _ _ _ _ Hs Hs') as [Halt _].
      destruct (after_prefix _ _ (S n) Hs') as (s1 & H1); [lia |].
      pose proof H1 as H1'.
      apply after_pred in H1' as (s0 & H0 & _ & Hstep).
      rewrite <- (after_det _ _ _ Hs H0) in Hstep. simpl.
      destruct (Rlt_dec 0 (current_altitude s)); [| lra].
      rewrite Hstep.
      replace (n + S m)%nat with (S n + m)%nat in Hs' by lia.
      destruct (Rlt_dec 10000 (current_time s1)) as [Hbrk | Hgo].
      * destruct m as [| m].
        -- rewrite Nat.add_0_r in Hs'. by rewrite (after_det _ _ _ Hs' H1).
        -- pose proof (after_continues _ _ _ _ H1 Hs') as [_ ?]. lra.
      * apply (IH (S n) s1 m); try done; [lra | lia].
Qed.

Lemma after_run fuel N s r :
  after cfg N s -> ~ continues s -> (N <= fuel)%nat ->
  _compile_results cfg s = Ok r ->
  run fuel cfg = Some (Ok (s, r)).
Proof.
  intros Hs Hstop Hfuel Hr. unfold run.
  rewrite (after_run_loop fuel 0 (__init__ cfg) N s); try done.
  - by rewrite Hr.
  - constructor.
  - simpl. lra.
Qed.

End Loop.

(** * The deployment state machine *)

Section Deployment.

Context (cfg : Inputs).

Lemma crossedb_spec alt p : crossedb cfg alt p = true <-> crossed cfg alt p.
Proof.
  unfold crossedb, crossed. destruct (phase_params cfg !! p) as [pp |].
  - destruct (Rle_dec alt (deployment_altitude pp)); split; try done.
    + intros _. by exists pp.
    + intros (pp' & [= <-] & ?). done.
  - split; [done |]. by intros (pp & [=] & _).
Qed.

(** ** Which phases one check deploys *)

Lemma check_phase_deployed p s s' q :
  check_phase cfg p s = Ok s' ->
  q ∈ deployed_phases s' <->
  q ∈ deployed_phases s \/ (q = p /\ crossed cfg (current_altitude s) p).
Proof.
  intros H. apply check_phase_Ok in H
    as [[Hin ->] | [(pp & Hout & Hpp & Hgt & ->) | (pp & Hout & Hpp & Hle & H)]].
  - split; [by left |]. intros [? | [-> _]]; done.
  - split; [by left |]. intros [? | [-> (pp' & Hpp' & ?)]]; [done |].
    rewrite Hpp in Hpp'. injection Hpp' as <-. lra.
  - apply deploy_phase_Ok in H as (_ & _ & _ & _ & -> & _).
    rewrite elem_of_union, elem_of_singleton. split.
    + intros [-> | ?]; [right | by left]. split; [done |]. by exists pp.
    + intros [? | [-> _]]; [by right | by left].
Qed.

Lemma check_phases_deployed phases s s' q :
  check_phases cfg phases s = Ok s' ->
  q ∈ deployed_phases s' <->
  q ∈ deployed_phases s \/ (q ∈ phases /\ crossed cfg (current_altitude s) q).
Proof.
  revert s. induction phases as [| p rest IH]; intros s H; simpl in H.
  - injection H as <-. split; [by left |]. intros [? | [Hin _]]; [done |].
    by apply elem_of_nil in Hin.
  - inv_bind H. rewrite (IH _ H).
    pose proof (check_phase_same_motion _ _ _ _ Ha) as Hm.
    unfold same_motion in Hm. destruct_and!.
    rewrite (check_phase_deployed _ _ _ q Ha), elem_of_cons.
    replace (current_altitude a) with (current_altitude s) by done.
    split; [intros [[? | [-> ?]] | [? ?]] | intros [? | [[-> | ?] ?]]]; auto.
Qed.

(** A pending phase that the loop has passed without raising has
    parameters. *)
Lemma check_phases_params phases s s' q :
  check_phases cfg phases s = Ok s' -> q ∈ phases ->
  q ∈ deployed_phases s \/ is_Some (phase_params cfg !! q).
Proof.
  revert s. induction phases as [| p rest IH]; intros s H Hq; simpl in H.
  - by apply elem_of_nil in Hq.
  - inv_bind H. apply elem_of_cons in Hq as [-> | Hq].
    + apply check_phase_Ok in Ha
        as [[Hin ->] | [(pp & Hout & Hpp & Hgt & ->) | (pp & Hout & Hpp & Hle & Hd)]];
        [by left | right; by exists pp | right; by exists pp].
    + destruct (IH _ H Hq) as [Hin | ?]; [| by right].
      apply (check_phase_deployed _ _ _ q Ha) in Hin as [? | [-> (pp & ? & _)]];
        [by left | right; by exists pp].
Qed.

(** ** The bookkeeping invariant *)

Lemma well_tracked_init : well_tracked cfg (__init__ cfg).
Proof.
  unfold well_tracked, active_names. simpl. split; [constructor |].
  split; [| split].
  - intros q. split; intros H; [by apply elem_of_nil in H | set_solver].
  - set_solver.
  - intros info H. by apply elem_of_nil in H.
Qed.

Lemma deploy_phase_tracked p s s' :
  _deploy_phase cfg p s = Ok s' -> p ∉ deployed_phases s ->
  p ∈ selected_phases cfg -> well_tracked cfg s -> well_tracked cfg s'.
Proof.
  intros H Hout Hsel (Hnd & Hnames & Hsub & Hinfo).
  apply deploy_phase_Ok in H as (pp & Hpp & _ & Hact & Hdep & Htimes & Hinfl).
  unfold well_tracked, active_names. rewrite Hact, Hdep, Htimes, Hinfl.
  rewrite fmap_app. simpl. split; [| split; [| split]].
  - apply NoDup_app. split; [done |]. split; [| apply NoDup_singleton].
    intros q Hq Hq'. apply list_elem_of_singleton in Hq' as ->.
    by apply Hnames in Hq.
  - intros q. rewrite elem_of_app, list_elem_of_singleton, elem_of_union,
      elem_of_singleton. unfold active_names in Hnames. rewrite Hnames. tauto.
  - intros q. rewrite elem_of_union, elem_of_singleton.
    intros [-> | ?]; [done | by apply Hsub].
  - intros info. rewrite elem_of_app, list_elem_of_singleton.
    intros [Hin | ->].
    + destruct (Hinfo _ Hin) as (? & ? & ?).
      assert (phase info <> p).
      { intros <-. apply Hout, Hnames. unfold active_names.
        apply list_elem_of_fmap. by exists info. }
      rewrite !lookup_insert_ne by done. done.
    + simpl. by rewrite !lookup_insert_eq.
Qed.

Lemma check_phase_tracked p s s' :
  check_phase cfg p s = Ok s' -> p ∈ selected_phases cfg ->
  well_tracked cfg s -> well_tracked cfg s'.
Proof.
  intros H Hsel Hwt. apply check_phase_Ok in H
    as [[Hin ->] | [(pp & Hout & Hpp & Hgt & ->) | (pp & Hout & Hpp & Hle & H)]];
    try done.
  by eapply deploy_phase_tracked.
Qed.

Lemma check_phases_tracked phases s s' :
  check_phases cfg phases s = Ok s' -> phases ⊆ selected_phases cfg ->
  well_tracked cfg s -> well_tracked cfg s'.
Proof.
  revert s. induction phases as [| p rest IH]; intros s H Hsub Hwt; simpl in H.
  - by injection H as <-.
  - inv_bind H. apply (IH a); [done | set_solver |].
    eapply check_phase_tracked; [exact Ha | set_solver | done].
Qed.

Lemma same_phases_tracked s s' :
  same_phases s s' -> well_tracked cfg s -> well_tracked cfg s'.
Proof.
  intros (Ha & Hd & Ht & Hi). unfold well_tracked, active_names.
  by rewrite Ha, Hd, Ht, Hi.
Qed.

Lemma step_tracked s s' :
  step cfg s = Ok s' -> well_tracked cfg s -> well_tracked cfg s'.
Proof.
  intros H Hwt. apply step_phases in H as (s1 & H1 & Hsame).
  eapply same_phases_tracked; [exact Hsame |].
  eapply check_phases_tracked; [exact H1 | done | done].
Qed.

Lemma after_tracked n s : after cfg n s -> well_tracked cfg s.
Proof.
  induction 1 as [| n s1 s2 H1 IH Hc Hs]; [apply well_tracked_init |].
  by eapply step_tracked.
Qed.

End Deployment.

Section Series.

Context (cfg : Inputs).

(** ** One pass, seen from a phase *)

(** A pass deploys a pending selected phase exactly when the altitude at
    the start of the pass is at or below its deployment altitude, and
    keeps every deployed phase deployed. *)
Lemma step_deployed s s' q :
  step cfg s = Ok s' ->
  q ∈ deployed_phases s' <->
  q ∈ deployed_phases s
  \/ (q ∈ selected_phases cfg /\ crossed cfg (current_altitude s) q).
Proof.
  intros H. apply step_phases in H as (s1 & H1 & (_ & -> & _)).
  by apply check_phases_deployed.
Qed.

(** The deployment time and inflation time of a phase are written when
    it deploys and not touched afterwards. *)
Lemma check_phases_times phases s s' q :
  check_phases cfg phases s = Ok s' ->
  (q ∈ deployed_phases s ->
     phase_deployment_times s' !! q = phase_deployment_times s !! q
     /\ phase_inflation_times s' !! q = phase_inflation_times s !! q)
  /\ (q ∉ deployed_phases s -> q ∈ deployed_phases s' ->
      exists pp, phase_params cfg !! q = Some pp
        /\ phase_deployment_times s' !! q = Some (current_time s)
        /\ phase_inflation_times s' !! q =
             Some (calculate_inflation_time (inflation_index pp) (diameter pp)
                     (current_velocity s))).
Proof.
  revert s. induction phases as [| p rest IH]; intros s H; simpl in H.
  - injection H as <-. split; [done |]. intros H1 H2. done.
  - inv_bind H. destruct (IH _ H) as [IHkeep IHnew]. clear IH.
    pose proof (check_phase_same_motion _ _ _ _ Ha) as Hm.
    unfold same_motion in Hm. destruct_and!.
    apply check_phase_Ok in Ha
      as [[Hin ->] | [(pp & Hout & Hpp & Hgt & ->) | (pp & Hout & Hpp & Hle & Hd)]];
      [done | done |].
    apply deploy_phase_Ok in Hd as (pp' & Hpp' & _ & _ & Hdep & Htimes & Hinfl).
    rewrite Hpp in Hpp'. injection Hpp' as <-.
    assert (Hq : forall x, x ∈ deployed_phases a <-> x = p \/ x ∈ deployed_phases s).
    { intros x. rewrite Hdep, elem_of_union, elem_of_singleton. tauto. }
    split.
    + intros Hin. assert (q <> p) by (intros ->; done).
      destruct IHkeep as [-> ->]; [apply Hq; by right |].
      rewrite Htimes, Hinfl, !lookup_insert_ne by done. done.
    + intros Hnot Hin'. destruct (decide (q = p)) as [-> | Hne].
      * destruct IHkeep as [-> ->]; [apply Hq; by left |].
        rewrite Htimes, Hinfl, !lookup_insert_eq. by exists pp.
      * destruct IHnew as (pp' & ? & ? & ?); [rewrite Hq; tauto | done |].
        exists pp'. repeat split; congruence.
Qed.

Lemma step_times s s' q :
  step cfg s = Ok s' ->
  (q ∈ deployed_phases s ->
     phase_deployment_times s' !! q = phase_deployment_times s !! q
     /\ phase_inflation_times s' !! q = phase_inflation_times s !! q)
  /\ (q ∉ deployed_phases s -> q ∈ deployed_phases s' ->
      exists pp, phase_params cfg !! q = Some pp
        /\ phase_deployment_times s' !! q = Some (current_time s)
        /\ phase_inflation_times s' !! q =
             Some (calculate_inflation_time (inflation_index pp) (diameter pp)
                     (current_velocity s))).
Proof.
  intros H. apply step_phases in H as (s1 & H1 & (_ & -> & -> & ->)).
  exact (check_phases_times _ _ _ q H1).
Qed.

(** ** The per-phase drag series *)

Lemma init_series q :
  phase_drag_forces (__init__ cfg) !! q =
    if decide (q ∈ selected_phases cfg) then Some [] else None.
Proof.
  simpl. induction (selected_phases cfg) as [| p rest IH]; simpl.
  - rewrite lookup_empty. destruct (decide (q ∈ [])) as [H |]; [| done].
    by apply elem_of_nil in H.
  - destruct (decide (p = q)) as [-> | Hne].
    + rewrite lookup_insert_eq. rewrite decide_True; [done | by left].
    + rewrite lookup_insert_ne, IH by done.
      destruct (decide (q ∈ rest)) as [Hin | Hnot].
      * rewrite decide_True; [done | by right].
      * rewrite decide_False; [done |]. rewrite elem_of_cons. intros [-> | ?]; done.
Qed.

Lemma series_tracked_init : series_tracked cfg 0 (__init__ cfg).
Proof.
  intros q. rewrite init_series. split; intros H.
  - rewrite decide_True by done. exists []. by repeat split.
  - by rewrite decide_False.
Qed.

Lemma step_series n s s' :
  step cfg s = Ok s' -> well_tracked cfg s -> series_tracked cfg n s ->
  series_tracked cfg (S n) s'.
Proof.
  intros H Hwt Hser q.
  apply step_Ok in H as (s1 & s2 & s3 & H1 & H2 & H3 & ->).
  unfold _check_phase_deployments in H1.
  assert (Hsub : selected_phases cfg ⊆ selected_phases cfg) by done.
  pose proof (check_phases_tracked cfg _ _ _ H1 Hsub Hwt) as (_ & Hnames & _).
  pose proof (check_phases_same_motion cfg _ _ _ H1) as Hm.
  unfold same_motion in Hm. destruct Hm as (_ & _ & _ & _ & _ & Hpdf1 & _).
  pose proof (check_phases_deployed cfg _ _ _ q H1) as Hdep1.
  pose proof (calculate_forces_Ok cfg _ _ H2)
    as (d0 & total & _ & _ & _ & (_ & Hdep2 & _) & _).
  apply update_dynamics_Ok in H3
    as (m & _ & _ & _ & _ & _ & _ & (_ & Hdep3 & _) & _ & _ & _ & _ & _ & Hpdf3).
  unfold pending. simpl. rewrite Hpdf3, Hdep3, Hdep2.
  destruct (Hser q) as [Hsel Hnsel]. split.
  - intros Hq. destruct (Hsel Hq) as (xs & Hxs & Hlen & Hzero).
    rewrite <- Hpdf1 in Hxs.
    destruct (calculate_forces_series cfg s1 s2 q xs H2 Hq Hxs)
      as (new & Hnew & Hlnew & Hznew).
    exists (xs ++ new). split; [done |]. split.
    + rewrite length_app, Hlen, Hlnew. lia.
    + intros Hpend.
      rewrite Hzero at 1 by (intros Hin; apply Hpend, Hdep1; by left).
      rewrite Hznew at 1 by (intros Hin; by apply Hpend, Hnames).
      by rewrite <- replicate_add, length_app.
  - intros Hq. eapply calculate_forces_keys; [exact H2 |].
    rewrite Hpdf1. by apply Hnsel.
Qed.

Lemma after_series n s : after cfg n s -> series_tracked cfg n s.
Proof.
  induction 1 as [| n s1 s2 H1 IH Hc Hs]; [apply series_tracked_init |].
  eapply step_series; [exact Hs | by eapply after_tracked | done].
Qed.

(** A pass only adds entries at the end of the series of a selected
    phase. *)
Lemma step_series_prefix n s s' q :
  after cfg n s -> step cfg s = Ok s' -> q ∈ selected_phases cfg ->
  drag_series s q `prefix_of` drag_series s' q.
Proof.
  intros Hn H Hq.
  destruct (after_series _ _ Hn q) as [Hsel _].
  destruct (Hsel Hq) as (xs & Hxs & _).
  apply step_Ok in H as (s1 & s2 & s3 & H1 & H2 & H3 & ->).
  pose proof (check_phases_same_motion cfg _ _ _ H1) as Hm.
  unfold same_motion in Hm. destruct Hm as (_ & _ & _ & _ & _ & Hpdf1 & _).
  apply update_dynamics_Ok in H3
    as (m & _ & _ & _ & _ & _ & _ & _ & _ & _ & _ & _ & _ & Hpdf3).
  rewrite <- Hpdf1 in Hxs.
  destruct (calculate_forces_series cfg s1 s2 q xs H2 Hq Hxs) as (new & Hnew & _).
  unfold drag_series. simpl. rewrite Hpdf3, Hnew, <- Hpdf1, Hxs. simpl.
  by exists new.
Qed.

(** ** Properties that grow along the run *)

Lemma after_mono (P : Sim -> Sim -> Prop) :
  (forall s, P s s) ->
  (forall s0 n s s', P s0 s -> after cfg n s -> step cfg s = Ok s' -> P s0 s') ->
  forall k sk m sm, after cfg k sk -> after cfg m sm -> (k <= m)%nat -> P sk sm.
Proof.
  intros Hrefl Hstep k sk m sm Hk Hm. revert k sk Hk.
  induction Hm as [| m s1 s2 H1 IH Hc Hs]; intros k sk Hk Hle.
  - assert (k = 0%nat) as -> by lia. inversion Hk. apply Hrefl.
  - destruct (decide (k = S m)) as [-> | Hne].
    + assert (after cfg (S m) s2) as H2 by (by econstructor).
      rewrite (after_det _ _ _ _ Hk H2). apply Hrefl.
    + eapply Hstep; [| exact H1 | exact Hs]. apply (IH k); [done | lia].
Qed.

Lemma after_deployed_mono k sk m sm q :
  after cfg k sk -> after cfg m sm -> (k <= m)%nat ->
  q ∈ deployed_phases sk ->
  q ∈ deployed_phases sm
  /\ phase_deployment_times sm !! q = phase_deployment_times sk !! q
  /\ phase_inflation_times sm !! q = phase_inflation_times sk !! q.
Proof.
  intros Hk Hm Hle. revert k sk m sm Hk Hm Hle.
  apply (after_mono (fun s s' =>
    q ∈ deployed_phases s ->
    q ∈ deployed_phases s'
    /\ phase_deployment_times s' !! q = phase_deployment_times s !! q
    /\ phase_inflation_times s' !! q = phase_inflation_times s !! q)).
  - done.
  - intros s0 n s s' IH _ Hs Hq. destruct (IH Hq) as (Hin & <- & <-).
    split; [apply (step_deployed _ _ q Hs); by left |].
    by apply (step_times _ _ q Hs).
Qed.

Lemma after_series_prefix k sk m sm q :
  after cfg k sk -> after cfg m sm -> (k <= m)%nat ->
  q ∈ selected_phases cfg ->
  drag_series sk q `prefix_of` drag_series sm q.
Proof.
  intros Hk Hm Hle Hq. revert k sk m sm Hk Hm Hle.
  apply (after_mono (fun s s' => drag_series s q `prefix_of` drag_series s' q)).
  - done.
  - intros s0 n s s' IH Hn Hs. etrans; [exact IH |].
    by eapply step_series_prefix.
Qed.

(** An active phase deployed at or before the current time: with a time
    step that is not negative, the time since deployment that
    [_calculate_forces] computes is never negative. *)
Lemma check_phases_deploy_times phases s s1 :
  check_phases cfg phases s = Ok s1 ->
  forall info, info ∈ active_phases s1 ->
    info ∈ active_phases s \/ deployment_time info = current_time s.
Proof.
  intros H.
  enough (same_motion s s1 /\ forall info, info ∈ active_phases s1 ->
            info ∈ active_phases s \/ deployment_time info = current_time s)
    as [_ ?]; [done |].
  revert s s1 H. apply check_phases_ind.
  - intros s. split; [apply same_motion_refl | by left].
  - intros s0 s q s' [Hm IH] H.
    pose proof (check_phase_same_motion _ _ _ _ H) as Hm'.
    split; [by eapply same_motion_trans |]. intros info Hin.
    apply check_phase_Ok in H
      as [[_ ->] | [(pp & _ & _ & _ & ->) | (pp & _ & _ & _ & H)]];
      [by apply IH | by apply IH |].
    apply deploy_phase_Ok in H as (pp' & _ & _ & Hact & _).
    rewrite Hact, elem_of_app, list_elem_of_singleton in Hin.
    destruct Hin as [Hin | ->]; [by apply IH |].
    right. simpl. unfold same_motion in Hm. by destruct_and!.
Qed.

Lemma after_deploy_times n s info :
  0 <= dt cfg -> after cfg n s -> info ∈ active_phases s ->
  deployment_time info <= current_time s.
Proof.
  intros Hdt Hn. revert info. induction Hn as [| n s s' Hn IH Hc Hs]; intros info Hin.
  - by apply elem_of_nil in Hin.
  - pose proof (step_motion _ _ _ Hs) as (_ & _ & _ & Ht & _).
    apply step_phases in Hs as (s1 & H1 & (Hact & _)).
    rewrite Hact in Hin.
    destruct (check_phases_deploy_times _ _ _ H1 info Hin) as [Hold | ->].
    + specialize (IH info Hold). lra.
    + lra.
Qed.

End Series.

(** * Single deployment *)

Section SingleDeployment.

Context (cfg : Inputs).

Lemma after_next n s m sm :
  after cfg n s -> after cfg m sm -> (n < m)%nat ->
  exists s', continues s /\ step cfg s = Ok s' /\ after cfg (S n) s'.
Proof.
  intros Hn Hm Hlt.
  destruct (after_prefix _ _ _ (S n) Hm) as (s' & Hs'); [lia |].
  pose proof Hs' as Hs''.
  apply after_pred in Hs'' as (s0 & H0 & Hc & Hstep).
  rewrite (after_det _ _ _ _ Hn H0). by exists s'.
Qed.

(** A pending phase has never seen its threshold crossed. *)
Lemma pending_not_crossed p k sk j sj :
  p ∈ selected_phases cfg -> after cfg k sk -> pending sk p ->
  (j < k)%nat -> after cfg j sj -> ~ crossed cfg (current_altitude sj) p.
Proof.
  intros Hsel Hk Hpend Hlt Hj Hcross.
  destruct (after_next _ _ _ _ Hj Hk Hlt) as (s' & _ & Hstep & Hs').
  apply Hpend.
  eapply (after_deployed_mono cfg (S j) s' k sk p); [done | done | lia |].
  apply (step_deployed _ _ _ p Hstep). right. by split.
Qed.

(** The series of a pending phase holds zeros only. *)
Lemma pending_series_zero p n s i x :
  p ∈ selected_phases cfg -> after cfg n s -> pending s p ->
  drag_series s p !! i = Some x -> x = 0.
Proof.
  intros Hsel Hn Hpend Hx.
  destruct (after_series _ _ _ Hn p) as [Hser _].
  destruct (Hser Hsel) as (xs & Hxs & _ & Hzero).
  unfold drag_series in Hx. rewrite Hxs in Hx. simpl in Hx.
  rewrite (Hzero Hpend) in Hx. by apply lookup_replicate in Hx as [-> _].
Qed.

Lemma after_series_length p n s :
  p ∈ selected_phases cfg -> after cfg n s ->
  length (drag_series s p) = (n * occurrences p (selected_phases cfg))%nat.
Proof.
  intros Hsel Hn.
  destruct (after_series _ _ _ Hn p) as [Hser _].
  destruct (Hser Hsel) as (xs & Hxs & Hlen & _).
  unfold drag_series. by rewrite Hxs.
Qed.

(** The entries written before a phase deploys are zeros, and stay so. *)
Lemma drag_zero_before_deployment p k sk m sm i x :
  p ∈ selected_phases cfg -> after cfg k sk -> pending sk p ->
  after cfg m sm -> drag_series sm p !! i = Some x ->
  (i < k * occurrences p (selected_phases cfg))%nat -> x = 0.
Proof.
  intros Hsel Hk Hpend Hm Hx Hi.
  destruct (le_lt_dec k m) as [Hle | Hlt].
  - pose proof (after_series_prefix cfg _ _ _ _ p Hk Hm Hle Hsel) as Hpre.
    rewrite <- (prefix_lookup_lt (drag_series sk p) (drag_series sm p) i) in Hx;
      [| by rewrite (after_series_length p k sk) | exact Hpre].
    by eapply (pending_series_zero p k sk).
  - eapply (pending_series_zero p m sm); try done.
    intros Hdep. apply Hpend.
    eapply (after_deployed_mono cfg m sm k sk p); [done | done | lia | done].
Qed.

End SingleDeployment.

(** C2. Every selected phase deploys at most once; a pending phase deploys
    in a pass exactly when the altitude at the start of that pass is at or
    below its deployment altitude, which has not happened in any earlier
    pass; a deployed phase stays deployed, with the deployment time it got;
    and the entries of its drag series written by the passes before its
    deployment are exactly 0 (pass [j] writes the entries from index
    [j * c] on, where [c] is the number of occurrences of the phase in
    [selected_phases], 1 when that list has no duplicates). *)
Theorem single_deployment (cfg : Inputs) (p : string) (pp : PhaseParams)
    (k : nat) (sk : Sim) :
  p ∈ selected_phases cfg -> phase_params cfg !! p = Some pp -> after cfg k sk ->
  (NoDup (active_names sk) /\ (p ∈ active_names sk <-> deployed sk p))
  /\ (pending sk p -> forall s', step cfg sk = Ok s' ->
        (deployed s' p <-> current_altitude sk <= deployment_altitude pp)
        /\ (deployed s' p -> phase_deployment_times s' !! p = Some (current_time sk)))
  /\ (pending sk p -> forall j sj, (j < k)%nat -> after cfg j sj ->
        deployment_altitude pp < current_altitude sj)
  /\ (deployed sk p -> forall m sm, (k <= m)%nat -> after cfg m sm ->
        deployed sm p
        /\ phase_deployment_times sm !! p = phase_deployment_times sk !! p)
  /\ (pending sk p -> forall m sm i x, after cfg m sm ->
        drag_series sm p !! i = Some x ->
        (i < k * occurrences p (selected_phases cfg))%nat -> x = 0)
  /\ length (drag_series sk p) = (k * occurrences p (selected_phases cfg))%nat
  /\ (NoDup (selected_phases cfg) -> occurrences p (selected_phases cfg) = 1%nat).
Proof.
  intros Hsel Hpp Hk.
  pose proof (after_tracked _ _ _ Hk) as (Hnd & Hnames & _).
  split; [split; [done | apply Hnames] |].
  split.
  { intros Hpend s' Hstep.
    pose proof (step_deployed _ _ _ p Hstep) as Hdep.
    pose proof (step_times _ _ _ p Hstep) as [_ Hnew].
    unfold deployed. split.
    - rewrite Hdep. split.
      + intros [Hin | [_ (pp' & Hpp' & Hle)]]; [done |].
        rewrite Hpp in Hpp'. by injection Hpp' as <-.
      + intros Hle. right. split; [done |]. by exists pp.
    - intros Hin. by destruct (Hnew Hpend Hin) as (_ & _ & -> & _). }
  split.
  { intros Hpend j sj Hlt Hj. apply Rnot_le_lt. intros Hle.
    apply (pending_not_crossed cfg p k sk j sj); try done. by exists pp. }
  split.
  { intros Hdep m sm Hle Hm.
    by destruct (after_deployed_mono cfg k sk m sm p Hk Hm Hle Hdep) as (? & ? & _). }
  split.
  { intros Hpend m sm i x Hm Hx Hi.
    by eapply (drag_zero_before_deployment cfg p k sk m sm). }
  split; [by apply after_series_length |].
  intros Hnodup. by apply occurrences_NoDup.
Qed.

(** * The mass used by a pass *)

Section CurrentMass.

Context (cfg : Inputs).

Lemma check_phases_append phases s s' :
  check_phases cfg phases s = Ok s' ->
  exists extra, active_phases s' = active_phases s ++ extra.
Proof.
  revert s s'. apply check_phases_ind.
  - intros s. exists []. by rewrite app_nil_r.
  - intros s0 s p s' (extra & Hex) H.
    apply check_phase_Ok in H
      as [[_ ->] | [(pp & _ & _ & _ & ->) | (pp & _ & _ & _ & H)]];
      [by exists extra | by exists extra |].
    apply deploy_phase_Ok in H as (pp' & _ & _ & -> & _).
    rewrite Hex, <- app_assoc. by eexists.
Qed.

(** With nothing deployed, the check puts at the head of
    [active_phases] the first selected phase whose threshold is
    reached. *)
Lemma check_phases_first phases s s' :
  check_phases cfg phases s = Ok s' ->
  active_phases s = [] -> (forall q, q ∈ phases -> q ∉ deployed_phases s) ->
  match List.find (crossedb cfg (current_altitude s)) phases with
  | Some p => exists info rest,
      active_phases s' = info :: rest /\ phase info = p
      /\ phase_params cfg !! p = Some (params info)
  | None => active_phases s' = []
  end.
Proof.
  revert s. induction phases as [| p rest IH]; intros s H Hact Hpend; simpl in H.
  - injection H as <-. done.
  - inv_bind H. simpl.
    apply check_phase_Ok in Ha
      as [[Hin _] | [(pp & _ & Hpp & Hgt & ->) | (pp & _ & Hpp & Hle & Hd)]].
    + exfalso. apply (Hpend p); [by left | done].
    + assert (crossedb cfg (current_altitude s) p = false) as ->.
      { unfold crossedb. rewrite Hpp. destruct (Rle_dec _ _); [lra | done]. }
      apply IH; [done | done |]. intros q Hq. apply Hpend. by right.
    + assert (crossedb cfg (current_altitude s) p = true) as ->.
      { apply crossedb_spec. by exists pp. }
      apply deploy_phase_Ok in Hd as (pp' & Hpp' & _ & Hact' & _).
      rewrite Hpp in Hpp'. injection Hpp' as <-.
      destruct (check_phases_append _ _ _ H) as (extra & ->).
      rewrite Hact', Hact. simpl. by eexists _, _.
Qed.

Lemma head_known_same n s s' :
  active_phases s' = active_phases s -> head_known cfg n s -> head_known cfg n s'.
Proof. unfold head_known. by intros ->. Qed.

Lemma check_head_known n s s1 :
  after cfg n s -> head_known cfg n s ->
  _check_phase_deployments cfg s = Ok s1 -> head_known cfg (S n) s1.
Proof.
  intros Hn [[Hact Hnone] | (k & sk & p & info & rest & Hk & Hsk & Hfind & Hbefore & Hact & Hp)] H1.
  - pose proof (after_tracked _ _ _ Hn) as (_ & Hnames & _).
    assert (Hpend : forall q, q ∈ selected_phases cfg -> q ∉ deployed_phases s).
    { intros q _ Hq. apply Hnames in Hq. unfold active_names in Hq.
      rewrite Hact in Hq. by apply elem_of_nil in Hq. }
    pose proof (check_phases_first _ _ _ H1 Hact Hpend) as Hfirst.
    fold (first_crossing cfg s) in Hfirst.
    destruct (first_crossing cfg s) as [p |] eqn:Hfind.
    + right. destruct Hfirst as (info & rest & ? & ? & ?).
      exists n, s, p, info, rest. split_and!; try done. lia.
    + left. split; [done |]. intros j sj Hj Hsj.
      destruct (decide (j = n)) as [-> | Hne].
      * by rewrite (after_det _ _ _ _ Hsj Hn).
      * apply (Hnone j); [lia | done].
  - right. destruct (check_phases_append _ _ _ H1) as (extra & Hex).
    exists k, sk, p, info, (rest ++ extra).
    split_and!; [lia | done | done | done | by rewrite Hex, Hact | by destruct Hp | by destruct Hp].
Qed.

Lemma after_head_known n s : after cfg n s -> head_known cfg n s.
Proof.
  induction 1 as [| n s1 s2 H1 IH Hc Hs].
  - left. split; [done |]. intros; lia.
  - apply step_phases in Hs as (s' & Hcheck & (Hact & _)).
    eapply head_known_same; [exact Hact |].
    by eapply check_head_known.
Qed.

Lemma mass_used_Ok s m :
  mass_used cfg s = Ok m ->
  exists s1 s2, _check_phase_deployments cfg s = Ok s1
                /\ _calculate_forces cfg s1 = Ok s2
                /\ active_phases s2 = active_phases s1
                /\ _get_current_mass cfg s2 = Ok m.
Proof.
  unfold mass_used. intros H. inv_bind H. inv_bind H.
  exists a, a0. repeat split; try done.
  by apply calculate_forces_Ok in Ha0 as (_ & _ & _ & _ & _ & (? & _) & _).
Qed.

End CurrentMass.

(** C5 (amended: the order is the order of deployment, not the configured
    order).  The mass a pass uses is the payload mass of the head of
    [active_phases]: the phase that deployed first, that is, the first
    one in configured order among the phases whose threshold was reached
    at the earliest pass at which any threshold was reached; when no
    threshold has been reached up to and including this pass, it is the
    payload mass of the first configured phase.  That mass is the divisor
    of the drag in the velocity update: it is what [_get_current_mass]
    returns in the state that [_calculate_forces] hands to
    [_update_dynamics], and the velocity after the pass is computed from
    the quotient of the total drag of the pass by it. *)
Theorem current_mass_first_deployed (cfg : Inputs) (n : nat) (s : Sim) (m : R) :
  after cfg n s -> mass_used cfg s = Ok m ->
  (forall k sk p pp,
      (k <= n)%nat -> after cfg k sk -> first_crossing cfg sk = Some p ->
      (forall j sj, (j < k)%nat -> after cfg j sj -> first_crossing cfg sj = None) ->
      phase_params cfg !! p = Some pp -> m = payload_mass pp)
  /\ ((forall j sj, (j <= n)%nat -> after cfg j sj -> first_crossing cfg sj = None) ->
      forall p0 pp0, head (selected_phases cfg) = Some p0 ->
        phase_params cfg !! p0 = Some pp0 -> m = payload_mass pp0)
  /\ (forall s', step cfg s = Ok s' ->
        exists s1 s2 s3,
          _check_phase_deployments cfg s = Ok s1
          /\ _calculate_forces cfg s1 = Ok s2
          /\ _get_current_mass cfg s2 = Ok m
          /\ py_div (List.last (total_drag_force s2) 0) m
             = Ok (List.last (total_drag_force s2) 0 / m)
          /\ _update_dynamics cfg s2 = Ok s3
          /\ s' = advance_time cfg (_store_data s3)
          /\ List.last (total_drag_force s') 0 = List.last (total_drag_force s2) 0
          /\ current_velocity s' =
               Rmax 0 (current_velocity s
                       + (g * cos (descent_angle_rad cfg)
                          - List.last (total_drag_force s') 0 / m) * dt cfg)).
Proof.
  intros Hn Hm.
  apply mass_used_Ok in Hm as (s1 & s2 & H1 & H2 & Hact & Hmass).
  pose proof (check_head_known cfg n s s1 Hn (after_head_known cfg n s Hn) H1) as Hhead.
  unfold _get_current_mass in Hmass. rewrite Hact in Hmass.
  split; [| split].
  - intros k sk p pp Hk Hsk Hfind Hbefore Hpp.
    destruct Hhead as [[_ Hnone] | (k' & sk' & p' & info & rest & Hk' & Hsk' & Hfind' & Hbefore' & Hact' & Hp' & Hpp')].
    + rewrite (Hnone k sk) in Hfind; [done | lia | done].
    + (* both passes are the first at which a threshold is reached *)
      assert (k = k') as <-.
      { destruct (lt_eq_lt_dec k k') as [[Hlt | ->] | Hgt]; [| done |].
        - rewrite (Hbefore' k sk Hlt Hsk) in Hfind. done.
        - rewrite (Hbefore k' sk' Hgt Hsk') in Hfind'. done. }
      rewrite (after_det _ _ _ _ Hsk' Hsk) in Hfind'.
      rewrite Hfind in Hfind'. injection Hfind' as <-.
      rewrite Hact' in Hmass. injection Hmass as <-.
      rewrite Hpp in Hpp'. by injection Hpp' as ->.
  - intros Hnone p0 pp0 Hp0 Hpp0.
    destruct Hhead as [[Hnil _] | (k' & sk' & p' & info & rest & Hk' & Hsk' & Hfind' & _)].
    + rewrite Hnil in Hmass. destruct (selected_phases cfg) as [| p rest]; [done |].
      injection Hp0 as ->. simpl in Hmass.
      inv_bind Hmass. apply getitem_Ok in Ha. rewrite Hpp0 in Ha.
      injection Ha as <-. by injection Hmass as <-.
    + rewrite (Hnone k' sk') in Hfind'; [done | lia | done].
  - intros s' Hstep.
    apply step_Ok in Hstep as (s1' & s2' & s3 & H1' & H2' & H3 & ->).
    rewrite H1 in H1'. injection H1' as <-.
    rewrite H2 in H2'. injection H2' as <-.
    pose proof (update_dynamics_Ok _ _ _ H3)
      as (mass & Hmass' & Hnz & Hv & _ & _ & _ & _ & _ & _ & _ & _ & Htdf & _).
    unfold _get_current_mass in Hmass'. rewrite Hact, Hmass in Hmass'.
    injection Hmass' as <-.
    pose proof (check_phases_same_motion _ _ _ _ H1) as Hm.
    unfold same_motion in Hm. destruct Hm as (_ & _ & _ & _ & _ & _ & _ & _ & Hv1 & _).
    pose proof (calculate_forces_Ok _ _ _ H2)
      as (d0 & total & _ & _ & _ & _ & _ & _ & _ & _ & _ & _ & Hv2 & _).
    exists s1, s2, s3. split; [done |]. split; [done |]. split.
    { unfold _get_current_mass. by rewrite Hact. }
    split; [by apply py_div_nonzero |]. split; [done |]. split; [done |].
    simpl. rewrite Htdf. split; [done |]. rewrite Hv. by rewrite Hv2, Hv1.
Qed.

(** * The stored series and the summary *)

Section Results.

Context (cfg : Inputs).

Lemma compile_phases_total s phases :
  (forall p, p ∈ phases -> is_Some (phase_drag_forces s !! p)) ->
  exists rows, compile_phases s phases = Ok rows.
Proof.
  induction phases as [| p rest IH]; intros Hkeys; simpl; [by eexists |].
  destruct (Hkeys p) as [xs Hxs]; [by left |].
  destruct IH as [rows Hrows]; [intros q Hq; apply Hkeys; by right |].
  unfold getitem. rewrite Hxs. simpl. rewrite Hrows. simpl. by eexists.
Qed.

Lemma compile_results_Ok s r :
  _compile_results cfg s = Ok r ->
  max_total_drag_force r = max_or_zero (total_drag_force s)
  /\ landing_velocity r = last_or_zero (velocity s)
  /\ total_flight_time r = last_or_zero (time s)
  /\ total_horizontal_range r = last_or_zero (horizontal_position s)
  /\ final_altitude r = last_or_zero (altitude s).
Proof.
  unfold _compile_results. intros H. inv_bind H. by injection H as <-.
Qed.

(** The summary of a state of the run can always be compiled. *)
Lemma after_compile n s :
  after cfg n s -> exists r, _compile_results cfg s = Ok r.
Proof.
  intros Hn. destruct (compile_phases_total s (selected_phases cfg)) as [rows Hrows].
  - intros p Hp. destruct (after_series _ _ _ Hn p) as [Hsel _].
    destruct (Hsel Hp) as (xs & -> & _). by eexists.
  - unfold _compile_results. rewrite Hrows. simpl. by eexists.
Qed.

(** A state at which the loop stops is the result of [run]. *)
Lemma after_run_total fuel N s :
  after cfg N s -> ~ continues s -> (N <= fuel)%nat ->
  exists r, run fuel cfg = Some (Ok (s, r)).
Proof.
  intros Hn Hstop Hfuel. destruct (after_compile _ _ Hn) as [r Hr].
  exists r. by eapply after_run.
Qed.

(** The last stored altitude is the current altitude, floored at 0. *)
Lemma after_last_altitude n s :
  after cfg (S n) s -> last_or_zero (altitude s) = Rmax 0 (current_altitude s).
Proof.
  intros H. apply after_pred in H as (s0 & _ & _ & Hstep).
  apply step_motion in Hstep as (_ & _ & _ & _ & _ & -> & _).
  unfold last_or_zero. apply last_last.
Qed.

Lemma after_last_time n s :
  after cfg (S n) s -> last_or_zero (time s) = INR n * dt cfg.
Proof.
  intros H. apply after_pred in H as (s0 & H0 & _ & Hstep).
  apply step_motion in Hstep as (_ & _ & _ & _ & -> & _).
  unfold last_or_zero. rewrite last_last.
  by apply after_clock in H0 as (-> & _).
Qed.

Lemma after_altitude_sorted n s i a b :
  0 <= dt cfg -> after cfg n s ->
  altitude s !! i = Some a -> altitude s !! S i = Some b -> b <= a.
Proof.
  intros Hdt Hn Ha Hb.
  pose proof (after_clock _ _ _ Hn) as (_ & _ & Hlen & _).
  assert (Hi : (S i < n)%nat) by (apply lookup_lt_Some in Hb; lia).
  destruct (after_snapshot _ _ _ i Hn) as (si & Hsi & _ & Ha' & _); [lia |].
  destruct (after_snapshot _ _ _ (S i) Hn) as (si' & Hsi' & _ & Hb' & _); [lia |].
  rewrite Ha in Ha'. injection Ha' as ->.
  rewrite Hb in Hb'. injection Hb' as ->.
  apply after_pred in Hsi' as (s0 & H0 & _ & Hstep).
  rewrite (after_det _ _ _ _ H0 Hsi) in Hstep.
  apply step_motion in Hstep as (Hv & Halt & _).
  apply Rle_max_compat_l. rewrite Halt. nra.
Qed.

Lemma after_velocity_clamped n s i v :
  after cfg n s -> velocity s !! i = Some v -> 0 <= v.
Proof.
  intros Hn Hv.
  pose proof (after_clock _ _ _ Hn) as (_ & _ & _ & Hlen & _).
  assert (Hi : (i < n)%nat) by (apply lookup_lt_Some in Hv; lia).
  destruct (after_snapshot _ _ _ i Hn Hi) as (si & Hsi & _ & _ & Hv' & _).
  rewrite Hv in Hv'. injection Hv' as ->.
  apply after_pred in Hsi as (s0 & _ & _ & Hstep).
  by apply step_motion in Hstep as (? & _).
Qed.

End Results.

(** C6. For [dt > 0] the stored altitude series never increases from one
    index to the next, in every state of the run and so in the state
    [run] ends with; every stored velocity, the one used in the altitude
    update of its pass, is non-negative. *)
Theorem altitude_series_non_increasing (cfg : Inputs) :
  0 < dt cfg ->
  (forall n s, after cfg n s ->
     (forall i a b, altitude s !! i = Some a -> altitude s !! S i = Some b -> b <= a)
     /\ (forall i v, velocity s !! i = Some v -> 0 <= v))
  /\ (forall fuel s r, run fuel cfg = Some (Ok (s, r)) ->
        forall i a b, altitude s !! i = Some a -> altitude s !! S i = Some b -> b <= a).
Proof.
  intros Hdt. split.
  - intros n s Hn. split.
    + intros i a b. apply (after_altitude_sorted cfg n); [lra | done].
    + intros i v. by apply (after_velocity_clamped cfg n).
  - intros fuel s r Hrun i a b.
    apply run_after in Hrun as (_ & N & HN & _).
    apply (after_altitude_sorted cfg N); [lra | done].
Qed.

(** C3 (amended: there is no outcome of its own for a run that did not
    land, only a telltale value).  A run that returns, returns a summary,
    and it ended either on the ground or at the time ceiling with the
    altitude still positive.  In the second case the [final_altitude] of
    the summary is that positive altitude; in the first it is 0.  So the
    summary of a run that hit the ceiling is never equal to the summary of
    a run that landed. *)
Theorem ceiling_run_distinguishable (cfg : Inputs) (fuel : nat) (s : Sim) (r : Results) :
  run fuel cfg = Some (Ok (s, r)) ->
  kind_of (run fuel cfg) = Summary
  /\ (landed s \/ hit_ceiling s)
  /\ (hit_ceiling s -> final_altitude r = current_altitude s /\ 0 < final_altitude r)
  /\ (landed s -> final_altitude r = 0)
  /\ (hit_ceiling s ->
      forall cfg' fuel' s' r',
        run fuel' cfg' = Some (Ok (s', r')) -> landed s' -> r <> r').
Proof.
  assert (Hfinal : forall cfg fuel s r, run fuel cfg = Some (Ok (s, r)) ->
            (hit_ceiling s -> final_altitude r = current_altitude s /\ 0 < final_altitude r)
            /\ (landed s -> final_altitude r = 0)).
  { clear. intros cfg fuel s r Hrun.
    apply run_after in Hrun as (Hr & N & HN & _).
    apply compile_results_Ok in Hr as (_ & _ & _ & _ & ->).
    destruct N as [| N].
    - inversion HN. subst. simpl. unfold hit_ceiling, landed. simpl.
      split; [lra | done].
    - rewrite (after_last_altitude cfg N s HN). unfold hit_ceiling, landed. split.
      + intros [Halt _]. rewrite Rmax_right by lra. done.
      + intros Halt. by rewrite Rmax_left. }
  intros Hrun. pose proof (Hfinal _ _ _ _ Hrun) as [Hceil Hland].
  split; [by rewrite Hrun |].
  split; [| split; [done | split; [done |]]].
  - apply run_after in Hrun as (_ & N & _ & Hstop). by apply not_continues.
  - intros Hc cfg' fuel' s' r' Hrun' Hland' Heq.
    destruct (Hceil Hc) as [_ Hpos].
    pose proof (Hfinal _ _ _ _ Hrun') as [_ Hzero].
    rewrite Heq, (Hzero Hland') in Hpos. lra.
Qed.

(** C4 (amended: the reported landing velocity is the default 0, not the
    initial velocity).  When the initial altitude is 0 the loop body is
    never executed: [run] returns with any fuel, all series are empty, and
    the summary reports landing velocity 0 and total flight time 0. *)
Theorem degenerate_run (cfg : Inputs) (fuel : nat) :
  initial_altitude (global_params cfg) = 0 ->
  exists s r,
    run fuel cfg = Some (Ok (s, r))
    /\ time s = [] /\ altitude s = [] /\ velocity s = []
    /\ total_drag_force s = [] /\ horizontal_position s = []
    /\ landing_velocity r = 0
    /\ total_flight_time r = 0.
Proof.
  intros Halt.
  assert (Hstop : ~ continues (__init__ cfg)).
  { unfold continues. simpl. lra. }
  destruct (after_run_total cfg fuel 0 (__init__ cfg)) as [r Hr];
    [constructor | done | lia |].
  exists (__init__ cfg), r. split; [done |].
  apply run_after in Hr as (Hr & _).
  apply compile_results_Ok in Hr as (_ & -> & -> & _). by simpl.
Qed.

(** C10 (amended: the stored altitude is the post-update altitude floored
    at 0, and the flight-time formula is for at least one pass).  In the
    state [run] ends with after [N] passes: snapshot [i] holds the clock
    [i * dt] of the state before pass [i], and the altitude (floored at
    0), velocity and horizontal position of the state after it, whose
    clock is [(i + 1) * dt]; the clock ends at [N * dt]; the reported total
    flight time is [(N - 1) * dt] when [N >= 1] and 0 when [N = 0]. *)
Theorem snapshot_time_lags_state (cfg : Inputs) (fuel : nat) (s : Sim) (r : Results) :
  run fuel cfg = Some (Ok (s, r)) ->
  exists N,
    after cfg N s
    /\ current_time s = INR N * dt cfg
    /\ length (time s) = N
    /\ (forall i, (i < N)%nat ->
          exists before_i after_i,
            after cfg i before_i /\ step cfg before_i = Ok after_i
            /\ current_time before_i = INR i * dt cfg
            /\ current_time after_i = INR (S i) * dt cfg
            /\ time s !! i = Some (current_time before_i)
            /\ altitude s !! i = Some (Rmax 0 (current_altitude after_i))
            /\ velocity s !! i = Some (current_velocity after_i)
            /\ horizontal_position s !! i = Some (current_horizontal_pos after_i))
    /\ ((1 <= N)%nat -> total_flight_time r = (INR N - 1) * dt cfg)
    /\ (N = 0%nat -> total_flight_time r = 0).
Proof.
  intros Hrun. apply run_after in Hrun as (Hr & N & HN & _).
  apply compile_results_Ok in Hr as (_ & _ & Hft & _).
  exists N. pose proof (after_clock _ _ _ HN) as (Hclk & Hlen & _).
  split; [done |]. split; [done |]. split; [done |]. split; [| split].
  - intros i Hi.
    destruct (after_snapshot _ _ _ i HN Hi) as (si' & Hsi' & Ht & Ha & Hv & Hh).
    pose proof Hsi' as Hpred.
    apply after_pred in Hpred as (si & Hsi & _ & Hstep).
    exists si, si'.
    pose proof (after_clock _ _ _ Hsi) as (Hci & _).
    pose proof (after_clock _ _ _ Hsi') as (Hci' & _).
    rewrite Hci. by split_and!.
  - intros Hpos. destruct N as [| N]; [lia |].
    rewrite Hft, (after_last_time cfg N s HN), S_INR. f_equal. lra.
  - intros ->. inversion HN. subst. by rewrite Hft.
Qed.

(** * A phase that deploys without airspeed *)

Section ReefingIrrelevant.

Context (cfg : Inputs) (p : string) (rf' : R).

Local Abbreviation cfg' := (set_reefing p rf' cfg).

Lemma result_match_bind {A B C D : Type}
    (Rel : A -> B -> Prop) (Rel' : C -> D -> Prop)
    (m : result A) (m' : result B) (k : A -> result C) (k' : B -> result D) :
  result_match Rel m m' ->
  (forall a b, Rel a b -> result_match Rel' (k a) (k' b)) ->
  result_match Rel' (m ≫= k) (m' ≫= k').
Proof. destruct m, m'; simpl; try done. intros H Hk. by apply Hk. Qed.

Lemma result_match_eq {A : Type} (x : result A) : result_match eq x x.
Proof. by destruct x. Qed.

(** With inflation time 0 the reefing factor is never read. *)
Lemma drag_force_no_inflation altitude velocity diameter cd rf1 rf2 t :
  calculate_drag_force altitude velocity diameter cd rf1 t 0
  = calculate_drag_force altitude velocity diameter cd rf2 t 0.
Proof.
  unfold calculate_drag_force.
  destruct (Rle_dec velocity 0); [done |].
  destruct (Rlt_dec t 0); [| done].
  unfold py_div. destruct (Req_dec_T 0 0); [done | lra].
Qed.

Lemma params_changed q :
  phase_params cfg' !! q =
    if decide (q = p) then with_reefing rf' <$> phase_params cfg !! q
    else phase_params cfg !! q.
Proof.
  simpl. destruct (decide (q = p)) as [-> | Hne].
  - by rewrite lookup_alter_eq.
  - by rewrite lookup_alter_ne.
Qed.

Lemma getitem_params_match q :
  result_match
    (fun pp pp' => phase_params cfg !! q = Some pp
                   /\ (exists rf, pp' = with_reefing rf pp) /\ (q <> p -> pp' = pp))
    (getitem (phase_params cfg) q) (getitem (phase_params cfg') q).
Proof.
  unfold getitem. rewrite params_changed.
  destruct (decide (q = p)) as [-> | Hne].
  - destruct (phase_params cfg !! p) as [pp |] eqn:Hpp; simpl; [| done].
    split_and!; [done | by exists rf' | done].
  - destruct (phase_params cfg !! q) as [pp |] eqn:Hpp; simpl; [| done].
    split_and!; [done | | done]. exists (reefing_factor pp). by destruct pp.
Qed.

Lemma crossed_changed alt q : crossed cfg' alt q <-> crossed cfg alt q.
Proof.
  unfold crossed. rewrite params_changed.
  destruct (decide (q = p)) as [-> | Hne]; [| done].
  destruct (phase_params cfg !! p) as [pp |]; simpl.
  - split; intros (pp' & [= <-] & H); eexists; (split; [done |]); exact H.
  - split; by intros (pp' & [=] & _).
Qed.

(** ** The deployment check *)

Lemma safe_same s s1 :
  same_motion s s1 -> deployed_phases s ⊆ deployed_phases s1 ->
  safe cfg p s -> safe cfg p s1.
Proof.
  intros Hm Hsub. unfold safe, same_motion in *. destruct_and!.
  replace (current_velocity s1) with (current_velocity s) by done.
  replace (current_altitude s1) with (current_altitude s) by done.
  intros [? | [? | ?]]; [by left | right; by left | right; right; set_solver].
Qed.

Lemma check_phase_match q s s' :
  sim_match p s s' -> (q = p -> safe cfg p s) ->
  result_match (sim_match p) (check_phase cfg q s) (check_phase cfg' q s').
Proof.
  intros (Hm & Hdep & Htimes & Hinfl & Hact) Hsafe.
  unfold check_phase. rewrite Hdep.
  destruct (decide (q ∈ deployed_phases s)) as [Hin | Hout]; [by split_and! |].
  eapply result_match_bind; [apply getitem_params_match |].
  intros pp pp' (Hpp & [rf ->] & Hsame). simpl.
  unfold same_motion in Hm. destruct_and!.
  replace (current_altitude s') with (current_altitude s) by done.
  destruct (Rle_dec (current_altitude s) (deployment_altitude pp)) as [Hle | Hgt];
    [| by split_and!].
  unfold _deploy_phase.
  eapply result_match_bind; [apply getitem_params_match |].
  intros pp2 pp2' (Hpp2 & [rf2 ->] & Hsame2). simpl.
  replace (current_velocity s') with (current_velocity s) by done.
  replace (current_time s') with (current_time s) by done.
  unfold sim_match, same_motion. simpl. split_and!; try congruence.
  apply Forall2_app; [done |]. constructor; [| done].
  unfold info_match. simpl. split_and!; try done; [by exists rf2 |].
  intros ->. unfold calculate_inflation_time.
  destruct (Rle_dec (current_velocity s) 0) as [| Hpos]; [done |].
  exfalso. destruct (Hsafe eq_refl) as [? | [Hnot | ?]]; [lra | | done].
  apply Hnot. by exists pp.
Qed.

Lemma check_phases_match phases s s' :
  sim_match p s s' -> (p ∈ phases -> safe cfg p s) ->
  result_match (sim_match p) (check_phases cfg phases s) (check_phases cfg' phases s').
Proof.
  revert s s'. induction phases as [| q rest IH]; intros s s' Hm Hsafe; simpl; [done |].
  assert (Hq : result_match (sim_match p) (check_phase cfg q s) (check_phase cfg' q s')).
  { apply check_phase_match; [done |]. intros ->. apply Hsafe. by left. }
  destruct (check_phase cfg q s) as [a | e] eqn:Ha;
    destruct (check_phase cfg' q s') as [a' | e']; simpl in *; try done.
  apply IH; [done |]. intros Hin.
  eapply safe_same; [| | apply Hsafe; by right].
  - by eapply check_phase_same_motion.
  - intros x Hx. apply (check_phase_deployed _ _ _ _ x Ha). by left.
Qed.

(** ** Forces, dynamics and the whole pass *)

Lemma active_drags_match s s' infos infos' total d :
  sim_match p s s' -> Forall2 (info_match p) infos infos' ->
  active_drags s' infos' total d = active_drags s infos total d.
Proof.
  intros (Hm & _) Hinfos. unfold same_motion in Hm. destruct_and!.
  revert total d. induction Hinfos as [| i i' infos infos' Hi _ IH]; intros total d;
    simpl; [done |].
  destruct Hi as (Hph & Hdt & Hit & [rf Hrf] & Hne & Hzero).
  replace (current_time s') with (current_time s) by done.
  replace (current_altitude s') with (current_altitude s) by done.
  replace (current_velocity s') with (current_velocity s) by done.
  rewrite Hph, Hdt, Hit.
  assert (calculate_drag_force (current_altitude s) (current_velocity s)
            (diameter (params i')) (drag_coefficient (params i'))
            (reefing_factor (params i'))
            (current_time s - deployment_time i) (inflation_time i)
          = calculate_drag_force (current_altitude s) (current_velocity s)
              (diameter (params i)) (drag_coefficient (params i))
              (reefing_factor (params i))
              (current_time s - deployment_time i) (inflation_time i)) as ->.
  { destruct (decide (phase i = p)) as [Hp | Hp].
    - rewrite (Hzero Hp), Hrf. simpl. apply drag_force_no_inflation.
    - by rewrite (Hne Hp). }
  destruct (calculate_drag_force _ _ _ _ _ _ _) as [f |]; simpl; [| done].
  destruct (getitem d (phase i)) as [xs |]; simpl; [| done].
  destruct (set_last xs f) as [xs' |]; simpl; [| done].
  apply IH.
Qed.

Lemma calculate_forces_match s s' :
  sim_match p s s' ->
  result_match (sim_match p) (_calculate_forces cfg s) (_calculate_forces cfg' s').
Proof.
  intros Hm. pose proof Hm as (Hmo & Hdep & Htimes & Hinfl & Hact).
  unfold _calculate_forces. unfold same_motion in Hmo. destruct_and!.
  replace (selected_phases cfg') with (selected_phases cfg) by done.
  replace (phase_drag_forces s') with (phase_drag_forces s) by done.
  destruct (append_zeros (selected_phases cfg) (phase_drag_forces s)) as [d0 |];
    simpl; [| done].
  rewrite (active_drags_match s s' _ _ 0 d0 Hm Hact).
  destruct (active_drags s (active_phases s) 0 d0) as [[total d] |]; simpl; [| done].
  unfold sim_match, same_motion. simpl. split_and!; congruence.
Qed.

Lemma get_current_mass_match s s' :
  sim_match p s s' ->
  _get_current_mass cfg' s' = _get_current_mass cfg s.
Proof.
  intros (_ & _ & _ & _ & Hact). unfold _get_current_mass.
  destruct Hact as [| i i' infos infos' Hi _].
  - replace (selected_phases cfg') with (selected_phases cfg) by done.
    destruct (selected_phases cfg) as [| q rest]; [done |].
    cbn [mbind result_bind].
    pose proof (getitem_params_match q) as Hq.
    destruct (getitem (phase_params cfg) q) as [pp |];
      destruct (getitem (phase_params cfg') q) as [pp' |];
      cbn [mbind result_bind result_match] in *; try done.
    + by destruct Hq as (_ & [rf ->] & _).
    + by rewrite Hq.
  - by destruct Hi as (_ & _ & _ & [rf ->] & _).
Qed.

Lemma update_dynamics_match s s' :
  sim_match p s s' ->
  result_match (sim_match p) (_update_dynamics cfg s) (_update_dynamics cfg' s').
Proof.
  intros Hm. pose proof Hm as (Hmo & Hdep & Htimes & Hinfl & Hact).
  unfold _update_dynamics. rewrite (get_current_mass_match s s' Hm).
  unfold same_motion in Hmo. destruct_and!.
  destruct (_get_current_mass cfg s) as [mass |]; simpl; [| done].
  replace (total_drag_force s') with (total_drag_force s) by done.
  destruct (py_div (List.last (total_drag_force s) 0) mass) as [acc |]; simpl; [| done].
  replace (dt cfg') with (dt cfg) by done.
  replace (descent_angle_rad cfg') with (descent_angle_rad cfg) by done.
  unfold sim_match, same_motion. simpl. split_and!; congruence.
Qed.

Lemma store_advance_match s s' :
  sim_match p s s' ->
  sim_match p (advance_time cfg (_store_data s)) (advance_time cfg' (_store_data s')).
Proof.
  intros (Hmo & Hdep & Htimes & Hinfl & Hact).
  unfold same_motion in Hmo. destruct_and!.
  unfold sim_match, same_motion. simpl.
  replace (dt cfg') with (dt cfg) by done.
  split_and!; congruence.
Qed.

Lemma step_match s s' :
  sim_match p s s' -> (p ∈ selected_phases cfg -> safe cfg p s) ->
  result_match (sim_match p) (step cfg s) (step cfg' s').
Proof.
  intros Hm Hsafe. unfold step.
  eapply result_match_bind; [by apply check_phases_match |].
  intros s1 s1' H1.
  eapply result_match_bind; [by apply calculate_forces_match |].
  intros s2 s2' H2.
  eapply result_match_bind; [by apply update_dynamics_match |].
  intros s3 s3' H3. simpl. by apply store_advance_match.
Qed.

(** ** The loop and the summary *)

Lemma sim_match_init : sim_match p (__init__ cfg) (__init__ cfg').
Proof. unfold sim_match, same_motion. simpl. by split_and!. Qed.

Lemma at_rest_safe n s :
  deploys_at_rest cfg p -> after cfg n s -> continues s ->
  p ∈ selected_phases cfg -> safe cfg p s.
Proof.
  intros Hrest Hn Hc Hsel. unfold safe.
  destruct (decide (p ∈ deployed_phases s)) as [| Hpend]; [by right; right |].
  destruct (crossedb cfg (current_altitude s) p) eqn:Hcross.
  - left. apply (Hrest n s); try done. by apply crossedb_spec.
  - right. left. rewrite <- crossedb_spec. by rewrite Hcross.
Qed.

Lemma run_loop_match fuel n s s' :
  deploys_at_rest cfg p -> after cfg n s -> current_time s <= 10000 ->
  sim_match p s s' ->
  match run_loop fuel cfg s, run_loop fuel cfg' s' with
  | None, None => True
  | Some x, Some y => result_match (sim_match p) x y
  | _, _ => False
  end.
Proof.
  intros Hrest. revert n s s'.
  induction fuel as [| fuel IH]; intros n s s' Hn Ht Hm; simpl.
  - pose proof Hm as (Hmo & _). unfold same_motion in Hmo. destruct_and!.
    replace (current_altitude s') with (current_altitude s) by done.
    by destruct (Rlt_dec 0 (current_altitude s)).
  - pose proof Hm as (Hmo & _). unfold same_motion in Hmo. destruct_and!.
    replace (current_altitude s') with (current_altitude s) by done.
    destruct (Rlt_dec 0 (current_altitude s)) as [Halt |]; [| done].
    assert (Hc : continues s) by (by split).
    pose proof (step_match s s' Hm (at_rest_safe n s Hrest Hn Hc)) as Hstep.
    destruct (step cfg s) as [s1 | e] eqn:Hs1;
      destruct (step cfg' s') as [s1' | e']; simpl in Hstep; try done.
    pose proof Hstep as (Hmo1 & _). unfold same_motion in Hmo1. destruct_and!.
    replace (current_time s1') with (current_time s1) by done.
    destruct (Rlt_dec 10000 (current_time s1)); [done |].
    apply (IH (S n)); [by econstructor | lra | done].
Qed.

Lemma compile_results_match s s' :
  sim_match p s s' -> _compile_results cfg' s' = _compile_results cfg s.
Proof.
  intros (Hmo & _ & Htimes & Hinfl & _). unfold same_motion in Hmo. destruct_and!.
  unfold _compile_results.
  replace (selected_phases cfg') with (selected_phases cfg) by done.
  assert (compile_phases s' (selected_phases cfg)
          = compile_phases s (selected_phases cfg)) as ->.
  { induction (selected_phases cfg) as [| q rest IH]; simpl; [done |].
    rewrite IH. by replace (phase_drag_forces s') with (phase_drag_forces s);
      rewrite ?Htimes, ?Hinfl. }
  destruct (compile_phases s (selected_phases cfg)); simpl; [| done].
  do 2 f_equal; congruence.
Qed.

Lemma run_match fuel :
  deploys_at_rest cfg p -> same_outcome (run fuel cfg) (run fuel cfg').
Proof.
  intros Hrest. unfold run.
  pose proof (run_loop_match fuel 0 (__init__ cfg) (__init__ cfg') Hrest
                (after_init cfg) ltac:(simpl; lra) sim_match_init) as Hloop.
  destruct (run_loop fuel cfg (__init__ cfg)) as [[s | e] |];
    destruct (run_loop fuel cfg' (__init__ cfg')) as [[s' | e'] |]; simpl in *; try done.
  rewrite (compile_results_match s s' Hloop).
  destruct (_compile_results cfg s) as [r | e]; simpl; [| done].
  split; [done |]. destruct Hloop as (Hmo & _).
  unfold same_motion in Hmo. destruct_and!. unfold get_plot_data. congruence.
Qed.

End ReefingIrrelevant.

(** C9. (1) A phase that deploys in a pass that starts with a velocity
    [<= 0] gets inflation time 0, in [phase_inflation_times] and in its
    entry of [active_phases].  (2) With inflation time 0,
    [calculate_drag_force] returns the whole base force for every
    positive velocity and every time since deployment [>= 0], time 0
    included, whatever the reefing factor.  (3) So when phase [p] can only
    deploy at such a pass, changing its reefing factor changes nothing a
    caller can see: [run] gives the same summary and the same series (or
    raises the same error, or needs more fuel alike). *)
Theorem reefing_irrelevant_when_deployed_at_rest (cfg : Inputs) (p : string) :
  (forall n s s',
      after cfg n s -> step cfg s = Ok s' ->
      pending s p -> deployed s' p -> current_velocity s <= 0 ->
      phase_inflation_times s' !! p = Some 0
      /\ forall info, info ∈ active_phases s' -> phase info = p ->
           inflation_time info = 0)
  /\ (forall altitude velocity diameter cd rf t,
        0 < velocity -> 0 <= t ->
        calculate_drag_force altitude velocity diameter cd rf t 0
        = Ok (base_drag altitude velocity diameter cd))
  /\ (deploys_at_rest cfg p ->
      forall rf' fuel, same_outcome (run fuel cfg) (run fuel (set_reefing p rf' cfg))).
Proof.
  split; [| split].
  - intros n s s' Hn Hstep Hpend Hdep Hv.
    destruct (step_times _ _ _ p Hstep) as [_ Hnew].
    destruct (Hnew Hpend Hdep) as (pp & _ & _ & Hinfl).
    assert (Hzero : phase_inflation_times s' !! p = Some 0).
    { rewrite Hinfl. unfold calculate_inflation_time.
      by destruct (Rle_dec (current_velocity s) 0). }
    split; [done |]. intros info Hin Hp.
    pose proof (step_tracked _ _ _ Hstep (after_tracked _ _ _ Hn)) as (_ & _ & _ & Hinfo).
    destruct (Hinfo info Hin) as (_ & _ & Hrec).
    rewrite Hp, Hzero in Hrec. by injection Hrec as <-.
  - intros altitude velocity diameter cd rf t Hv Ht.
    apply drag_force_inflated; lra.
  - intros Hrest rf' fuel. by apply run_match.
Qed.

(** * The run returns *)

Section Totality.

Context (cfg : Inputs).

(** ** The loop ends: the clock passes the ceiling *)

Lemma clock_passes_ceiling : 0 < dt cfg -> exists K, 10000 < INR K * dt cfg.
Proof.
  intros Hdt. destruct (archimed (10000 / dt cfg)) as [Hup _].
  assert (Hpos : 0 < 10000 / dt cfg) by (apply Rdiv_lt_0_compat; lra).
  exists (Z.to_nat (up (10000 / dt cfg))).
  rewrite INR_IZR_INZ, Z2Nat.id.
  - apply (Rmult_lt_compat_r (dt cfg)) in Hup; [| done].
    replace (10000 / dt cfg * dt cfg) with 10000 in Hup by (field; lra). lra.
  - apply le_IZR. lra.
Qed.

Lemma run_loop_terminates K fuel n s :
  10000 < INR K * dt cfg -> 0 < dt cfg ->
  after cfg n s -> current_time s <= 10000 -> (K <= n + fuel)%nat ->
  run_loop fuel cfg s <> None.
Proof.
  intros HK Hdt. revert n s. induction fuel as [| fuel IH]; intros n s Hn Ht Hle; simpl.
  - exfalso. pose proof (after_clock _ _ _ Hn) as (Hclk & _).
    assert (INR K <= INR n) by (apply le_INR; lia). nra.
  - destruct (Rlt_dec 0 (current_altitude s)) as [Halt |]; [| done].
    destruct (step cfg s) as [s1 | e] eqn:Hstep; [| done].
    destruct (Rlt_dec 10000 (current_time s1)); [done |].
    apply (IH (S n)); [| lra | lia].
    econstructor; eauto. by split.
Qed.

(** With a positive time step, [run] gives an answer (a summary or an
    error) as soon as it has fuel for the passes to the ceiling. *)
Lemma run_terminates :
  0 < dt cfg -> exists fuel, forall fuel', (fuel <= fuel')%nat -> run fuel' cfg <> None.
Proof.
  intros Hdt. destruct (clock_passes_ceiling Hdt) as [K HK].
  exists K. intros fuel' Hle. unfold run.
  pose proof (run_loop_terminates K fuel' 0 (__init__ cfg) HK Hdt (after_init cfg)) as H.
  destruct (run_loop fuel' cfg (__init__ cfg)) as [[s | e] |]; try done.
  exfalso. apply H; [simpl; lra | lia | done].
Qed.

(** ** No pass raises on a valid configuration *)

Lemma check_phases_total phases s :
  (forall q, q ∈ phases -> is_Some (phase_params cfg !! q)) ->
  exists s1, check_phases cfg phases s = Ok s1.
Proof.
  revert s. induction phases as [| q rest IH]; intros s Hpp; simpl; [by eexists |].
  assert (exists a, check_phase cfg q s = Ok a) as [a ->].
  { unfold check_phase, _deploy_phase, getitem.
    destruct (Hpp q) as [pp ->]; [by left |].
    destruct (decide (q ∈ deployed_phases s)); [by eexists |]. simpl.
    destruct (Rle_dec _ _); by eexists. }
  simpl. apply IH. intros q' Hq'. apply Hpp. by right.
Qed.

Lemma append_zeros_total phases (d : gmap string (list R)) :
  (forall q, q ∈ phases -> is_Some (d !! q)) ->
  exists d0, append_zeros phases d = Ok d0.
Proof.
  revert d. induction phases as [| q rest IH]; intros d Hd; simpl; [by eexists |].
  destruct (Hd q) as [xs Hxs]; [by left |].
  unfold getitem. rewrite Hxs. simpl. apply IH. intros q' Hq'.
  destruct (decide (q = q')) as [-> | Hne].
  - rewrite lookup_insert_eq. by eexists.
  - rewrite lookup_insert_ne by done. apply Hd. by right.
Qed.

Lemma drag_force_total altitude velocity diameter cd rf t T :
  0 <= t -> exists f, calculate_drag_force altitude velocity diameter cd rf t T = Ok f.
Proof.
  intros Ht. unfold calculate_drag_force.
  destruct (Rle_dec velocity 0); [by eexists |].
  destruct (Rlt_dec t T); [| by eexists].
  rewrite py_div_nonzero by lra. by eexists.
Qed.

Lemma active_drags_total s infos total (d : gmap string (list R)) :
  (forall info, info ∈ infos ->
     deployment_time info <= current_time s
     /\ exists xs, d !! phase info = Some xs /\ xs <> []) ->
  exists out, active_drags s infos total d = Ok out.
Proof.
  revert total d. induction infos as [| info rest IH]; intros total d Hok; simpl;
    [by eexists |].
  destruct (Hok info) as (Ht & xs & Hxs & Hne); [by left |].
  destruct (drag_force_total (current_altitude s) (current_velocity s)
              (diameter (params info)) (drag_coefficient (params info))
              (reefing_factor (params info))
              (current_time s - deployment_time info) (inflation_time info))
    as [f ->]; [lra |].
  unfold getitem. rewrite Hxs. simpl.
  destruct xs as [| x xs']; [done |]. cbn [set_last mbind result_bind].
  apply IH. intros info' Hin.
  destruct (Hok info') as (Ht' & ys & Hys & Hne'); [by right |].
  split; [done |].
  destruct (decide (phase info = phase info')) as [Heq | Hneq].
  - rewrite <- Heq, lookup_insert_eq. eexists. split; [done |].
    intros Hnil. by apply app_eq_nil in Hnil as [_ ?].
  - rewrite lookup_insert_ne by done. by exists ys.
Qed.

(** On a valid configuration every pass of the run succeeds. *)
Lemma step_total n s :
  valid_config cfg -> after cfg n s -> exists s', step cfg s = Ok s'.
Proof.
  intros (Hdt & Hsel & Hpp) Hn.
  (* the deployment check *)
  destruct (check_phases_total (selected_phases cfg) s) as [s1 H1].
  { intros q Hq. destruct (Hpp q Hq) as (pp & -> & _). by eexists. }
  pose proof (check_phases_tracked cfg _ _ _ H1 ltac:(done) (after_tracked _ _ _ Hn))
    as (_ & Hnames & Hsub & Hinfo).
  pose proof (check_phases_same_motion _ _ _ _ H1) as Hm.
  unfold same_motion in Hm. destruct Hm as (_ & _ & _ & _ & _ & Hpdf & Htime & _).
  (* the forces *)
  destruct (append_zeros_total (selected_phases cfg) (phase_drag_forces s1)) as [d0 Hd0].
  { intros q Hq. rewrite Hpdf. destruct (after_series _ _ _ Hn q) as [Hser _].
    destruct (Hser Hq) as (xs & -> & _). by eexists. }
  destruct (active_drags_total s1 (active_phases s1) 0 d0) as [[total d] Hd].
  { intros info Hin. split.
    - destruct (check_phases_deploy_times cfg _ _ _ H1 info Hin) as [Hold | ->]; [| lra].
      rewrite Htime. apply (after_deploy_times cfg n s info); [lra | done | done].
    - assert (Hq : phase info ∈ selected_phases cfg).
      { apply Hsub, Hnames. unfold active_names. apply list_elem_of_fmap. by exists info. }
      rewrite (append_zeros_Ok _ _ _ Hd0 (phase info)), Hpdf.
      destruct (after_series _ _ _ Hn (phase info)) as [Hser _].
      destruct (Hser Hq) as (xs & -> & _). simpl. eexists. split; [done |].
      pose proof (occurrences_pos _ _ Hq) as Hocc.
      destruct (occurrences (phase info) (selected_phases cfg)); [lia |].
      rewrite replicate_S_end, app_assoc. intros Hnil.
      by apply app_eq_nil in Hnil as [_ ?]. }
  (* the mass *)
  assert (exists mass, _get_current_mass cfg s1 = Ok mass /\ mass <> 0) as (mass & Hmass & Hnz).
  { unfold _get_current_mass. destruct (active_phases s1) as [| info rest] eqn:Hact.
    - destruct (selected_phases cfg) as [| q rest]; [done |].
      destruct (Hpp q) as (pp & Hq & Hnz); [by left |].
      cbn [mbind result_bind]. unfold getitem. rewrite Hq. simpl. by eexists.
    - destruct (Hinfo info) as (Hpar & _); [by left |].
      destruct (Hpp (phase info)) as (pp & Hq & Hnz).
      { apply Hsub, Hnames. unfold active_names. rewrite Hact. by left. }
      rewrite Hpar in Hq. injection Hq as ->. by eexists. }
  unfold step, _check_phase_deployments. rewrite H1. simpl.
  unfold _calculate_forces. rewrite Hd0. simpl. rewrite Hd. simpl.
  unfold _update_dynamics, _get_current_mass in *. simpl. rewrite Hmass. simpl.
  rewrite py_div_nonzero by done. simpl. by eexists.
Qed.

(** On a valid configuration [run] returns a summary, given enough
    fuel. *)
Lemma run_returns :
  valid_config cfg -> exists fuel s r, run fuel cfg = Some (Ok (s, r)).
Proof.
  intros Hvalid. pose proof Hvalid as (Hdt & _).
  destruct (clock_passes_ceiling Hdt) as [K HK].
  assert (Hloop : forall fuel n s, after cfg n s -> current_time s <= 10000 ->
            (K <= n + fuel)%nat ->
            exists N s', after cfg N s' /\ ~ continues s').
  { induction fuel as [| fuel IH]; intros n s Hn Ht Hle.
    - exfalso. pose proof (after_clock _ _ _ Hn) as (Hclk & _).
      assert (INR K <= INR n) by (apply le_INR; lia). nra.
    - destruct (Rlt_dec 0 (current_altitude s)) as [Halt | Hland].
      + destruct (step_total n s Hvalid Hn) as [s1 Hstep].
        assert (after cfg (S n) s1) by (econstructor; eauto; by split).
        destruct (Rlt_dec 10000 (current_time s1)) as [Hbrk | Hgo].
        * exists (S n), s1. split; [done |]. unfold continues. lra.
        * apply (IH (S n) s1); [done | lra | lia].
      + exists n, s. split; [done |]. unfold continues. lra. }
  destruct (Hloop K 0%nat (__init__ cfg) (after_init cfg)) as (N & s & HN & Hstop);
    [simpl; lra | lia |].
  destruct (after_run_total cfg N N s HN Hstop (le_n N)) as [r Hr].
  by exists N, s, r.
Qed.

End Totality.

(** * Example runs, evaluated *)

Lemma cos_90 : cos (radians 90) = 0.
Proof. unfold radians. replace (90 * PI / 180) with (PI / 2) by field. apply cos_PI2. Qed.

Lemma sin_90 : sin (radians 90) = 1.
Proof. unfold radians. replace (90 * PI / 180) with (PI / 2) by field. apply sin_PI2. Qed.

Lemma getitem_lookup {V : Type} (d : gmap string V) (k : string) (v : V) :
  d !! k = Some v -> getitem d k = Ok v.
Proof. apply getitem_Ok. Qed.

Lemma Rle_dec_true a b (T : Type) (x y : T) : a <= b -> (if Rle_dec a b then x else y) = x.
Proof. intros. destruct (Rle_dec a b); [done | contradiction]. Qed.

Lemma Rle_dec_false a b (T : Type) (x y : T) : b < a -> (if Rle_dec a b then x else y) = y.
Proof. intros. destruct (Rle_dec a b); [lra | done]. Qed.

Lemma Rlt_dec_true a b (T : Type) (x y : T) : a < b -> (if Rlt_dec a b then x else y) = x.
Proof. intros. destruct (Rlt_dec a b); [done | contradiction]. Qed.

Lemma Rlt_dec_false a b (T : Type) (x y : T) : b <= a -> (if Rlt_dec a b then x else y) = y.
Proof. intros. destruct (Rlt_dec a b); [lra | done]. Qed.

(** Evaluation of the operations on a concrete state: unfold, reduce the
    record projections and the loops over concrete lists, and decide each
    test by [lra] or [set_solver]. *)
Ltac sim_unfold :=
  unfold step, mass_used, mass_claimed, mass_by_configured_order,
    _check_phase_deployments, _calculate_forces, _update_dynamics,
    _get_current_mass, _compile_results, check_phase, _deploy_phase,
    advance_time, _store_data, descent_angle_rad, dt, calculate_drag_force,
    calculate_inflation_time, set_last, max_or_zero, last_or_zero.

Ltac sim_cbn :=
  cbn [mbind result_bind check_phases append_zeros active_drags compile_phases
       __init__ foldr fold_left List.find default
       time altitude velocity total_drag_force phase_drag_forces horizontal_position
       current_time current_altitude current_velocity current_horizontal_pos
       active_phases deployed_phases phase_deployment_times phase_inflation_times
       global_params phase_params selected_phases
       initial_altitude initial_velocity time_step descent_angle
       diameter drag_coefficient deployment_altitude inflation_index payload_mass
       reefing_factor phase deployment_time inflation_time params
       app List.last removelast].

Ltac rmax_simpl :=
  match goal with
  | |- context [Rmax ?a ?b] =>
      first [rewrite (Rmax_right a b) by lra | rewrite (Rmax_left a b) by lra]
  end.

Ltac sim_step :=
  first
    [ rewrite decide_False by set_solver
    | rewrite decide_True by set_solver
    | rewrite bool_decide_eq_true_2 by set_solver
    | rewrite bool_decide_eq_false_2 by set_solver
    | erewrite getitem_lookup by (simplify_map_eq; reflexivity)
    | rewrite Rle_dec_true by lra
    | rewrite Rle_dec_false by lra
    | rewrite Rlt_dec_true by lra
    | rewrite Rlt_dec_false by lra
    | rewrite py_div_nonzero by lra
    | rewrite cos_90 | rewrite sin_90
    | rewrite last_last
    | rewrite lookup_empty
    | rmax_simpl
    | progress sim_unfold
    | progress sim_cbn ].

Ltac sim_eval := repeat sim_step.

Ltac real_solve := unfold g; repeat rmax_simpl; lra.

Ltac leaves_solve := repeat (f_equal; try done); try real_solve.

Ltac map_solve :=
  apply map_eq; intros ?k;
  repeat match goal with
    | |- context [ <[ ?a := _ ]> _ !! ?k ] =>
        destruct (decide (a = k)) as [<- |];
        [rewrite ?lookup_insert_eq, ?lookup_singleton_eq
        |rewrite ?lookup_insert_ne, ?lookup_singleton_ne by done]
    end;
  rewrite ?lookup_singleton_eq, ?lookup_empty;
  try rewrite !lookup_singleton_ne by done;
  try done; leaves_solve.

(** Equality of two concrete states or summaries, attribute by
    attribute. *)
Ltac field_solve :=
  f_equal; f_equal;
  lazymatch goal with
  | |- @eq (gmap _ _) _ _ => map_solve
  | |- @eq (gset _) _ _ => set_solver
  | |- _ => leaves_solve
  end.

(** ** Coasting to the ground in two passes *)

Lemma coast_step_0 : step cfg_coast (__init__ cfg_coast) = Ok coast_s1.
Proof. unfold cfg_coast, pp_low, coast_s1. sim_eval. field_solve. Qed.

Lemma coast_step_1 : step cfg_coast coast_s1 = Ok coast_s2.
Proof. unfold cfg_coast, pp_low, coast_s1, coast_s2. sim_eval. field_solve. Qed.

Lemma coast_after_1 : after cfg_coast 1 coast_s1.
Proof.
  eapply after_step; [apply after_init | | apply coast_step_0].
  unfold continues. simpl. lra.
Qed.

Lemma coast_after_2 : after cfg_coast 2 coast_s2.
Proof.
  eapply after_step; [apply coast_after_1 | | apply coast_step_1].
  unfold continues. simpl. lra.
Qed.

Lemma coast_run : run 2 cfg_coast = Some (Ok (coast_s2, coast_results)).
Proof.
  apply (after_run cfg_coast 2 2 coast_s2); [apply coast_after_2 | | lia |].
  - unfold continues. simpl. lra.
  - unfold coast_s2, cfg_coast, coast_results. sim_eval. field_solve.
    all: apply format_1f_0.
Qed.

(** ** The main parachute opening before the drogue *)

Lemma order_step_0 : step cfg_order (__init__ cfg_order) = Ok order_s1.
Proof.
  unfold cfg_order, pp_drogue, pp_main_high, order_s1. sim_eval. field_solve.
Qed.

Lemma order_after_1 : after cfg_order 1 order_s1.
Proof.
  eapply after_step; [apply after_init | | apply order_step_0].
  unfold continues. simpl. lra.
Qed.

Lemma order_mass_used : mass_used cfg_order order_s1 = Ok 100.
Proof. unfold cfg_order, pp_drogue, pp_main_high, order_s1. sim_eval. done. Qed.

Lemma order_mass_claimed : mass_claimed cfg_order order_s1 = Ok 50.
Proof. unfold cfg_order, pp_drogue, pp_main_high, order_s1. sim_eval. done. Qed.

(** ** Standing still until the time ceiling *)

Lemma ceiling_init : __init__ cfg_ceiling = ceiling_state 0.
Proof. unfold __init__, ceiling_state. simpl. by f_equal. Qed.

Lemma ceiling_step n : step cfg_ceiling (ceiling_state n) = Ok (ceiling_state (S n)).
Proof.
  unfold cfg_ceiling, pp_scenario, ceiling_state. sim_eval.
  rewrite S_INR, !replicate_S_end, seq_S, fmap_app. simpl.
  f_equal. f_equal;
    lazymatch goal with
    | |- @eq (gmap _ _) _ _ => apply insert_singleton_eq
    | |- _ => leaves_solve
    end.
Qed.

Lemma INR_100 : INR 100 = 100.
Proof. rewrite INR_IZR_INZ. reflexivity. Qed.

Lemma ceiling_after n : (n <= ceiling_passes)%nat -> after cfg_ceiling n (ceiling_state n).
Proof.
  induction n as [| n IH]; intros Hn.
  - rewrite <- ceiling_init. constructor.
  - eapply after_step; [apply IH; lia | | apply ceiling_step].
    unfold continues. simpl. split; [lra |].
    assert (INR n <= INR (100 * 100)) as Hle by (apply le_INR; unfold ceiling_passes in Hn; lia).
    rewrite mult_INR, INR_100 in Hle. lra.
Qed.

Lemma ceiling_clock : current_time (ceiling_state ceiling_passes) = 10001.
Proof.
  unfold ceiling_state, ceiling_passes. cbn [current_time].
  rewrite plus_INR, mult_INR, INR_100. simpl. lra.
Qed.

Lemma ceiling_hit : hit_ceiling (ceiling_state ceiling_passes).
Proof. unfold hit_ceiling. rewrite ceiling_clock. simpl. lra. Qed.

Lemma ceiling_run :
  exists r, run ceiling_passes cfg_ceiling
            = Some (Ok (ceiling_state ceiling_passes, r)).
Proof.
  apply (after_run_total cfg_ceiling ceiling_passes ceiling_passes).
  - by apply ceiling_after.
  - apply not_continues. right. apply ceiling_hit.
  - done.
Qed.

(** ** Deploying without airspeed *)

Lemma stall_deploys_at_rest : deploys_at_rest cfg_stall "Main".
Proof.
  intros n s Hn Hc Hsel Hpend Hcross.
  destruct n as [| n].
  - inversion Hn. simpl. lra.
  - exfalso. apply Hpend.
    destruct (after_prefix _ _ _ 1 Hn) as (s1 & H1); [lia |].
    pose proof H1 as H1'. apply after_pred in H1' as (s0 & H0 & _ & Hstep).
    inversion H0; subst.
    apply (after_deployed_mono cfg_stall 1 s1 (S n) s "Main" H1 Hn); [lia |].
    apply (step_deployed _ _ _ "Main" Hstep). right. split; [done |].
    exists pp_scenario. split; [done |]. simpl. lra.
Qed.

(** * The theorems on the example runs *)

Lemma air_density_total_positive_witness :
  calculate_air_density (-5) = calculate_air_density 0
  /\ calculate_air_density 50000 = 0.001.
Proof.
  split.
  - destruct (air_density_total_positive (-5)) as (_ & _ & H & _). apply H. lra.
  - destruct (air_density_total_positive 50000) as (_ & _ & _ & H). apply H.
    unfold L, T0. lra.
Defined.

(** In the run of [cfg_order] the main parachute deploys in pass 0 and the
    drogue is still pending after it: the first entry of the drogue's
    series is 0 in every later state. *)
Lemma single_deployment_witness :
  after cfg_order 1 order_s1
  /\ deployed order_s1 "Main"
  /\ pending order_s1 "Drogue"
  /\ length (drag_series order_s1 "Drogue") = 1%nat
  /\ (forall m sm x, after cfg_order m sm ->
        drag_series sm "Drogue" !! 0%nat = Some x -> x = 0).
Proof.
  assert (Hsel : "Drogue" ∈ selected_phases cfg_order) by (simpl; set_solver).
  assert (Hpp : phase_params cfg_order !! "Drogue" = Some pp_drogue) by done.
  assert (Hpend : pending order_s1 "Drogue") by (unfold pending; simpl; set_solver).
  destruct (single_deployment cfg_order "Drogue" pp_drogue 1 order_s1 Hsel Hpp order_after_1)
    as (_ & _ & _ & _ & Hzero & Hlen & Hocc).
  assert (Hone : occurrences "Drogue" (selected_phases cfg_order) = 1%nat).
  { apply Hocc. simpl. apply NoDup_cons. split; [| apply NoDup_singleton].
    by intros [=]%list_elem_of_singleton. }
  rewrite Hone in Hzero, Hlen.
  split; [apply order_after_1 |].
  split; [unfold deployed; simpl; set_solver |].
  split; [done |]. split; [done |].
  intros m sm x Hm Hx. apply (Hzero Hpend m sm 0%nat x Hm Hx). lia.
Defined.

(** The run of [cfg_ceiling] ends at the ceiling, 1000 m up; its summary
    says so in [final_altitude] and differs from the summary of the
    landed run of [cfg_coast]. *)
Lemma ceiling_run_distinguishable_witness :
  exists r,
    run ceiling_passes cfg_ceiling = Some (Ok (ceiling_state ceiling_passes, r))
    /\ hit_ceiling (ceiling_state ceiling_passes)
    /\ final_altitude r = 1000
    /\ r <> coast_results.
Proof.
  destruct ceiling_run as [r Hr]. exists r.
  destruct (ceiling_run_distinguishable cfg_ceiling ceiling_passes
              (ceiling_state ceiling_passes) r Hr) as (_ & _ & Hceil & _ & Hdiff).
  split; [done |]. split; [apply ceiling_hit |].
  split; [by destruct (Hceil ceiling_hit) as [-> _] |].
  apply (Hdiff ceiling_hit cfg_coast 2%nat coast_s2 coast_results coast_run).
  unfold landed. simpl. lra.
Defined.

(** C3 as first stated fails: the run of [cfg_ceiling], which ends at the
    ceiling, and the run of [cfg_coast], which lands, both return a
    summary; the outcome is of the same kind. *)
Lemma ceiling_outcome_counterexample :
  hit_ceiling (ceiling_state ceiling_passes)
  /\ landed coast_s2
  /\ (exists r, run ceiling_passes cfg_ceiling
                = Some (Ok (ceiling_state ceiling_passes, r)))
  /\ run 2 cfg_coast = Some (Ok (coast_s2, coast_results))
  /\ kind_of (run ceiling_passes cfg_ceiling) = kind_of (run 2 cfg_coast).
Proof.
  split; [apply ceiling_hit |].
  split; [unfold landed; simpl; lra |].
  split; [apply ceiling_run |].
  split; [apply coast_run |].
  destruct ceiling_run as [r ->]. by rewrite coast_run.
Qed.

Lemma degenerate_run_witness :
  exists s r,
    run 0 cfg_degenerate = Some (Ok (s, r))
    /\ time s = [] /\ landing_velocity r = 0 /\ total_flight_time r = 0.
Proof.
  destruct (degenerate_run cfg_degenerate 0 eq_refl)
    as (s & r & Hrun & Ht & _ & _ & _ & _ & Hv & Hf).
  by exists s, r.
Defined.

(** C4 as first stated fails: on the ground with initial velocity 50 the
    reported landing velocity is 0. *)
Lemma degenerate_run_counterexample :
  exists s r,
    run 0 cfg_degenerate = Some (Ok (s, r))
    /\ initial_velocity (global_params cfg_degenerate) = 50
    /\ landing_velocity r = 0
    /\ landing_velocity r <> initial_velocity (global_params cfg_degenerate).
Proof.
  assert (Hstop : ~ continues (__init__ cfg_degenerate)).
  { unfold continues. simpl. lra. }
  destruct (after_run_total cfg_degenerate 0 0 (__init__ cfg_degenerate)
              (after_init _) Hstop (le_n 0)) as [r Hr].
  exists (__init__ cfg_degenerate), r. split; [done |]. split; [done |].
  apply run_after in Hr as (Hr & _).
  apply compile_results_Ok in Hr as (_ & -> & _). unfold last_or_zero. simpl.
  split; [done |]. intros H. lra.
Qed.

(** In pass 1 of the run of [cfg_order] the mass is that of the main
    parachute, the first phase whose threshold was reached (in pass 0). *)
Lemma current_mass_first_deployed_witness :
  after cfg_order 1 order_s1
  /\ mass_used cfg_order order_s1 = Ok 100
  /\ first_crossing cfg_order (__init__ cfg_order) = Some "Main"
  /\ 100 = payload_mass pp_main_high.
Proof.
  assert (Hfirst : first_crossing cfg_order (__init__ cfg_order) = Some "Main").
  { unfold first_crossing, crossedb. simpl.
    rewrite lookup_insert_eq. simpl.
    rewrite Rle_dec_false by lra.
    rewrite lookup_insert_ne by done. rewrite lookup_singleton_eq. simpl.
    by rewrite Rle_dec_true by lra. }
  split; [apply order_after_1 |]. split; [apply order_mass_used |].
  split; [done |].
  destruct (current_mass_first_deployed cfg_order 1 order_s1 100 order_after_1
              order_mass_used) as (H & _).
  apply (H 0%nat (__init__ cfg_order) "Main" pp_main_high); try done.
  - lia.
  - constructor.
  - intros j sj Hj. lia.
Defined.

(** C5 as first stated fails: in pass 1 of the run of [cfg_order] both
    phases are deployed; the first of them in configured order is the
    drogue (50 kg), while the mass used is that of the main parachute
    (100 kg), which deployed first. *)
Lemma mass_order_counterexample :
  after cfg_order 1 order_s1
  /\ mass_used cfg_order order_s1 = Ok 100
  /\ mass_claimed cfg_order order_s1 = Ok 50
  /\ mass_used cfg_order order_s1 <> mass_claimed cfg_order order_s1.
Proof.
  split; [apply order_after_1 |]. split; [apply order_mass_used |].
  split; [apply order_mass_claimed |].
  rewrite order_mass_used, order_mass_claimed. intros [= H]. lra.
Qed.

Lemma altitude_series_non_increasing_witness :
  run 2 cfg_coast = Some (Ok (coast_s2, coast_results))
  /\ altitude coast_s2 = [4; 0]
  /\ 0 <= 4.
Proof.
  split; [apply coast_run |]. split; [done |].
  assert (Hdt : 0 < dt cfg_coast) by (unfold dt; simpl; lra).
  destruct (altitude_series_non_increasing cfg_coast Hdt) as [_ H].
  by apply (H 2%nat coast_s2 coast_results coast_run 0%nat 4 0).
Defined.

(** Changing the reefing factor of the parachute of [cfg_stall], which
    deploys at rest, from 0.3 to 1 changes nothing in the outcome. *)
Lemma reefing_irrelevant_witness :
  deploys_at_rest cfg_stall "Main"
  /\ same_outcome (run 50 cfg_stall) (run 50 (set_reefing "Main" 1 cfg_stall)).
Proof.
  split; [apply stall_deploys_at_rest |].
  destruct (reefing_irrelevant_when_deployed_at_rest cfg_stall "Main") as (_ & _ & H).
  apply (H stall_deploys_at_rest 1 50%nat).
Defined.

(** In the run of [cfg_coast], two passes with [dt = 1]: the clock ends at
    2, the reported flight time is 1, and snapshot 1 holds the clock 1 of
    before pass 1. *)
Lemma snapshot_time_lags_state_witness :
  run 2 cfg_coast = Some (Ok (coast_s2, coast_results))
  /\ current_time coast_s2 = 2
  /\ total_flight_time coast_results = 1
  /\ exists N, after cfg_coast N coast_s2
               /\ ((1 <= N)%nat ->
                   total_flight_time coast_results = (INR N - 1) * dt cfg_coast).
Proof.
  split; [apply coast_run |]. split; [done |]. split; [done |].
  destruct (snapshot_time_lags_state cfg_coast 2 coast_s2 coast_results coast_run)
    as (N & HN & _ & _ & _ & Hft & _).
  by exists N.
Defined.

(** C10 as first stated fails twice.  In the run of [cfg_coast] the
    altitude after pass 1 is -2 and the stored altitude is 0.  In the run
    of [cfg_degenerate], with no pass at all, the reported flight time is
    0 and not [(0 - 1) * dt]. *)
Lemma snapshot_altitude_counterexample :
  (run 2 cfg_coast = Some (Ok (coast_s2, coast_results))
   /\ after cfg_coast 2 coast_s2
   /\ current_altitude coast_s2 = -2
   /\ altitude coast_s2 !! 1%nat = Some 0
   /\ altitude coast_s2 !! 1%nat <> Some (current_altitude coast_s2))
  /\ (exists r, run 0 cfg_degenerate = Some (Ok (__init__ cfg_degenerate, r))
                /\ total_flight_time r = 0
                /\ total_flight_time r <> (INR 0 - 1) * dt cfg_degenerate).
Proof.
  split.
  - split; [apply coast_run |]. split; [apply coast_after_2 |].
    split; [done |]. split; [done |]. simpl. intros [= H]. lra.
  - assert (Hstop : ~ continues (__init__ cfg_degenerate)).
    { unfold continues. simpl. lra. }
    destruct (after_run_total cfg_degenerate 0 0 (__init__ cfg_degenerate)
                (after_init _) Hstop (le_n 0)) as [r Hr].
    exists r. split; [done |].
    apply run_after in Hr as (Hr & _).
    apply compile_results_Ok in Hr as (_ & _ & -> & _).
    unfold dt, last_or_zero. simpl. split; [done |]. intros H. lra.
Qed.

(** * Further properties of [PhysicsCalculator] *)

(** X1. The inflation time is 0 without airspeed and at least 0.1
    otherwise, where it is [n * D / V] whenever that is at least 0.1; for
    [n * D >= 0] it does not grow when the velocity grows. *)
Theorem inflation_time_floor (n_factor diameter velocity : R) :
  (velocity <= 0 -> calculate_inflation_time n_factor diameter velocity = 0)
  /\ (0 < velocity ->
      0.1 <= calculate_inflation_time n_factor diameter velocity
      /\ n_factor * diameter / velocity
         <= calculate_inflation_time n_factor diameter velocity
      /\ (0.1 <= n_factor * diameter / velocity ->
          calculate_inflation_time n_factor diameter velocity
          = n_factor * diameter / velocity))
  /\ (forall faster, 0 < velocity -> velocity <= faster -> 0 <= n_factor * diameter ->
        calculate_inflation_time n_factor diameter faster
        <= calculate_inflation_time n_factor diameter velocity).
Proof.
  unfold calculate_inflation_time. split; [| split].
  - intros Hv. by destruct (Rle_dec velocity 0).
  - intros Hv. destruct (Rle_dec velocity 0); [lra |].
    split; [apply Rbasic_fun.Rmax_r |]. split; [apply Rbasic_fun.Rmax_l |].
    intros H. by apply Rmax_left.
  - intros faster Hv Hle Hnd.
    destruct (Rle_dec velocity 0); [lra |]. destruct (Rle_dec faster 0); [lra |].
    apply Rle_max_compat_r. unfold Rdiv.
    apply Rmult_le_compat_l; [done |].
    apply Rinv_le_contravar; lra.
Qed.

Lemma inflation_time_floor_witness :
  calculate_inflation_time 5 20 0 = 0
  /\ calculate_inflation_time 5 20 50 = 5 * 20 / 50
  /\ calculate_inflation_time 5 20 100 <= calculate_inflation_time 5 20 50.
Proof.
  destruct (inflation_time_floor 5 20 0) as (H0 & _ & _).
  destruct (inflation_time_floor 5 20 50) as (_ & H1 & H2).
  split; [apply H0; lra |]. split.
  - destruct H1 as (_ & _ & H); [lra |]. apply H. lra.
  - apply H2; lra.
Defined.

(** The force [calculate_drag_force] returns lies between 0 and the base
    force. *)
Lemma drag_force_range
    (altitude velocity diameter drag_coefficient reefing_factor t inflation_time : R) :
  0 <= drag_coefficient -> 0 <= reefing_factor <= 1 -> 0 <= t ->
  exists f,
    calculate_drag_force altitude velocity diameter drag_coefficient
      reefing_factor t inflation_time = Ok f
    /\ 0 <= f <= base_drag altitude velocity diameter drag_coefficient
    /\ (velocity <= 0 -> f = 0).
Proof.
  intros Hcd Hrf Ht.
  pose proof (base_drag_nonneg altitude velocity diameter drag_coefficient Hcd) as Hb.
  destruct (Rle_dec velocity 0) as [Hv | Hv].
  - exists 0. rewrite drag_force_no_airspeed by done. split; [done |]. split; [lra | done].
  - destruct (Rlt_dec t inflation_time) as [Hlt | Hge].
    + rewrite drag_force_inflating by lra. eexists. split; [done |].
      assert (0 <= t / inflation_time).
      { unfold Rdiv. apply Rmult_le_pos; [lra |]. left. apply Rinv_0_lt_compat. lra. }
      assert (t / inflation_time <= 1).
      { apply (Rmult_le_reg_r inflation_time); [lra |].
        replace (t / inflation_time * inflation_time) with t by (field; lra). lra. }
      assert (0 <= reefing_factor + (1 - reefing_factor) * (t / inflation_time) <= 1)
        by (split; nra).
      split; [split; nra | lra].
    + rewrite drag_force_inflated by lra. exists (base_drag altitude velocity diameter drag_coefficient).
      split; [done |]. split; [lra | lra].
Qed.

(** X2. For a non-negative drag coefficient, a reefing factor in [0, 1]
    and a time since deployment that is not negative,
    [calculate_drag_force] returns a force between 0 and the base force
    (and 0 without airspeed): the ramp never overshoots the fully inflated
    force. *)
Theorem drag_force_bounds
    (altitude velocity diameter drag_coefficient reefing_factor t inflation_time : R) :
  0 <= drag_coefficient -> 0 <= reefing_factor <= 1 -> 0 <= t ->
  exists f,
    calculate_drag_force altitude velocity diameter drag_coefficient
      reefing_factor t inflation_time = Ok f
    /\ 0 <= f <= base_drag altitude velocity diameter drag_coefficient
    /\ (velocity <= 0 -> f = 0).
Proof. apply drag_force_range. Qed.

Lemma drag_force_bounds_witness :
  exists f, calculate_drag_force 1000 50 20 1.5 0.3 1 2 = Ok f
            /\ 0 <= f <= base_drag 1000 50 20 1.5.
Proof.
  destruct (drag_force_bounds 1000 50 20 1.5 0.3 1 2) as (f & Hf & Hb & _); try lra.
  by exists f.
Defined.

(** X3. Which calls raise.  For a velocity and a diameter within the
    range in which Python's [**] computes their squares ([square_range]),
    [calculate_drag_force], called with Python numbers, raises exactly on
    the calls with a positive velocity, an inflation time of 0 and a
    negative time since deployment, where the inflation progress is a
    division by zero; the error is [ZeroDivisionError]. *)
Theorem drag_force_raises_iff
    (altitude velocity diameter drag_coefficient reefing_factor t inflation_time : R)
    (e : exn) :
  square_range velocity -> square_range diameter ->
  (calculate_drag_force altitude velocity diameter drag_coefficient
     reefing_factor t inflation_time = Raise e
   <-> (0 < velocity /\ t < 0 /\ inflation_time = 0 /\ e = ZeroDivisionError)).
Proof.
  intros _ _. unfold calculate_drag_force, py_div.
  destruct (Rle_dec velocity 0) as [Hv | Hv].
  - split; [done | intros (? & _); lra].
  - destruct (Rlt_dec t inflation_time) as [Hlt | Hge].
    + destruct (Req_dec_T inflation_time 0) as [-> | Hne]; simpl.
      * split; [intros [= <-]; split_and!; try done; lra | by intros (_ & _ & _ & ->)].
      * split; [done | intros (_ & _ & ? & _); done].
    + split; [done | intros (_ & ? & ? & _); lra].
Qed.

Lemma drag_force_raises_iff_witness :
  calculate_drag_force 1000 50 20 1.5 0.3 (-1) 0 = Raise ZeroDivisionError.
Proof.
  apply drag_force_raises_iff.
  - unfold square_range. apply Rabs_le. lra.
  - unfold square_range. apply Rabs_le. lra.
  - split_and!; [lra | lra | done | done].
Defined.

Section TerminalVelocity.

Variables mass diameter drag_coefficient altitude : R.

Lemma area_pos : diameter <> 0 -> 0 < PI * (diameter / 2) ^ 2.
Proof.
  intros Hd. apply Rmult_lt_0_compat; [apply PI_RGT_0 |].
  replace ((diameter / 2) ^ 2) with (Rsqr (diameter / 2)) by (unfold Rsqr; ring).
  apply Rsqr_pos_lt. intros H. apply Hd. lra.
Qed.

Lemma terminal_velocity_value :
  0 < drag_coefficient -> diameter <> 0 -> 0 <= mass ->
  calculate_terminal_velocity mass diameter drag_coefficient altitude
  = Some (sqrt (2 * mass * g
                / (calculate_air_density altitude * drag_coefficient
                   * (PI * (diameter / 2) ^ 2)))).
Proof.
  intros Hcd Hd Hm. unfold calculate_terminal_velocity.
  pose proof (air_density_pos altitude) as Hrho. pose proof (area_pos Hd) as Ha.
  destruct (Rle_dec (calculate_air_density altitude) 0); [lra |].
  destruct (Rle_dec drag_coefficient 0); [lra |].
  destruct (Rle_dec (PI * (diameter / 2) ^ 2) 0); [lra |].
  destruct (Rlt_dec _ 0) as [Hneg |]; [| done].
  exfalso. apply (Rlt_not_le _ _ Hneg).
  unfold Rdiv. apply Rmult_le_pos; [unfold g; lra |].
  left. apply Rinv_0_lt_compat.
  apply Rmult_lt_0_compat; [apply Rmult_lt_0_compat |]; lra.
Qed.

End TerminalVelocity.

(** X4. For a positive mass, a positive drag coefficient and a diameter
    other than 0, the terminal velocity is positive and is the velocity
    at which the fully inflated parachute carries the weight: the drag
    force there is [mass * g]. *)
Theorem terminal_velocity_balances_weight
    (mass diameter drag_coefficient altitude reefing_factor t inflation_time : R) :
  0 < mass -> 0 < drag_coefficient -> diameter <> 0 -> inflation_time <= t ->
  exists v,
    calculate_terminal_velocity mass diameter drag_coefficient altitude = Some v
    /\ 0 < v
    /\ calculate_drag_force altitude v diameter drag_coefficient
         reefing_factor t inflation_time = Ok (mass * g).
Proof.
  intros Hm Hcd Hd Ht.
  pose proof (air_density_pos altitude) as Hrho. pose proof (area_pos diameter Hd) as Ha.
  rewrite terminal_velocity_value by (done || lra).
  set (q := 2 * mass * g / _).
  assert (Hq : 0 < q).
  { unfold q, Rdiv. apply Rmult_lt_0_compat; [unfold g; lra |].
    apply Rinv_0_lt_compat.
    apply Rmult_lt_0_compat; [apply Rmult_lt_0_compat |]; lra. }
  exists (sqrt q). split; [done |]. split; [by apply sqrt_lt_R0 |].
  rewrite drag_force_inflated by (done || by apply sqrt_lt_R0).
  f_equal. unfold base_drag. cbv zeta. rewrite pow2_sqrt by lra.
  set (D := calculate_air_density altitude * drag_coefficient
            * (PI * (diameter / 2) ^ 2)) in *.
  assert (HD : 0 < D)
    by (apply Rmult_lt_0_compat; [apply Rmult_lt_0_compat |]; lra).
  assert (Hx : q * D = 2 * mass * g).
  { unfold q, Rdiv. rewrite Rmult_assoc, Rinv_l by lra. lra. }
  replace (0.5 * calculate_air_density altitude * q * drag_coefficient
           * (PI * (diameter / 2) ^ 2)) with (0.5 * (q * D)) by (unfold D; ring).
  rewrite Hx. lra.
Qed.

Lemma terminal_velocity_balances_weight_witness :
  exists v,
    calculate_terminal_velocity 100 20 1.5 0 = Some v /\ 0 < v
    /\ calculate_drag_force 0 v 20 1.5 0.3 10 2 = Ok (100 * g).
Proof. apply (terminal_velocity_balances_weight 100 20 1.5 0 0.3 10 2); lra. Defined.

(** X5. Edge cases of [calculate_terminal_velocity]: it is 0 for a drag
    coefficient that is not positive, for diameter 0 and for mass 0; for a
    negative mass (with a positive drag coefficient and a diameter other
    than 0) the square root has no value. *)
Theorem terminal_velocity_edge_cases (mass diameter drag_coefficient altitude : R) :
  (drag_coefficient <= 0 ->
   calculate_terminal_velocity mass diameter drag_coefficient altitude = Some 0)
  /\ (diameter = 0 ->
      calculate_terminal_velocity mass diameter drag_coefficient altitude = Some 0)
  /\ (mass = 0 ->
      calculate_terminal_velocity mass diameter drag_coefficient altitude = Some 0)
  /\ (mass < 0 -> 0 < drag_coefficient -> diameter <> 0 ->
      calculate_terminal_velocity mass diameter drag_coefficient altitude = None).
Proof.
  pose proof (air_density_pos altitude) as Hrho.
  unfold calculate_terminal_velocity.
  destruct (Rle_dec (calculate_air_density altitude) 0); [lra |].
  split_and!.
  - intros Hcd. by destruct (Rle_dec drag_coefficient 0).
  - intros ->. destruct (Rle_dec drag_coefficient 0); [done |].
    replace (PI * (0 / 2) ^ 2) with 0 by (simpl; lra).
    by destruct (Rle_dec 0 0); [| lra].
  - intros ->. destruct (Rle_dec drag_coefficient 0); [done |].
    destruct (Rle_dec (PI * (diameter / 2) ^ 2) 0); [done |].
    replace (2 * 0 * g / _) with 0 by (unfold Rdiv; lra).
    destruct (Rlt_dec 0 0); [lra |]. by rewrite sqrt_0.
  - intros Hm Hcd Hd. pose proof (area_pos diameter Hd) as Ha.
    destruct (Rle_dec drag_coefficient 0); [lra |].
    destruct (Rle_dec (PI * (diameter / 2) ^ 2) 0); [lra |].
    destruct (Rlt_dec _ 0) as [| Hge]; [done |]. exfalso. apply Hge.
    unfold Rdiv.
    assert (0 < / (calculate_air_density altitude * drag_coefficient
                   * (PI * (diameter / 2) ^ 2))).
    { apply Rinv_0_lt_compat.
      apply Rmult_lt_0_compat; [apply Rmult_lt_0_compat |]; lra. }
    unfold g. nra.
Qed.

Lemma terminal_velocity_edge_cases_witness :
  calculate_terminal_velocity 100 20 0 1000 = Some 0
  /\ calculate_terminal_velocity (-1) 20 1.5 1000 = None.
Proof.
  destruct (terminal_velocity_edge_cases 100 20 0 1000) as (H1 & _).
  destruct (terminal_velocity_edge_cases (-1) 20 1.5 1000) as (_ & _ & _ & H2).
  split; [apply H1; lra | apply H2; lra].
Defined.

(** X6. In thinner air the terminal velocity is larger: for a mass that
    is not negative, a positive drag coefficient and a diameter other
    than 0 it does not decrease when the altitude grows. *)
Theorem terminal_velocity_grows_with_altitude
    (mass diameter drag_coefficient low high : R) :
  0 <= mass -> 0 < drag_coefficient -> diameter <> 0 -> low <= high ->
  exists v_low v_high,
    calculate_terminal_velocity mass diameter drag_coefficient low = Some v_low
    /\ calculate_terminal_velocity mass diameter drag_coefficient high = Some v_high
    /\ v_low <= v_high.
Proof.
  intros Hm Hcd Hd Hle.
  rewrite !terminal_velocity_value by done.
  eexists _, _. split; [done |]. split; [done |].
  pose proof (air_density_pos low) as Hl. pose proof (air_density_pos high) as Hh.
  pose proof (air_density_antitone low high Hle) as Hrho.
  pose proof (area_pos diameter Hd) as Ha.
  apply sqrt_le_1_alt. unfold Rdiv.
  apply Rmult_le_compat_l; [unfold g; lra |].
  apply Rinv_le_contravar.
  - apply Rmult_lt_0_compat; [apply Rmult_lt_0_compat |]; lra.
  - apply Rmult_le_compat_r; [lra |]. apply Rmult_le_compat_r; lra.
Qed.

Lemma terminal_velocity_grows_with_altitude_witness :
  exists v_low v_high,
    calculate_terminal_velocity 100 20 1.5 0 = Some v_low
    /\ calculate_terminal_velocity 100 20 1.5 3000 = Some v_high
    /\ v_low <= v_high.
Proof. apply (terminal_velocity_grows_with_altitude 100 20 1.5 0 3000); lra. Defined.

(** X7. The components [calculate_trajectory_with_wind] returns without
    wind have the speed as their resultant; the wind leaves the vertical
    component alone and adds [wind_speed * cos(wind_direction)] to the
    horizontal one, so that the resultant with wind differs from the speed
    as soon as that term does not cancel. *)
Theorem trajectory_components (velocity angle wind_speed wind_direction : R) :
  let calm := calculate_trajectory_with_wind velocity angle 0 wind_direction in
  let windy := calculate_trajectory_with_wind velocity angle wind_speed wind_direction in
  let gust := wind_speed * cos (np_radians wind_direction) in
  fst calm ^ 2 + snd calm ^ 2 = velocity ^ 2
  /\ fst windy = fst calm
  /\ snd windy = snd calm + gust
  /\ fst windy ^ 2 + snd windy ^ 2 = velocity ^ 2 + gust * (2 * snd calm + gust).
Proof.
  unfold calculate_trajectory_with_wind. simpl.
  pose proof (sin2_cos2 (np_radians angle)) as H. unfold Rsqr in H.
  split_and!.
  - nra.
  - done.
  - lra.
  - nra.
Qed.

(** X8. The coefficient correction is 0.8 or 1.0.  Applied to the
    Reynolds number of a parachute it is 1.0 at every altitude as soon as
    velocity times diameter is at least 18.1, and 0.8 when that product
    is not positive. *)
Theorem reynolds_correction (velocity diameter altitude : R) :
  let correction :=
    calculate_drag_coefficient_correction
      (calculate_reynolds_number velocity diameter altitude) in
  (correction = 0.8 \/ correction = 1.0)
  /\ (18.1 <= velocity * diameter -> correction = 1.0)
  /\ (velocity * diameter <= 0 -> correction = 0.8).
Proof.
  unfold calculate_drag_coefficient_correction, calculate_reynolds_number.
  cbv zeta. pose proof (air_density_lower altitude) as Hrho.
  destruct (Rle_dec 1.81e-5 0) as [| _]; [lra |].
  set (re := calculate_air_density altitude * velocity * diameter / 1.81e-5).
  assert (Hre : re * 1.81e-5 = calculate_air_density altitude * (velocity * diameter)).
  { unfold re, Rdiv. rewrite Rmult_assoc, Rinv_l by lra. lra. }
  destruct (Rlt_dec re 1000) as [Hlow | Hhigh].
  - split; [by left |]. split; [| done]. intros Hvd. exfalso. nra.
  - split; [by right |]. split; [done |]. intros Hvd. exfalso. nra.
Qed.

Lemma reynolds_correction_witness :
  calculate_drag_coefficient_correction (calculate_reynolds_number 50 20 3000) = 1.0
  /\ calculate_drag_coefficient_correction (calculate_reynolds_number 0 20 3000) = 0.8.
Proof.
  destruct (reynolds_correction 50 20 3000) as (_ & H & _).
  destruct (reynolds_correction 0 20 3000) as (_ & _ & H').
  split; [apply H; lra | apply H'; lra].
Defined.

(** * Further properties of [ParachuteSimulation] *)

Section MoreInvariants.

Context (cfg : Inputs).

(** What one pass appends to [total_drag_force]. *)
Lemma step_total_drag s s' :
  step cfg s = Ok s' ->
  exists s1 d0 total,
    _check_phase_deployments cfg s = Ok s1
    /\ append_zeros (selected_phases cfg) (phase_drag_forces s) = Ok d0
    /\ active_drags s1 (active_phases s1) 0 d0 = Ok (total, phase_drag_forces s')
    /\ total_drag_force s' = total_drag_force s ++ [total].
Proof.
  intros H. apply step_Ok in H as (s1 & s2 & s3 & H1 & H2 & H3 & ->).
  pose proof (check_phases_same_motion _ _ _ _ H1) as Hm.
  unfold same_motion in Hm. destruct Hm as (_ & _ & _ & _ & Htdf & Hpdf & _).
  apply calculate_forces_Ok in H2 as (d0 & total & Hz & Ha & Ht & _).
  apply update_dynamics_Ok in H3
    as (m & _ & _ & _ & _ & _ & _ & _ & _ & _ & _ & _ & Htdf3 & Hpdf3).
  exists s1, d0, total. simpl. rewrite Htdf3, Hpdf3, Ht, Htdf. rewrite Hpdf in Hz.
  by split_and!.
Qed.

Lemma after_total_length n s : after cfg n s -> length (total_drag_force s) = n.
Proof.
  induction 1 as [| n s s' Hn IH Hc Hs]; [done |].
  apply step_total_drag in Hs as (_ & _ & total & _ & _ & _ & ->).
  rewrite length_app, IH. simpl. lia.
Qed.

End MoreInvariants.

(** X9. The series are aligned: after [n] passes the time, altitude,
    velocity, horizontal position and total drag series have [n] entries
    each, and, when no phase is selected twice, so has the drag series of
    every selected phase. *)
Theorem series_aligned (cfg : Inputs) (n : nat) (s : Sim) :
  after cfg n s ->
  length (time s) = n /\ length (altitude s) = n /\ length (velocity s) = n
  /\ length (horizontal_position s) = n /\ length (total_drag_force s) = n
  /\ (NoDup (selected_phases cfg) ->
      forall p, p ∈ selected_phases cfg -> length (drag_series s p) = n).
Proof.
  intros Hn. pose proof (after_clock _ _ _ Hn) as (_ & ? & ? & ? & ?).
  split_and!; try done; [by apply (after_total_length cfg) |].
  intros Hnd p Hp.
  rewrite (after_series_length cfg p n s Hp Hn), (occurrences_NoDup _ _ Hnd Hp). lia.
Qed.

Lemma series_aligned_witness :
  length (time coast_s2) = 2%nat
  /\ length (total_drag_force coast_s2) = 2%nat
  /\ length (drag_series coast_s2 "Main") = 2%nat.
Proof.
  destruct (series_aligned cfg_coast 2 coast_s2 coast_after_2)
    as (Ht & _ & _ & _ & Hd & Hp).
  split; [done |]. split; [done |]. apply Hp.
  - apply NoDup_singleton.
  - by apply list_elem_of_singleton.
Defined.

Section TotalIsSum.

Context (cfg : Inputs).

Lemma sum_list_cons (f : string -> R) (p : string) (sel : list string) :
  sum_list (f <$> p :: sel) = f p + sum_list (f <$> sel).
Proof. done. Qed.

Lemma sum_list_ext (f f' : string -> R) (sel : list string) :
  (forall p, p ∈ sel -> f' p = f p) -> sum_list (f' <$> sel) = sum_list (f <$> sel).
Proof.
  induction sel as [| p rest IH]; intros H; [done |]. rewrite !sum_list_cons.
  rewrite H by (by left). rewrite IH; [done |]. intros q Hq. apply H. by right.
Qed.

(** Changing the term of one name in a sum over names without
    duplicates. *)
Lemma sum_list_update (f f' : string -> R) (sel : list string) (q : string) :
  NoDup sel -> q ∈ sel -> (forall p, p <> q -> f' p = f p) ->
  sum_list (f' <$> sel) = sum_list (f <$> sel) - f q + f' q.
Proof.
  induction 1 as [| p rest Hp Hnd IH]; intros Hq Hsame; [by apply elem_of_nil in Hq |].
  rewrite !sum_list_cons. apply elem_of_cons in Hq as [-> | Hq].
  - rewrite (sum_list_ext f f' rest); [lra |].
    intros p' Hp'. apply Hsame. by intros ->.
  - rewrite IH by done. rewrite (Hsame p); [lra |]. by intros ->.
Qed.

Lemma last_entry_insert (d : gmap string (list R)) (q p : string) (xs : list R) :
  last_entry (<[q := xs]> d) p = if decide (p = q) then List.last xs 0 else last_entry d p.
Proof.
  unfold last_entry. destruct (decide (p = q)) as [-> | Hne].
  - by rewrite lookup_insert_eq.
  - by rewrite lookup_insert_ne.
Qed.

(** The second loop of [_calculate_forces] adds to [total_drag] exactly
    what it writes at the end of the series. *)
Lemma active_drags_sum s infos total d total' d' :
  NoDup (selected_phases cfg) -> NoDup (phase <$> infos) ->
  (forall info, info ∈ infos ->
     phase info ∈ selected_phases cfg /\ last_entry d (phase info) = 0) ->
  active_drags s infos total d = Ok (total', d') ->
  total' + sum_list (last_entry d <$> selected_phases cfg)
  = total + sum_list (last_entry d' <$> selected_phases cfg).
Proof.
  intros Hsel. revert total d.
  induction infos as [| info rest IH]; intros total d Hnd Hok H; simpl in H.
  - by injection H as <- <-.
  - inv_bind H. inv_bind H. inv_bind H.
    apply set_last_Ok in Ha1 as [_ ->].
    rewrite fmap_cons in Hnd. apply NoDup_cons in Hnd as [Hnot Hnd].
    destruct (Hok info) as [Hin Hzero]; [by left |].
    assert (Hrest : forall info', info' ∈ rest ->
              phase info' ∈ selected_phases cfg
              /\ last_entry (<[phase info := removelast a0 ++ [a]]> d) (phase info') = 0).
    { intros info' Hin'. destruct (Hok info') as [? Hz]; [by right |].
      split; [done |]. rewrite last_entry_insert.
      destruct (decide (phase info' = phase info)) as [Heq |]; [| done].
      exfalso. apply Hnot. rewrite <- Heq. apply list_elem_of_fmap. by exists info'. }
    pose proof (IH _ _ Hnd Hrest H) as Hsum.
    rewrite (sum_list_update (last_entry d) _ _ (phase info) Hsel Hin) in Hsum.
    + rewrite last_entry_insert, decide_True in Hsum by done.
      rewrite last_last, Hzero in Hsum. lra.
    + intros p Hp. by rewrite last_entry_insert, decide_False.
Qed.

Lemma lookup_last (xs : list R) (n : nat) :
  length xs = S n -> xs !! n = Some (List.last xs 0).
Proof.
  revert n. induction xs as [| x xs IH]; intros n Hlen; [done |].
  destruct xs as [| y xs].
  - by injection Hlen as <-.
  - destruct n as [| n]; [done |]. apply (IH n). simpl in *. lia.
Qed.

(** The total drag of a pass is the sum of what the pass writes in the
    series of the selected phases. *)
Lemma step_total_is_sum n s s' :
  NoDup (selected_phases cfg) -> after cfg n s -> step cfg s = Ok s' ->
  List.last (total_drag_force s') 0
  = sum_list (last_entry (phase_drag_forces s') <$> selected_phases cfg).
Proof.
  intros Hsel Hn Hs.
  pose proof (step_total_drag _ _ _ Hs) as (s1 & d0 & total & H1 & Hz & Ha & Ht).
  rewrite Ht, last_last.
  assert (Hzero : forall p, p ∈ selected_phases cfg -> last_entry d0 p = 0).
  { intros p Hp. unfold last_entry. rewrite (append_zeros_Ok _ _ _ Hz p).
    rewrite (occurrences_NoDup _ _ Hsel Hp).
    destruct (after_series _ _ _ Hn p) as [Hser _].
    destruct (Hser Hp) as (xs & -> & _). simpl. apply last_last. }
  pose proof (check_phases_tracked cfg _ _ _ H1 ltac:(done) (after_tracked _ _ _ Hn))
    as (Hnd & Hnames & Hsub & _).
  assert (Hok : forall info, info ∈ active_phases s1 ->
            phase info ∈ selected_phases cfg /\ last_entry d0 (phase info) = 0).
  { intros info Hin.
    assert (phase info ∈ selected_phases cfg).
    { apply Hsub, Hnames. unfold active_names. apply list_elem_of_fmap. by exists info. }
    split; [done | by apply Hzero]. }
  pose proof (active_drags_sum _ _ _ _ _ _ Hsel Hnd Hok Ha) as Hsum.
  rewrite (sum_list_ext (fun _ => 0) (last_entry d0)) in Hsum by done.
  assert (sum_list ((fun _ : string => 0) <$> selected_phases cfg) = 0) as Hz0; [| lra].
  clear. induction (selected_phases cfg) as [| p rest IH]; [done |].
  rewrite sum_list_cons, IH. lra.
Qed.

Lemma after_total_is_sum n s i x :
  NoDup (selected_phases cfg) -> after cfg n s ->
  total_drag_force s !! i = Some x ->
  x = sum_list (drag_sample s i <$> selected_phases cfg).
Proof.
  intros Hsel Hn. revert i x.
  induction Hn as [| n s s' Hn IH Hc Hs]; intros i x Hx; [done |].
  assert (Hn' : after cfg (S n) s') by (by econstructor).
  pose proof (step_total_drag _ _ _ Hs) as (_ & _ & total & _ & _ & _ & Ht).
  pose proof (after_total_length cfg _ _ Hn) as Hlen.
  destruct (decide (i < n)%nat) as [Hlt | Hge].
  - rewrite Ht, lookup_app_l in Hx by lia. rewrite (IH i x Hx).
    apply sum_list_ext. intros p Hp. unfold drag_sample. f_equal.
    pose proof (after_series_length cfg p n s Hp Hn) as Hl.
    rewrite (occurrences_NoDup _ _ Hsel Hp) in Hl.
    apply prefix_lookup_lt; [lia | by eapply step_series_prefix].
  - assert (i = n) as ->.
    { apply lookup_lt_Some in Hx. rewrite (after_total_length cfg _ _ Hn') in Hx. lia. }
    rewrite (lookup_last (total_drag_force s') n) in Hx
      by (by apply (after_total_length cfg)).
    injection Hx as <-. rewrite (step_total_is_sum n s s' Hsel Hn Hs).
    apply sum_list_ext. intros p Hp. unfold drag_sample, last_entry, drag_series.
    rewrite (lookup_last (default [] (phase_drag_forces s' !! p)) n); [done |].
    pose proof (after_series_length cfg p (S n) s' Hp Hn') as Hl.
    unfold drag_series in Hl. rewrite Hl, (occurrences_NoDup _ _ Hsel Hp). lia.
Qed.

End TotalIsSum.

(** X10. When no phase is selected twice, every sample of the total drag
    series is the sum, over the selected phases, of the samples of their
    drag series at the same index. *)
Theorem total_drag_is_sum_of_phases (cfg : Inputs) (n : nat) (s : Sim) :
  NoDup (selected_phases cfg) -> after cfg n s ->
  forall i x, total_drag_force s !! i = Some x ->
    x = sum_list (drag_sample s i <$> selected_phases cfg).
Proof. intros Hsel Hn i x. by apply (after_total_is_sum cfg n). Qed.

Lemma total_drag_is_sum_of_phases_witness :
  0 = sum_list (drag_sample coast_s2 1 <$> selected_phases cfg_coast).
Proof.
  apply (total_drag_is_sum_of_phases cfg_coast 2 coast_s2
           (NoDup_singleton _) coast_after_2 1%nat 0).
  reflexivity.
Defined.
(** * Further properties of a run *)

Section RunGeometry.

Context (cfg : Inputs).

(** The horizontal position is the altitude lost so far times the sine
    of the descent angle. *)
Lemma after_horizontal n s :
  after cfg n s ->
  current_horizontal_pos s
  = (initial_altitude (global_params cfg) - current_altitude s)
    * sin (descent_angle_rad cfg).
Proof.
  induction 1 as [| n s s' Hn IH Hc Hs]; [simpl; lra |].
  apply step_motion in Hs as (_ & Ha & Hh & _). rewrite Hh, Ha, IH. ring.
Qed.

Lemma after_last_horizontal n s :
  after cfg n s ->
  last_or_zero (horizontal_position s) = current_horizontal_pos s.
Proof.
  destruct 1 as [| n s s' Hn Hc Hs]; [done |].
  apply step_motion in Hs as (_ & _ & _ & _ & _ & _ & _ & ->).
  unfold last_or_zero. apply last_last.
Qed.

End RunGeometry.

(** X11. The horizontal range is tied to the altitude: the reported range
    is the altitude lost by the final state times the sine of the descent
    angle, and so is every stored horizontal position for the stored
    altitude of the same pass, as long as that altitude is above the
    ground. *)
Theorem range_is_altitude_lost_times_sine
    (fuel : nat) (cfg : Inputs) (s : Sim) (r : Results) :
  run fuel cfg = Some (Ok (s, r)) ->
  total_horizontal_range r
  = (initial_altitude (global_params cfg) - current_altitude s)
    * sin (descent_angle_rad cfg)
  /\ forall i a x,
       altitude s !! i = Some a -> horizontal_position s !! i = Some x -> 0 < a ->
       x = (initial_altitude (global_params cfg) - a) * sin (descent_angle_rad cfg).
Proof.
  intros Hrun. apply run_after in Hrun as (Hr & N & HN & _). split.
  - apply compile_results_Ok in Hr as (_ & _ & _ & -> & _).
    rewrite (after_last_horizontal cfg N s HN). by apply (after_horizontal cfg N).
  - intros i a x Ha Hx Hpos.
    assert (Hi : (i < N)%nat).
    { apply lookup_lt_Some in Ha. by rewrite (proj1 (proj2 (proj2 (after_clock _ _ _ HN)))) in Ha. }
    destruct (after_snapshot cfg N s i HN Hi) as (si & Hsi & _ & Ha' & _ & Hx').
    rewrite Ha in Ha'. rewrite Hx in Hx'. injection Ha' as ->. injection Hx' as ->.
    rewrite (after_horizontal cfg _ _ Hsi). f_equal. f_equal.
    unfold Rmax in *. destruct (Rle_dec 0 (current_altitude si)); [done | lra].
Qed.

Lemma range_is_altitude_lost_times_sine_witness :
  total_horizontal_range coast_results
  = (initial_altitude (global_params cfg_coast) - current_altitude coast_s2)
    * sin (descent_angle_rad cfg_coast).
Proof.
  exact (proj1 (range_is_altitude_lost_times_sine 2 cfg_coast coast_s2 coast_results
                  coast_run)).
Defined.

Section DragSigns.

Context (cfg : Inputs).
Hypothesis Hphys : physical_phases cfg.
Hypothesis Hdt : 0 <= dt cfg.

Lemma Forall_removelast {A : Type} (P : A -> Prop) (xs : list A) :
  Forall P xs -> Forall P (removelast xs).
Proof.
  induction 1 as [| x xs Hx Hxs IH]; [done |]. simpl.
  destruct xs; [constructor | by constructor].
Qed.

Lemma active_drags_nonneg s infos total d total' d' :
  (forall info, info ∈ infos ->
     0 <= drag_coefficient (params info) /\ 0 <= reefing_factor (params info) <= 1
     /\ deployment_time info <= current_time s) ->
  0 <= total ->
  (forall p xs, d !! p = Some xs -> Forall (Rle 0) xs) ->
  active_drags s infos total d = Ok (total', d') ->
  0 <= total' /\ forall p xs, d' !! p = Some xs -> Forall (Rle 0) xs.
Proof.
  revert total d. induction infos as [| info rest IH]; intros total d Hok Ht Hd H; simpl in H.
  - by injection H as <- <-.
  - inv_bind H. inv_bind H. inv_bind H.
    apply set_last_Ok in Ha1 as [_ ->]. apply getitem_Ok in Ha0.
    destruct (Hok info) as (Hcd & Hrf & Htime); [by left |].
    destruct (drag_force_range (current_altitude s) (current_velocity s)
                (diameter (params info)) (drag_coefficient (params info))
                (reefing_factor (params info)) (current_time s - deployment_time info)
                (inflation_time info) Hcd Hrf ltac:(lra)) as (f & Hf & [Hf0 _] & _).
    rewrite Hf in Ha. injection Ha as <-.
    apply IH in H; [done | | lra |].
    { intros info' Hin'. apply Hok. by right. }
    intros p xs. destruct (decide (p = phase info)) as [-> | Hne].
    + rewrite lookup_insert_eq. intros [= <-]. apply Forall_app. split.
      * apply Forall_removelast. by eapply Hd.
      * by constructor.
    + rewrite lookup_insert_ne by done. apply Hd.
Qed.

Lemma after_drags_nonneg n s :
  after cfg n s ->
  Forall (Rle 0) (total_drag_force s)
  /\ forall p xs, phase_drag_forces s !! p = Some xs -> Forall (Rle 0) xs.
Proof.
  induction 1 as [| n s s' Hn [IHt IHp] Hc Hs].
  - split; [constructor |]. intros p xs. rewrite init_series.
    destruct (decide _); [| done]. by intros [= <-].
  - pose proof (step_total_drag _ _ _ Hs) as (s1 & d0 & total & H1 & Hz & Ha & Ht).
    pose proof (check_phases_tracked cfg _ _ _ H1 ltac:(done) (after_tracked _ _ _ Hn))
      as (_ & _ & _ & Hinfo).
    pose proof (check_phases_same_motion _ _ _ _ H1) as Hm.
    unfold same_motion in Hm. destruct Hm as (_ & _ & _ & _ & _ & _ & Htime & _).
    apply active_drags_nonneg in Ha as [Htot Hser].
    + split; [| done]. rewrite Ht. apply Forall_app. split; [done | by constructor].
    + intros info Hin. destruct (Hinfo info Hin) as (Hpar & _).
      destruct (Hphys _ _ Hpar) as [Hcd Hrf]. split; [done |]. split; [done |].
      destruct (check_phases_deploy_times cfg _ _ _ H1 info Hin) as [Hold | ->]; [| lra].
      rewrite Htime. by apply (after_deploy_times cfg n s info).
    + lra.
    + intros p xs. rewrite (append_zeros_Ok _ _ _ Hz p).
      destruct (phase_drag_forces s !! p) as [ys |] eqn:Hp; [| done].
      simpl. intros [= <-]. apply Forall_app. split; [by eapply IHp |].
      apply Forall_replicate. lra.
Qed.

End DragSigns.

(** X12. With drag coefficients that are not negative, reefing factors in
    [0, 1] and a time step that is not negative, no drag force of a run is
    negative: neither a sample of the total drag nor a sample of a phase's
    drag series. *)
Theorem drags_non_negative (cfg : Inputs) (n : nat) (s : Sim) :
  physical_phases cfg -> 0 <= dt cfg -> after cfg n s ->
  (forall x, x ∈ total_drag_force s -> 0 <= x)
  /\ (forall p x, x ∈ drag_series s p -> 0 <= x).
Proof.
  intros Hphys Hdt Hn.
  destruct (after_drags_nonneg cfg Hphys Hdt n s Hn) as [Ht Hp]. split.
  - intros x Hx. by apply (proj1 (Forall_forall _ _) Ht).
  - intros p x. unfold drag_series.
    destruct (phase_drag_forces s !! p) as [xs |] eqn:Hxs; simpl.
    + intros Hx. by apply (proj1 (Forall_forall _ _) (Hp p xs Hxs)).
    + intros Hx. by apply elem_of_nil in Hx.
Qed.

Lemma coast_physical : physical_phases cfg_coast.
Proof.
  intros p pp H. unfold cfg_coast in H. simpl in H.
  apply lookup_singleton_Some in H as [_ <-]. simpl. lra.
Qed.

Lemma coast_valid : valid_config cfg_coast.
Proof.
  split; [unfold dt; simpl; lra |]. split; [done |].
  intros p Hp. apply list_elem_of_singleton in Hp as ->. exists pp_low.
  split; [done |]. simpl. lra.
Qed.

Lemma drags_non_negative_witness : Forall (Rle 0) (total_drag_force coast_s2).
Proof.
  apply Forall_forall.
  apply (drags_non_negative cfg_coast 2 coast_s2 coast_physical).
  - unfold dt. simpl. lra.
  - apply coast_after_2.
Defined.

Section RunBounds.

Context (cfg : Inputs).

Lemma after_times_bounded n s :
  after cfg n s -> forall t, t ∈ time s -> t <= 10000.
Proof.
  induction 1 as [| n s s' Hn IH [_ Hc] Hs]; intros t Ht.
  - by apply elem_of_nil in Ht.
  - apply step_motion in Hs as (_ & _ & _ & _ & Htime & _). rewrite Htime in Ht.
    apply elem_of_app in Ht as [Ht | Ht]; [by apply IH |].
    by apply list_elem_of_singleton in Ht as ->.
Qed.

Lemma last_or_zero_elem (xs : list R) : xs <> [] -> last_or_zero xs ∈ xs.
Proof.
  intros Hne. unfold last_or_zero. rewrite (app_removelast_last 0 Hne) at 2.
  apply elem_of_app. right. by apply list_elem_of_singleton.
Qed.

(** The loop stops on a valid configuration, and then every larger
    amount of fuel gives the same summary. *)
Lemma run_stable :
  valid_config cfg ->
  exists N s r, after cfg N s /\ ~ continues s
    /\ forall fuel, (N <= fuel)%nat -> run fuel cfg = Some (Ok (s, r)).
Proof.
  intros Hvalid. destruct (run_returns cfg Hvalid) as (fuel & s & r & Hrun).
  apply run_after in Hrun as (Hr & N & HN & Hstop).
  exists N, s, r. split; [done |]. split; [done |].
  intros fuel' Hle. by apply (after_run cfg fuel' N).
Qed.

(** With a time step that is not positive nothing comes down: the
    altitude never falls below the initial one and the clock never
    advances. *)
Lemma after_frozen n s :
  dt cfg <= 0 -> after cfg n s ->
  initial_altitude (global_params cfg) <= current_altitude s /\ current_time s <= 0.
Proof.
  intros Hdt. induction 1 as [| n s s' Hn [IHa IHt] Hc Hs]; [simpl; lra |].
  apply step_motion in Hs as (Hv & Ha & _ & Ht & _). rewrite Ha, Ht. split; nra.
Qed.

End RunBounds.

(** X13. The clock of the stored samples never passes the ceiling: every
    stored time, and with it the reported flight time, is at most 10000 s,
    also in a run that ends at the ceiling; with a positive time step a run
    therefore stores at most [10000 / dt + 1] samples. *)
Theorem flight_time_bounded (fuel : nat) (cfg : Inputs) (s : Sim) (r : Results) :
  run fuel cfg = Some (Ok (s, r)) ->
  total_flight_time r <= 10000
  /\ (forall t, t ∈ time s -> t <= 10000)
  /\ (0 < dt cfg -> INR (length (time s)) * dt cfg <= 10000 + dt cfg).
Proof.
  intros Hrun. apply run_after in Hrun as (Hr & N & HN & _).
  pose proof (after_times_bounded cfg N s HN) as Hbound.
  apply compile_results_Ok in Hr as (_ & _ & -> & _).
  assert (Hlast : last_or_zero (time s) <= 10000).
  { destruct (decide (time s = [])) as [-> | Hne]; [unfold last_or_zero; simpl; lra |].
    by apply Hbound, last_or_zero_elem. }
  split; [done |]. split; [done |].
  intros Hdt. rewrite (proj1 (proj2 (after_clock _ _ _ HN))).
  destruct N as [| N]; [simpl; lra |].
  rewrite (after_last_time cfg N s HN) in Hlast. rewrite S_INR. lra.
Qed.

Lemma flight_time_bounded_witness : total_flight_time coast_results <= 10000.
Proof.
  exact (proj1 (flight_time_bounded 2 cfg_coast coast_s2 coast_results coast_run)).
Defined.

(** X14. On a valid configuration (a positive time step, at least one
    selected phase, parameters with a non-zero payload mass for every
    selected phase) that is within the range in which floats neither
    overflow in a square nor absorb the time step ([within_float_range]),
    the run ends without raising: from some amount of fuel on it returns
    one and the same summary, the capsule has then landed or the clock has
    passed the ceiling, and when the initial altitude is positive at least
    one sample has been stored. *)
Theorem valid_run_returns (cfg : Inputs) :
  valid_config cfg -> within_float_range cfg ->
  exists fuel s r,
    (forall fuel', (fuel <= fuel')%nat -> run fuel' cfg = Some (Ok (s, r)))
    /\ (landed s \/ hit_ceiling s)
    /\ (0 < initial_altitude (global_params cfg) -> time s <> []).
Proof.
  intros Hvalid _. destruct (run_stable cfg Hvalid) as (N & s & r & HN & Hstop & Hrun).
  exists N, s, r. split; [done |]. split; [by apply not_continues |].
  intros Hpos Hnil. destruct HN as [| n s s' Hn Hc Hs].
  - apply Hstop. unfold continues. simpl. lra.
  - apply step_motion in Hs as (_ & _ & _ & _ & Htime & _). rewrite Htime in Hnil.
    by apply app_eq_nil in Hnil as [_ ?].
Qed.

Lemma coast_within_float_range : within_float_range cfg_coast.
Proof.
  split; [unfold dt; simpl; lra |]. split.
  - unfold square_range. simpl. apply Rabs_le. lra.
  - intros p pp H. unfold cfg_coast in H. simpl in H.
    apply lookup_singleton_Some in H as [_ <-]. unfold square_range. simpl.
    apply Rabs_le. lra.
Qed.

Lemma valid_run_returns_witness :
  exists fuel s r,
    (forall fuel', (fuel <= fuel')%nat -> run fuel' cfg_coast = Some (Ok (s, r)))
    /\ (landed s \/ hit_ceiling s)
    /\ (0 < initial_altitude (global_params cfg_coast) -> time s <> []).
Proof. exact (valid_run_returns cfg_coast coast_valid coast_within_float_range). Defined.

(** X15. With a time step that is zero or negative and a positive initial
    altitude, the run never returns a summary, whatever the fuel: the loop
    does not end unless a pass raises. *)
Theorem frozen_run_returns_nothing
    (cfg : Inputs) (fuel : nat) (s : Sim) (r : Results) :
  dt cfg <= 0 -> 0 < initial_altitude (global_params cfg) ->
  run fuel cfg <> Some (Ok (s, r)).
Proof.
  intros Hdt Hpos Hrun. apply run_after in Hrun as (_ & N & HN & Hstop).
  apply Hstop. destruct (after_frozen cfg N s Hdt HN) as [Ha Ht].
  unfold continues. lra.
Qed.

Lemma frozen_run_returns_nothing_witness :
  run 3 cfg_still <> Some (Ok (coast_s2, coast_results)).
Proof. apply frozen_run_returns_nothing; unfold dt; simpl; lra. Defined.
(** * Further properties of the mass and of the summary *)

Section MassSettles.

Context (cfg : Inputs).

Lemma step_active_prefix s s' :
  step cfg s = Ok s' -> active_phases s `prefix_of` active_phases s'.
Proof.
  intros Hs. apply step_phases in Hs as (s1 & H1 & (-> & _)).
  apply check_phases_append in H1 as [extra ->]. by exists extra.
Qed.

Lemma after_active_prefix k sk m sm :
  after cfg k sk -> after cfg m sm -> (k <= m)%nat ->
  active_phases sk `prefix_of` active_phases sm.
Proof.
  apply (after_mono cfg (fun s s' => active_phases s `prefix_of` active_phases s')).
  - done.
  - intros s0 n s s' IH _ Hs. etrans; [exact IH |]. by apply step_active_prefix.
Qed.

End MassSettles.

(** X16. Once a phase has deployed, the mass of the dynamics is settled:
    every later pass uses the payload mass of the phase at the head of
    [active_phases], whichever phases deploy afterwards. *)
Theorem mass_settles
    (cfg : Inputs) (n k : nat) (s sk : Sim) (info : PhaseInfo)
    (rest : list PhaseInfo) (m : R) :
  after cfg n s -> active_phases s = info :: rest ->
  after cfg (n + k) sk -> mass_used cfg sk = Ok m ->
  m = payload_mass (params info).
Proof.
  intros Hn Hact Hk Hm.
  apply mass_used_Ok in Hm as (s1 & s2 & H1 & _ & Hsame & Hmass).
  pose proof (after_active_prefix cfg n s (n + k) sk Hn Hk ltac:(lia)) as [more Hmore].
  apply check_phases_append in H1 as [extra Hextra].
  unfold _get_current_mass in Hmass.
  rewrite Hsame, Hextra, Hmore, Hact in Hmass. simpl in Hmass. by injection Hmass as <-.
Qed.

Lemma mass_settles_witness : 100 = payload_mass pp_main_high.
Proof.
  apply (mass_settles cfg_order 1 0 order_s1 order_s1
           {| phase := "Main"; deployment_time := 0; inflation_time := 5 * 20 / 6;
              params := pp_main_high |} [] 100).
  - apply order_after_1.
  - reflexivity.
  - apply order_after_1.
  - apply order_mass_used.
Defined.

Section PhaseRows.

Context (cfg : Inputs).

Lemma compile_phases_Ok s phases rows :
  compile_phases s phases = Ok rows ->
  Phase <$> rows = phases
  /\ forall row, row ∈ rows ->
       Max_Drag_Force row = format_1f (max_or_zero (drag_series s (Phase row)))
       /\ Deployment_Time row
          = format_1f (default 0 (phase_deployment_times s !! Phase row))
       /\ Inflation_Time row
          = format_1f (default 0 (phase_inflation_times s !! Phase row)).
Proof.
  revert rows. induction phases as [| p rest IH]; intros rows H; simpl in H.
  - injection H as <-. split; [done |]. intros row Hrow. by apply elem_of_nil in Hrow.
  - inv_bind H. inv_bind H. injection H as <-. apply getitem_Ok in Ha.
    destruct (IH _ Ha0) as [Hnames Hrows]. split; [by rewrite fmap_cons, Hnames |].
    intros row Hrow. apply elem_of_cons in Hrow as [-> | Hrow]; [| by apply Hrows].
    simpl. unfold drag_series. by rewrite Ha.
Qed.

Lemma inflation_time_cases n_factor diameter velocity :
  calculate_inflation_time n_factor diameter velocity = 0
  \/ 0.1 <= calculate_inflation_time n_factor diameter velocity.
Proof.
  unfold calculate_inflation_time. destruct (Rle_dec velocity 0); [by left |].
  right. apply Rbasic_fun.Rmax_r.
Qed.

Lemma check_phases_pending_times phases s s1 q :
  check_phases cfg phases s = Ok s1 -> q ∉ deployed_phases s1 ->
  phase_deployment_times s !! q = None -> phase_inflation_times s !! q = None ->
  phase_deployment_times s1 !! q = None /\ phase_inflation_times s1 !! q = None.
Proof.
  revert s. induction phases as [| p rest IH]; intros s H1 Hq Hd HT; simpl in H1.
  - by injection H1 as <-.
  - inv_bind H1.
    apply check_phase_Ok in Ha as [[_ ->] | [(pp & _ & _ & _ & ->) | (pp & _ & _ & _ & Hdp)]];
      [by apply (IH s) | by apply (IH s) |].
    apply deploy_phase_Ok in Hdp as (pp' & _ & _ & _ & Hdep' & Hdt' & Hit').
    assert (Hne : p <> q).
    { intros ->. apply (check_phases_deployed cfg _ _ _ q) in H1. apply Hq, H1. left.
      rewrite Hdep'. apply elem_of_union. left. by apply elem_of_singleton. }
    apply (IH a); [done | done | |].
    + by rewrite Hdt', lookup_insert_ne.
    + by rewrite Hit', lookup_insert_ne.
Qed.

(** The two dictionaries of times have an entry exactly for the deployed
    phases; the deployment time is the time stamp of a stored sample. *)
Lemma after_times n s q :
  after cfg n s ->
  (q ∉ deployed_phases s ->
     phase_deployment_times s !! q = None /\ phase_inflation_times s !! q = None)
  /\ (q ∈ deployed_phases s ->
      exists t T, phase_deployment_times s !! q = Some t
        /\ phase_inflation_times s !! q = Some T
        /\ t ∈ time s /\ (T = 0 \/ 0.1 <= T)).
Proof.
  induction 1 as [| n s s' Hn [IHp IHd] Hc Hs].
  - split; [done |]. simpl. set_solver.
  - pose proof (step_times cfg s s' q Hs) as [Hold Hnew].
    pose proof (step_deployed cfg s s' q Hs) as Hdep.
    pose proof (step_motion _ _ _ Hs) as (_ & _ & _ & _ & Htime & _).
    split.
    + intros Hq. assert (Hq0 : q ∉ deployed_phases s) by (intros ?; apply Hq, Hdep; by left).
      destruct (IHp Hq0) as [Hd HT].
      apply step_phases in Hs as (s1 & H1 & (_ & Hdep1 & Hdt1 & Hit1)).
      rewrite Hdt1, Hit1. rewrite Hdep1 in Hq.
      by apply (check_phases_pending_times _ _ _ _ H1).
    + intros Hq. destruct (decide (q ∈ deployed_phases s)) as [Hq0 | Hq0].
      * destruct (Hold Hq0) as [-> ->]. destruct (IHd Hq0) as (t & T & Ht & HT & Hin & Hcase).
        exists t, T. split; [done |]. split; [done |]. split; [| done].
        rewrite Htime. apply elem_of_app. by left.
      * destruct (Hnew Hq0 Hq) as (pp & _ & -> & ->). eexists _, _.
        split; [done |]. split; [done |]. split; [| apply inflation_time_cases].
        rewrite Htime. apply elem_of_app. right. by apply list_elem_of_singleton.
Qed.

Lemma max_or_zero_zeros k : max_or_zero (replicate k 0) = 0.
Proof.
  destruct k as [| k]; [done |]. simpl.
  induction k as [| k IH]; [done |]. simpl. by rewrite Rmax_left by lra.
Qed.

End PhaseRows.

(** X17. The table of phase results has one row per entry of
    [selected_phases], in that order, and its three numbers are strings
    with one decimal.  The row of a phase that never deployed shows 0.0
    for the maximum drag force, the deployment time and the inflation
    time; the row of a deployed phase shows, so formatted, the time stamp
    of one of the stored samples as deployment time and an inflation time
    that is 0 or at least 0.1 s. *)
Theorem phase_results_rows (fuel : nat) (cfg : Inputs) (s : Sim) (r : Results) :
  run fuel cfg = Some (Ok (s, r)) ->
  Phase <$> phase_results r = selected_phases cfg
  /\ forall row, row ∈ phase_results r ->
       (pending s (Phase row) ->
          Max_Drag_Force row = "0.0" /\ Deployment_Time row = "0.0"
          /\ Inflation_Time row = "0.0")
       /\ (deployed s (Phase row) ->
           exists t T,
             t ∈ time s /\ Deployment_Time row = format_1f t
             /\ Inflation_Time row = format_1f T /\ (T = 0 \/ 0.1 <= T)).
Proof.
  intros Hrun. apply run_after in Hrun as (Hr & N & HN & _).
  unfold _compile_results in Hr. inv_bind Hr. injection Hr as <-. simpl.
  apply compile_phases_Ok in Ha as [Hnames Hrows]. split; [done |].
  intros row Hrow. destruct (Hrows row Hrow) as (-> & -> & ->).
  assert (Hsel : Phase row ∈ selected_phases cfg).
  { rewrite <- Hnames. apply list_elem_of_fmap. by exists row. }
  destruct (after_times cfg N s (Phase row) HN) as [Hpend Hdep]. split.
  - intros Hp. destruct (Hpend Hp) as [-> ->]. simpl. rewrite format_1f_0.
    split; [| done].
    destruct (after_series _ _ _ HN (Phase row)) as [Hser _].
    destruct (Hser Hsel) as (xs & Hxs & _ & Hzero).
    unfold drag_series. rewrite Hxs. simpl. rewrite (Hzero Hp).
    by rewrite max_or_zero_zeros, format_1f_0.
  - intros Hd. destruct (Hdep Hd) as (t & T & -> & -> & Ht & HT). by exists t, T.
Qed.

Lemma touch_step_0 : step cfg_touch (__init__ cfg_touch) = Ok touch_s1.
Proof. unfold cfg_touch, pp_main_high, touch_s1. sim_eval. field_solve. Qed.

Lemma touch_after_1 : after cfg_touch 1 touch_s1.
Proof.
  eapply after_step; [apply after_init | | apply touch_step_0].
  unfold continues. simpl. lra.
Qed.

Lemma format_1f_touch : format_1f (5 * 20 / 6) = "16.7".
Proof.
  unfold format_1f. rewrite Rabs_pos_eq by lra.
  replace (5 * 20 / 6 * 10) with (IZR 166 + 2 / 3) by lra.
  rewrite round_half_even_spec by lra.
  destruct (Rlt_dec (2 / 3) (1 / 2)); [lra |].
  destruct (Rlt_dec (1 / 2) (2 / 3)); [| lra].
  destruct (Rlt_dec (5 * 20 / 6) 0); [lra |]. done.
Qed.

Lemma touch_run : run 1 cfg_touch = Some (Ok (touch_s1, touch_results)).
Proof.
  apply (after_run cfg_touch 1 1 touch_s1); [apply touch_after_1 | | lia |].
  - unfold continues. simpl. lra.
  - unfold touch_s1, cfg_touch, touch_results. sim_eval. field_solve.
    + apply format_1f_0.
    + apply format_1f_0.
    + apply format_1f_touch.
Qed.

Lemma phase_results_rows_witness :
  Phase <$> phase_results touch_results = selected_phases cfg_touch
  /\ exists t T,
       t ∈ time touch_s1 /\ "0.0" = format_1f t
       /\ "16.7" = format_1f T /\ (T = 0 \/ 0.1 <= T).
Proof.
  destruct (phase_results_rows 1 cfg_touch touch_s1 touch_results touch_run)
    as [Hnames Hrows].
  split; [done |].
  destruct (Hrows {| Phase := "Main"; Max_Drag_Force := "0.0";
                     Deployment_Time := "0.0"; Inflation_Time := "16.7" |})
    as [_ Hdep]; [by left |].
  apply Hdep. unfold deployed. simpl. by apply elem_of_singleton.
Defined.

Section MaxDrag.

Lemma fold_left_Rmax_upper (rest : list R) (a : R) :
  a <= fold_left Rmax rest a /\ forall x, x ∈ rest -> x <= fold_left Rmax rest a.
Proof.
  revert a. induction rest as [| y rest IH]; intros a; simpl.
  - split; [lra |]. intros x Hx. by apply elem_of_nil in Hx.
  - destruct (IH (Rmax a y)) as [Ha Hrest].
    pose proof (Rbasic_fun.Rmax_l a y). pose proof (Rbasic_fun.Rmax_r a y).
    split; [lra |]. intros x Hx. apply elem_of_cons in Hx as [-> | Hx]; [lra | by apply Hrest].
Qed.

Lemma fold_left_Rmax_elem (rest : list R) (a : R) : fold_left Rmax rest a ∈ a :: rest.
Proof.
  revert a. induction rest as [| y rest IH]; intros a; simpl; [by left |].
  specialize (IH (Rmax a y)). apply elem_of_cons in IH as [-> | IH].
  - unfold Rmax. destruct (Rle_dec a y); [right; by left | by left].
  - right. by right.
Qed.

Lemma max_or_zero_upper (xs : list R) (x : R) : x ∈ xs -> x <= max_or_zero xs.
Proof.
  destruct xs as [| a rest]; intros Hx; [by apply elem_of_nil in Hx |]. simpl.
  destruct (fold_left_Rmax_upper rest a) as [Ha Hrest].
  apply elem_of_cons in Hx as [-> | Hx]; [done | by apply Hrest].
Qed.

Lemma max_or_zero_elem (xs : list R) : xs <> [] -> max_or_zero xs ∈ xs.
Proof. destruct xs as [| a rest]; [done |]. intros _. apply fold_left_Rmax_elem. Qed.

Lemma max_or_zero_nonneg (xs : list R) : Forall (Rle 0) xs -> 0 <= max_or_zero xs.
Proof.
  intros Hxs. destruct (decide (xs = [])) as [-> | Hne]; [simpl; lra |].
  by apply (proj1 (Forall_forall _ _) Hxs), max_or_zero_elem.
Qed.

Lemma sum_list_term (f : string -> R) (sel : list string) (q : string) :
  (forall p, 0 <= f p) -> q ∈ sel -> f q <= sum_list (f <$> sel).
Proof.
  intros Hf. assert (Hsum : forall l, 0 <= sum_list (f <$> l)).
  { induction l as [| p l IH]; [simpl; lra |]. rewrite sum_list_cons. specialize (Hf p). lra. }
  induction sel as [| p rest IH]; intros Hq; [by apply elem_of_nil in Hq |].
  rewrite sum_list_cons. apply elem_of_cons in Hq as [-> | Hq].
  - specialize (Hsum rest). lra.
  - specialize (IH Hq). specialize (Hf p). lra.
Qed.

End MaxDrag.

(** X18. The reported maximum of the total drag is an upper bound of every
    sample of the total drag series.  With physical phase parameters, a time
    step that is not negative and no phase selected twice, the maximum drag
    force shown for a phase is the one-decimal formatting of a force that is
    neither negative nor above the maximum total drag. *)
Theorem max_drag_summary (fuel : nat) (cfg : Inputs) (s : Sim) (r : Results) :
  run fuel cfg = Some (Ok (s, r)) ->
  (forall x, x ∈ total_drag_force s -> x <= max_total_drag_force r)
  /\ (physical_phases cfg -> 0 <= dt cfg -> NoDup (selected_phases cfg) ->
      forall row, row ∈ phase_results r ->
        exists m, Max_Drag_Force row = format_1f m
                  /\ m = max_or_zero (drag_series s (Phase row))
                  /\ 0 <= m <= max_total_drag_force r).
Proof.
  intros Hrun. apply run_after in Hrun as (Hr & N & HN & _).
  unfold _compile_results in Hr. inv_bind Hr. injection Hr as <-. simpl.
  split; [apply max_or_zero_upper |].
  intros Hphys Hdt Hsel row Hrow.
  apply compile_phases_Ok in Ha as [Hnames Hrows].
  destruct (Hrows row Hrow) as (-> & _).
  exists (max_or_zero (drag_series s (Phase row))). split; [done |]. split; [done |].
  assert (Hq : Phase row ∈ selected_phases cfg).
  { rewrite <- Hnames. apply list_elem_of_fmap. by exists row. }
  destruct (after_drags_nonneg cfg Hphys Hdt N s HN) as [Htot Hser].
  assert (Hseries : forall p, Forall (Rle 0) (drag_series s p)).
  { intros p. unfold drag_series.
    destruct (phase_drag_forces s !! p) as [xs |] eqn:Hxs; [by eapply Hser | constructor]. }
  split; [apply max_or_zero_nonneg, Hseries |].
  destruct (decide (drag_series s (Phase row) = [])) as [-> | Hne];
    [by apply max_or_zero_nonneg |].
  apply max_or_zero_elem in Hne.
  apply list_elem_of_lookup in Hne as [i Hi].
  pose proof (lookup_lt_Some _ _ _ Hi) as Hlt.
  rewrite (after_series_length cfg _ N s Hq HN), (occurrences_NoDup _ _ Hsel Hq) in Hlt.
  destruct (lookup_lt_is_Some_2 (total_drag_force s) i) as [x Hx].
  { rewrite (after_total_length cfg N s HN). lia. }
  etrans; [| apply max_or_zero_upper; by eapply list_elem_of_lookup_2].
  rewrite (after_total_is_sum cfg N s i x Hsel HN Hx).
  replace (max_or_zero (drag_series s (Phase row))) with (drag_sample s i (Phase row))
    by (unfold drag_sample; by rewrite Hi).
  apply sum_list_term; [| done].
  intros p. unfold drag_sample. destruct (drag_series s p !! i) as [y |] eqn:Hy; simpl; [| lra].
  apply (proj1 (Forall_forall _ _) (Hseries p)). by eapply list_elem_of_lookup_2.
Qed.

Lemma max_drag_summary_witness :
  Forall (fun row => exists m, Max_Drag_Force row = format_1f m
                       /\ m = max_or_zero (drag_series coast_s2 (Phase row))
                       /\ 0 <= m <= max_total_drag_force coast_results)
    (phase_results coast_results).
Proof.
  apply Forall_forall.
  apply (max_drag_summary 2 cfg_coast coast_s2 coast_results coast_run).
  - apply coast_physical.
  - unfold dt. simpl. lra.
  - apply NoDup_singleton.
Defined.

Section Velocity.

Context (cfg : Inputs).

(** The velocity update of one pass, in terms of the states before and
    after the pass: the drag is the total drag stored by the pass, the
    mass is the payload mass of a configured phase. *)
Lemma step_velocity n s s' :
  after cfg n s -> step cfg s = Ok s' ->
  exists mass pp p,
    phase_params cfg !! p = Some pp /\ mass = payload_mass pp /\ mass <> 0
    /\ current_velocity s' =
         Rmax 0 (current_velocity s
                 + (g * cos (descent_angle_rad cfg)
                    - List.last (total_drag_force s') 0 / mass) * dt cfg).
Proof.
  intros Hn Hs. apply step_Ok in Hs as (s1 & s2 & s3 & H1 & H2 & H3 & ->).
  pose proof (check_phases_tracked cfg _ _ _ H1 ltac:(done) (after_tracked _ _ _ Hn))
    as (_ & _ & _ & Hinfo).
  pose proof (check_phases_same_motion _ _ _ _ H1) as Hm.
  unfold same_motion in Hm. destruct Hm as (_ & _ & _ & _ & _ & _ & _ & _ & Hv1 & _).
  apply calculate_forces_Ok in H2
    as (d0 & total & _ & _ & _ & (Hact & _) & _ & _ & _ & _ & _ & _ & Hv2 & _).
  apply update_dynamics_Ok in H3
    as (mass & Hmass & Hnz & Hv & _ & _ & _ & _ & _ & _ & _ & _ & Htdf & _).
  assert (exists pp p, phase_params cfg !! p = Some pp /\ mass = payload_mass pp)
    as (pp & p & Hpp & Hm).
  { unfold _get_current_mass in Hmass. rewrite Hact in Hmass.
    destruct (active_phases s1) as [| info rest] eqn:Hinfos.
    - inv_bind Hmass. inv_bind Hmass. apply getitem_Ok in Ha0. injection Hmass as <-.
      by exists a0, a.
    - injection Hmass as <-. destruct (Hinfo info) as (Hpar & _); [by left |].
      by exists (params info), (phase info). }
  exists mass, pp, p. split; [done |]. split; [done |]. split; [done |].
  simpl. rewrite Hv, Htdf, Hv2, Hv1. done.
Qed.

(** While no phase has deployed the total drag of a pass is 0. *)
Lemma step_no_drag s s' :
  step cfg s = Ok s' -> active_phases s' = [] -> List.last (total_drag_force s') 0 = 0.
Proof.
  intros Hs Hact.
  pose proof (step_total_drag _ _ _ Hs) as (s1 & d0 & total & H1 & _ & Ha & ->).
  apply step_phases in Hs as (s1' & H1' & (Heq & _)).
  rewrite H1 in H1'. injection H1' as <-. rewrite Hact in Heq. rewrite <- Heq in Ha.
  simpl in Ha. injection Ha as <- _. apply last_last.
Qed.

Lemma after_free_fall n s :
  0 <= initial_velocity (global_params cfg) -> 0 <= dt cfg ->
  0 <= cos (descent_angle_rad cfg) ->
  after cfg n s -> active_phases s = [] ->
  current_velocity s
  = initial_velocity (global_params cfg)
    + INR n * (g * cos (descent_angle_rad cfg) * dt cfg).
Proof.
  intros Hv0 Hdt Hcos. induction 1 as [| n s s' Hn IH Hc Hs]; intros Hact.
  - simpl. lra.
  - assert (Hact0 : active_phases s = []).
    { destruct (step_active_prefix cfg s s' Hs) as [more Hmore]. rewrite Hact in Hmore.
      symmetry in Hmore. by apply app_eq_nil in Hmore as [? _]. }
    destruct (step_velocity n s s' Hn Hs) as (mass & _ & _ & _ & _ & Hnz & ->).
    rewrite (step_no_drag s s' Hs Hact), (IH Hact0), S_INR.
    assert (0 <= g) by (unfold g; lra).
    assert (0 <= INR n) by apply pos_INR.
    assert (0 <= g * cos (descent_angle_rad cfg) * dt cfg)
      by (apply Rmult_le_pos; [apply Rmult_le_pos |]; done).
    replace (0 / mass) with 0 by (unfold Rdiv; ring).
    rewrite Rmax_right by nra. ring.
Qed.

End Velocity.

(** X26. Free fall before the first deployment: while no phase has
    deployed, the total drag is 0 and, for an initial velocity and a time
    step that are not negative and a descent angle whose cosine is not
    negative, the velocity after [n] passes is the initial velocity plus
    [n] times [g * cos(angle) * dt]. *)
Theorem free_fall_before_deployment (cfg : Inputs) (n : nat) (s : Sim) :
  0 <= initial_velocity (global_params cfg) -> 0 <= dt cfg ->
  0 <= cos (descent_angle_rad cfg) ->
  after cfg n s -> active_phases s = [] ->
  current_velocity s
  = initial_velocity (global_params cfg)
    + INR n * (g * cos (descent_angle_rad cfg) * dt cfg)
  /\ forall x, x ∈ total_drag_force s -> x = 0.
Proof.
  intros Hv0 Hdt Hcos Hn Hact. split; [by apply after_free_fall |].
  clear Hv0 Hdt Hcos. induction Hn as [| n s s' Hn IH Hc Hs]; intros x Hx.
  - by apply elem_of_nil in Hx.
  - assert (Hact0 : active_phases s = []).
    { destruct (step_active_prefix cfg s s' Hs) as [more Hmore]. rewrite Hact in Hmore.
      symmetry in Hmore. by apply app_eq_nil in Hmore as [? _]. }
    pose proof (step_no_drag cfg s s' Hs Hact) as Hlast.
    pose proof (step_total_drag _ _ _ Hs) as (_ & _ & total & _ & _ & _ & Ht).
    rewrite Ht in Hx, Hlast. rewrite last_last in Hlast.
    apply elem_of_app in Hx as [Hx | Hx]; [by apply IH |].
    apply list_elem_of_singleton in Hx. congruence.
Qed.

Lemma free_fall_before_deployment_witness :
  current_velocity coast_s2
  = initial_velocity (global_params cfg_coast)
    + INR 2 * (g * cos (descent_angle_rad cfg_coast) * dt cfg_coast).
Proof.
  apply (free_fall_before_deployment cfg_coast 2 coast_s2).
  - simpl. lra.
  - unfold dt. simpl. lra.
  - unfold descent_angle_rad. simpl. rewrite cos_90. lra.
  - apply coast_after_2.
  - reflexivity.
Defined.

(** X27. Drag never speeds the capsule up: with physical phase
    parameters, positive payload masses and a time step that is not
    negative, the velocity after a pass is at most what gravity alone
    would give, [max(0, v + g * cos(angle) * dt)]. *)
Theorem drag_never_accelerates (cfg : Inputs) (n : nat) (s s' : Sim) :
  physical_phases cfg -> positive_masses cfg -> 0 <= dt cfg ->
  after cfg n s -> after cfg (S n) s' ->
  current_velocity s'
  <= Rmax 0 (current_velocity s + g * cos (descent_angle_rad cfg) * dt cfg).
Proof.
  intros Hphys Hmass Hdt Hn Hn'.
  destruct (after_pred cfg n s' Hn') as (s0 & H0 & _ & Hs).
  rewrite (after_det _ _ _ _ H0 Hn) in Hs.
  destruct (step_velocity cfg n s s' Hn Hs) as (mass & pp & p & Hpp & -> & _ & ->).
  destruct (after_drags_nonneg cfg Hphys Hdt (S n) s' Hn') as [Htot _].
  assert (Hd : 0 <= List.last (total_drag_force s') 0).
  { destruct (decide (total_drag_force s' = [])) as [-> | Hne]; [simpl; lra |].
    apply (proj1 (Forall_forall _ _) Htot). rewrite (app_removelast_last 0 Hne) at 2.
    apply elem_of_app. right. by apply list_elem_of_singleton. }
  specialize (Hmass p pp Hpp).
  assert (0 <= List.last (total_drag_force s') 0 / payload_mass pp).
  { unfold Rdiv. apply Rmult_le_pos; [done |]. left. by apply Rinv_0_lt_compat. }
  apply Rle_max_compat_l. nra.
Qed.

Lemma coast_positive_masses : positive_masses cfg_coast.
Proof.
  intros p pp H. unfold cfg_coast in H. simpl in H.
  apply lookup_singleton_Some in H as [_ <-]. simpl. lra.
Qed.

Lemma drag_never_accelerates_witness :
  current_velocity coast_s2
  <= Rmax 0 (current_velocity coast_s1
             + g * cos (descent_angle_rad cfg_coast) * dt cfg_coast).
Proof.
  apply (drag_never_accelerates cfg_coast 1 coast_s1 coast_s2).
  - apply coast_physical.
  - apply coast_positive_masses.
  - unfold dt. simpl. lra.
  - apply coast_after_1.
  - apply coast_after_2.
Defined.
(** * Properties of [InputHandler.validate_inputs] *)

Section Validation.

Lemma global_value_ok_spec (v : option R) :
  global_value_ok v = true <-> positive_value v.
Proof.
  unfold global_value_ok, positive_value. destruct v as [x |].
  - destruct (Rle_dec x 0); split; try done.
    + intros (y & [= <-] & Hy). lra.
    + intros _. exists x. split; [done | lra].
  - split; [done | by intros (x & ? & _)].
Qed.

Lemma phase_value_ok_spec (param : string) (v : option R) :
  phase_value_ok param v = true
  <-> exists x, v = Some x /\ 0 <= x /\ (param = "reefing_factor" -> x <= 1).
Proof.
  unfold phase_value_ok. destruct v as [x |]; [| split; [done | by intros (x & ? & _)]].
  destruct (Rlt_dec x 0) as [Hneg | Hpos].
  - split; [done |]. intros (y & [= <-] & Hy & _). lra.
  - destruct (decide (param = "reefing_factor")) as [Hp | Hp].
    + destruct (Rlt_dec 1 x) as [Hbig | Hle].
      * split; [done |]. intros (y & [= <-] & _ & Hy). specialize (Hy Hp). lra.
      * split; [| done]. intros _. exists x. split; [done |]. split; [lra |]. intros _. lra.
    + split; [| done]. intros _. exists x. split; [done |]. split; [lra | done].
Qed.

Lemma phase_form_ok_spec (pp : PhaseForm) :
  forallb (fun item => phase_value_ok (fst item) (snd item)) (phase_items pp) = true
  <-> non_negative_value (f_diameter pp)
      /\ non_negative_value (f_drag_coefficient pp)
      /\ non_negative_value (f_deployment_altitude pp)
      /\ non_negative_value (f_inflation_index pp)
      /\ non_negative_value (f_payload_mass pp)
      /\ exists rf, f_reefing_factor pp = Some rf /\ 0 <= rf <= 1.
Proof.
  unfold phase_items. cbn [forallb fst snd]. rewrite !andb_true_iff, !phase_value_ok_spec.
  unfold non_negative_value. split.
  - intros ((x1 & ? & ? & _) & (x2 & ? & ? & _) & (x3 & ? & ? & _) & (x4 & ? & ? & _)
            & (x5 & ? & ? & _) & (x6 & ? & ? & Hrf) & _).
    split_and!; eauto.
  - intros ((x1 & ? & ?) & (x2 & ? & ?) & (x3 & ? & ?) & (x4 & ? & ?) & (x5 & ? & ?)
            & (x6 & ? & ? & ?)).
    split_and!; try done; eexists; (split; [eassumption |]); split; try done.
Qed.

Lemma forallb_elem_of {A : Type} (f : A -> bool) (l : list A) :
  forallb f l = true <-> forall x, x ∈ l -> f x = true.
Proof.
  rewrite forallb_forall. split; intros H x Hx; apply H; by apply list_elem_of_In.
Qed.

Lemma validate_inputs_spec g phase_params selected_phases :
  fst (validate_inputs g phase_params selected_phases) = true
  <-> accepted_forms g phase_params selected_phases.
Proof.
  unfold validate_inputs, accepted_forms.
  destruct (forallb _ (global_items g)) eqn:Hg; simpl.
  - unfold global_items in Hg. cbn [forallb snd] in Hg.
    rewrite !andb_true_iff, !global_value_ok_spec in Hg.
    destruct Hg as (Ha & Hv & Ht & Hd & _).
    destruct (forallb _ selected_phases) eqn:Hp; simpl.
    + rewrite forallb_elem_of in Hp.
      assert (Hphases : forall phase, phase ∈ selected_phases ->
                exists pp, phase_params !! phase = Some pp
                  /\ non_negative_value (f_diameter pp)
                  /\ non_negative_value (f_drag_coefficient pp)
                  /\ non_negative_value (f_deployment_altitude pp)
                  /\ non_negative_value (f_inflation_index pp)
                  /\ non_negative_value (f_payload_mass pp)
                  /\ exists rf, f_reefing_factor pp = Some rf /\ 0 <= rf <= 1).
      { intros phase Hin. specialize (Hp phase Hin).
        destruct (phase_params !! phase) as [pp |]; [| done].
        exists pp. split; [done |]. by apply phase_form_ok_spec. }
      destruct (1 <? length selected_phases)%nat; simpl; split; try done.
    + split; [done |]. intros [_ Hphases].
      apply not_true_iff_false in Hp. exfalso. apply Hp.
      apply forallb_elem_of. intros phase Hin.
      destruct (Hphases phase Hin) as (pp & -> & Hpp). by apply phase_form_ok_spec.
  - split; [done |]. intros [(Ha & Hv & Ht & Hd) _].
    apply not_true_iff_false in Hg. exfalso. apply Hg.
    unfold global_items. cbn [forallb snd].
    rewrite !andb_true_iff, !global_value_ok_spec. by split_and!.
Qed.

End Validation.

(** X19. [validate_inputs] returns [True] exactly when every global value
    is entered and positive and every selected phase has an entry whose six
    values are entered and not negative, with a reefing factor of at most
    1.  In particular it rejects an initial velocity of 0 and a descent
    angle of 0, and lets a payload mass of 0 through. *)
Theorem validate_inputs_accepts_iff
    (g : GlobalForm) (phase_params : gmap string PhaseForm)
    (selected_phases : list string) :
  fst (validate_inputs g phase_params selected_phases) = true
  <-> accepted_forms g phase_params selected_phases.
Proof. apply validate_inputs_spec. Qed.

Section ValidatedRuns.

(** The simulation object built from accepted dictionaries. *)
Lemma accepted_inputs g phase_params selected_phases :
  accepted_forms g phase_params selected_phases ->
  exists cfg,
    inputs_of_forms g phase_params selected_phases = Some cfg
    /\ Simulation.selected_phases cfg = selected_phases
    /\ 0 < initial_altitude (global_params cfg) /\ 0 < dt cfg
    /\ (forall phase pp, Simulation.phase_params cfg !! phase = Some pp ->
          exists form, phase_params !! phase = Some form /\ phase_of_form form = Some pp)
    /\ (forall phase, phase ∈ selected_phases ->
          exists form pp, phase_params !! phase = Some form
            /\ phase_of_form form = Some pp
            /\ Simulation.phase_params cfg !! phase = Some pp).
Proof.
  intros [((a & Ha & Hapos) & (v & Hv & _) & (t & Ht & Htpos) & (d & Hd & _)) Hphases].
  unfold inputs_of_forms, global_of_form. rewrite Ha, Hv, Ht, Hd. simpl.
  eexists. split; [done |]. simpl. split; [done |]. split; [done |]. split; [done |]. split.
  - intros phase pp. rewrite lookup_omap.
    destruct (phase_params !! phase) as [form |]; [| done]. simpl. intros Hpp. by exists form.
  - intros phase Hin.
    destruct (Hphases phase Hin)
      as (form & Hform & (x1 & H1 & _) & (x2 & H2 & _) & (x3 & H3 & _) & (x4 & H4 & _)
          & (x5 & H5 & _) & (x6 & H6 & _)).
    exists form. eexists. split; [done |]. rewrite lookup_omap, Hform. simpl.
    unfold phase_of_form. rewrite H1, H2, H3, H4, H5, H6. simpl. done.
Qed.

Lemma phase_of_form_fields form pp :
  phase_of_form form = Some pp ->
  f_diameter form = Some (diameter pp)
  /\ f_drag_coefficient form = Some (drag_coefficient pp)
  /\ f_deployment_altitude form = Some (deployment_altitude pp)
  /\ f_inflation_index form = Some (inflation_index pp)
  /\ f_payload_mass form = Some (payload_mass pp)
  /\ f_reefing_factor form = Some (reefing_factor pp).
Proof.
  unfold phase_of_form.
  destruct (f_diameter form), (f_drag_coefficient form), (f_deployment_altitude form),
    (f_inflation_index form), (f_payload_mass form), (f_reefing_factor form); try done.
  simpl. by intros [= <-].
Qed.


End ValidatedRuns.

(** X20. Inputs that the widgets can produce for a non-empty selection,
    that [validate_inputs] accepts and whose initial velocity and diameters
    are within the range in which their squares do not overflow make a run
    that ends without raising: the simulation built from them is within
    [within_float_range] and returns a summary from some amount of fuel on,
    with at least one stored sample and no negative drag force. *)
Theorem validated_inputs_run
    (g : GlobalForm) (phase_params : gmap string PhaseForm)
    (selected_phases : list string) :
  selected_phases <> [] -> sidebar_inputs g ->
  get_phase_inputs selected_phases phase_params ->
  forms_within_float_range g phase_params ->
  fst (validate_inputs g phase_params selected_phases) = true ->
  exists cfg fuel s r,
    inputs_of_forms g phase_params selected_phases = Some cfg
    /\ within_float_range cfg
    /\ (forall fuel', (fuel <= fuel')%nat -> run fuel' cfg = Some (Ok (s, r)))
    /\ time s <> []
    /\ forall x, x ∈ total_drag_force s -> 0 <= x.
Proof.
  intros Hsel Hside [_ Hbounds] [Hv0 Hdiam] Hvalid. apply validate_inputs_spec in Hvalid.
  pose proof Hvalid as [_ Hforms].
  destruct (accepted_inputs _ _ _ Hvalid)
    as (cfg & Hcfg & Hs & Halt & Hdt & Hback & Hpp).
  assert (Hvc : valid_config cfg).
  { split; [done |]. split; [by rewrite Hs |]. rewrite Hs. intros p Hp.
    destruct (Hpp p Hp) as (form & pp & Hform & Hof & Hlook). exists pp. split; [done |].
    apply phase_of_form_fields in Hof as (_ & _ & _ & _ & Hm & _).
    destruct (Hbounds p form Hform) as (_ & _ & _ & _ & Hmass & _).
    rewrite Hm in Hmass. simpl in Hmass. lra. }
  assert (Hphys : physical_phases cfg).
  { intros p pp Hlook. destruct (Hback p pp Hlook) as (form & Hform & Hof).
    apply phase_of_form_fields in Hof as (_ & Hcd & _ & _ & _ & Hrf).
    destruct (Hbounds p form Hform) as (_ & Hcd' & _ & _ & _ & Hrf').
    rewrite Hcd in Hcd'. rewrite Hrf in Hrf'. simpl in Hcd', Hrf'. lra. }
  assert (Hrange : within_float_range cfg).
  { unfold inputs_of_forms, global_of_form in Hcfg.
    destruct (f_initial_altitude g) as [a |] eqn:Ha; [| done].
    destruct (f_initial_velocity g) as [v |] eqn:Hv; [| done].
    destruct (f_time_step g) as [t |] eqn:Ht; [| done].
    destruct (f_descent_angle g) as [d |] eqn:Hd; [| done].
    simpl in Hcfg. injection Hcfg as <-.
    destruct Hside as (_ & _ & Hstep & _). rewrite Ht in Hstep. simpl in Hstep.
    split; [unfold dt; simpl; lra |]. split; [simpl; by apply Hv0 |].
    intros p pp Hlook. destruct (Hback p pp Hlook) as (form & Hform & Hof).
    apply phase_of_form_fields in Hof as (Hd' & _).
    by apply (Hdiam p form). }
  destruct (run_stable cfg Hvc) as (N & s & r & HN & Hstop & Hrun).
  exists cfg, N, s, r. split; [done |]. split; [done |]. split; [done |]. split.
  - intros Hnil. destruct HN as [| n s s' Hn Hc Hstep].
    + apply Hstop. unfold continues. simpl. lra.
    + apply step_motion in Hstep as (_ & _ & _ & _ & Htime & _). rewrite Htime in Hnil.
      by apply app_eq_nil in Hnil as [_ ?].
  - intros x Hx. destruct (after_drags_nonneg cfg Hphys ltac:(lra) N s HN) as [Htot _].
    by apply (proj1 (Forall_forall _ _) Htot).
Qed.


Lemma form_low_accepted (mass : R) :
  0 <= mass -> accepted_forms form_coast {[ "Main" := form_low mass ]} ["Main"].
Proof.
  intros Hm. split.
  - unfold positive_value. simpl. split_and!; eexists; (split; [done | lra]).
  - intros phase Hp. apply list_elem_of_singleton in Hp as ->.
    exists (form_low mass). split; [by rewrite lookup_singleton_eq |].
    unfold non_negative_value. simpl.
    split_and!; eexists; (split; [done | lra]).
Qed.

Lemma validate_inputs_accepts_iff_witness :
  fst (validate_inputs form_coast {[ "Main" := form_low 100 ]} ["Main"]) = true.
Proof. apply validate_inputs_accepts_iff, form_low_accepted. lra. Defined.

Lemma form_low_widgets : get_phase_inputs ["Main"] {[ "Main" := form_low 100 ]}.
Proof.
  split.
  - intros phase. destruct (decide (phase = "Main")) as [-> | Hne].
    + rewrite lookup_singleton_eq. split; [intros _; by left | by eexists].
    + rewrite lookup_singleton_ne by done. split; [by intros [? ?] |].
      intros Hp. by apply list_elem_of_singleton in Hp.
  - intros phase pp Hpp. apply lookup_singleton_Some in Hpp as [_ <-].
    unfold number_input. simpl. lra.
Qed.

Lemma form_coast_sidebar : sidebar_inputs form_coast.
Proof. unfold sidebar_inputs, number_input. simpl. lra. Qed.

Lemma form_low_within_float_range :
  forms_within_float_range form_coast {[ "Main" := form_low 100 ]}.
Proof.
  split.
  - intros v [= <-]. unfold square_range. apply Rabs_le. lra.
  - intros p form d Hform Hd. apply lookup_singleton_Some in Hform as [_ <-].
    injection Hd as <-. unfold square_range. apply Rabs_le. lra.
Qed.

Lemma validated_inputs_run_witness :
  exists cfg fuel s r,
    inputs_of_forms form_coast {[ "Main" := form_low 100 ]} ["Main"] = Some cfg
    /\ within_float_range cfg
    /\ (forall fuel', (fuel <= fuel')%nat -> run fuel' cfg = Some (Ok (s, r)))
    /\ time s <> []
    /\ forall x, x ∈ total_drag_force s -> 0 <= x.
Proof.
  apply validated_inputs_run.
  - done.
  - apply form_coast_sidebar.
  - apply form_low_widgets.
  - apply form_low_within_float_range.
  - apply validate_inputs_spec, form_low_accepted. lra.
Defined.


Section Ordering.

Local Abbreviation higher := (fun x y : string * R => snd y <= snd x).

Lemma insert_desc_perm (x : string * R) (l : list (string * R)) :
  insert_desc x l ≡ₚ x :: l.
Proof.
  induction l as [| y l IH]; simpl; [done |].
  destruct (Rle_dec (snd y) (snd x)); [done |]. rewrite IH. apply Permutation_swap.
Qed.

Lemma sort_desc_perm (l : list (string * R)) : sort_desc l ≡ₚ l.
Proof.
  induction l as [| x l IH]; simpl; [done |]. by rewrite insert_desc_perm, IH.
Qed.

Lemma insert_desc_sorted (x : string * R) (l : list (string * R)) :
  StronglySorted higher l -> StronglySorted higher (insert_desc x l).
Proof.
  induction 1 as [| y l Hl IH Hy]; simpl; [by repeat constructor |].
  destruct (Rle_dec (snd y) (snd x)) as [Hle | Hgt].
  - constructor; [by constructor |]. constructor; [done |].
    eapply Forall_impl; [exact Hy |]. simpl. intros z Hz. lra.
  - constructor; [done |]. rewrite insert_desc_perm. constructor; [simpl; lra | done].
Qed.

Lemma sort_desc_sorted (l : list (string * R)) : StronglySorted higher (sort_desc l).
Proof.
  induction l as [| x l IH]; simpl; [constructor | by apply insert_desc_sorted].
Qed.

Lemma sorted_non_increasing (l : list (string * R)) :
  StronglySorted higher l -> non_increasing (snd <$> l).
Proof.
  induction 1 as [| x l Hl IH Hx]; intros i a b Ha Hb; [done |].
  destruct i as [| i]; simpl in *.
  - injection Ha as <-. destruct l as [| y l]; [done |]. simpl in Hb. injection Hb as <-.
    by apply Forall_cons in Hx as [? _].
  - by apply (IH i).
Qed.

Lemma snd_of_pairs (f : string -> R) (l : list (string * R)) :
  Forall (fun e => snd e = f (fst e)) l -> snd <$> l = f <$> (fst <$> l).
Proof.
  induction 1 as [| e l He _ IH]; [done |]. rewrite !fmap_cons. by rewrite He, IH.
Qed.

End Ordering.

(** X22. When [validate_inputs] accepts two or more selected phases without
    its warning, the selection consists of distinct phases among ACS,
    Drogue, Pilot and Main, and the deployment altitudes entered for them
    never increase along that sequence. *)
Theorem no_warning_typical_order
    (g : GlobalForm) (phase_params : gmap string PhaseForm)
    (selected_phases : list string) :
  (1 < length selected_phases)%nat ->
  validate_inputs g phase_params selected_phases = (true, false) ->
  NoDup selected_phases
  /\ (forall p, p ∈ selected_phases -> p ∈ phase_order)
  /\ non_increasing
       (form_deployment_altitude phase_params <$> typical_sequence selected_phases).
Proof.
  intros Hlen Hv. unfold validate_inputs in Hv.
  destruct (negb _); [done |]. destruct (negb _); [done |].
  apply Nat.ltb_lt in Hlen. rewrite Hlen in Hv. injection Hv as Hv.
  apply negb_false_iff, bool_decide_eq_true in Hv.
  fold (typical_sequence selected_phases) in Hv.
  set (pairs := (fun phase => (phase, form_deployment_altitude phase_params phase))
                  <$> selected_phases) in *.
  assert (Hperm : selected_phases ≡ₚ typical_sequence selected_phases).
  { rewrite <- Hv, sort_desc_perm. unfold pairs. rewrite <- list_fmap_compose.
    by rewrite list_fmap_id. }
  assert (Hnd : NoDup (typical_sequence selected_phases)).
  { apply NoDup_filter. by apply (bool_decide_unpack _). }
  split; [by rewrite Hperm |]. split.
  - intros p Hp. rewrite Hperm in Hp. unfold typical_sequence in Hp.
    by apply list_elem_of_filter in Hp as [_ ?].
  - assert (Hsnd : snd <$> sort_desc pairs
                   = form_deployment_altitude phase_params <$> (fst <$> sort_desc pairs)).
    { apply snd_of_pairs. rewrite sort_desc_perm. unfold pairs.
      by apply Forall_fmap, Forall_forall. }
    rewrite <- Hv, <- Hsnd. apply sorted_non_increasing, sort_desc_sorted.
Qed.

Lemma forms_two_lookup_drogue : forms_two !! "Drogue" = Some (form_phase 3000).
Proof. unfold forms_two. by simplify_map_eq. Qed.
Lemma forms_two_lookup_main : forms_two !! "Main" = Some (form_phase 1000).
Proof. unfold forms_two. by simplify_map_eq. Qed.

Lemma form_phase_ok (altitude : R) :
  0 <= altitude ->
  forallb (fun item => phase_value_ok (fst item) (snd item)) (phase_items (form_phase altitude))
  = true.
Proof.
  intros Ha. apply phase_form_ok_spec. unfold non_negative_value. simpl.
  split_and!; eexists; (split; [done | lra]).
Qed.

Lemma forms_two_validated :
  validate_inputs form_coast forms_two ["Drogue"; "Main"] = (true, false).
Proof.
  unfold validate_inputs.
  assert (forallb (fun item => global_value_ok (snd item)) (global_items form_coast) = true)
    as ->.
  { unfold global_items, form_coast, global_value_ok.
    cbn [forallb snd f_initial_altitude f_initial_velocity f_time_step f_descent_angle].
    by rewrite !Rle_dec_false by lra. }
  cbn [forallb negb]. rewrite forms_two_lookup_drogue, forms_two_lookup_main.
  rewrite !form_phase_ok by lra. cbn [andb negb length Nat.ltb Nat.leb].
  unfold form_deployment_altitude. cbn [fmap list_fmap].
  rewrite forms_two_lookup_drogue, forms_two_lookup_main.
  cbn [mbind option_bind form_phase f_deployment_altitude default sort_desc foldr
       insert_desc snd].
  unfold Datatypes.id. rewrite Rle_dec_true by lra. f_equal.
Qed.

Lemma no_warning_typical_order_witness :
  NoDup ["Drogue"; "Main"]
  /\ (forall p, p ∈ ["Drogue"; "Main"] -> p ∈ phase_order)
  /\ non_increasing
       (form_deployment_altitude forms_two <$> typical_sequence ["Drogue"; "Main"]).
Proof.
  apply (no_warning_typical_order form_coast forms_two ["Drogue"; "Main"]).
  - simpl. lia.
  - apply forms_two_validated.
Defined.
(** * Properties of the plots of [GraphUtils] *)

Section Plots.

Lemma tick_spacing_cases (max_time : R) :
  (_get_time_tick_spacing max_time = 0.5 /\ max_time <= 300)
  \/ (_get_time_tick_spacing max_time = 5 /\ 300 < max_time <= 1500)
  \/ (_get_time_tick_spacing max_time = 10 /\ 1500 < max_time).
Proof.
  unfold _get_time_tick_spacing.
  destruct (Rle_dec max_time 300); [left; split; [lra | done] |].
  destruct (Rle_dec max_time 1500); right; [left | right]; split; lra.
Qed.

Lemma np_max_upper (t : R) (rest : list R) (x : R) :
  x ∈ t :: rest -> x <= np_max t rest.
Proof. apply (max_or_zero_upper (t :: rest)). Qed.

Lemma np_max_elem (t : R) (rest : list R) : np_max t rest ∈ t :: rest.
Proof. apply fold_left_Rmax_elem. Qed.

Lemma add_phase_traces_Ok plots_data phases fig fig' :
  add_phase_traces plots_data phases fig = Ok fig' ->
  dtick fig' = dtick fig
  /\ exists new, traces fig' = traces fig ++ new
       /\ forall t, t ∈ new -> exists p, p ∈ phases /\ phase_trace_of plots_data p t.
Proof.
  revert fig. induction phases as [| p rest IH]; intros fig H; simpl in H.
  - injection H as <-. split; [done |]. exists []. split; [by rewrite app_nil_r |].
    intros t Ht. by apply elem_of_nil in Ht.
  - assert (Hskip : add_phase_traces plots_data rest fig = Ok fig' ->
              dtick fig' = dtick fig
              /\ exists new, traces fig' = traces fig ++ new
                   /\ forall t, t ∈ new ->
                        exists q, q ∈ p :: rest /\ phase_trace_of plots_data q t).
    { intros H'. destruct (IH _ H') as (Hd & new & Hnew & Hall). split; [done |].
      exists new. split; [done |]. intros t Ht. destruct (Hall t Ht) as (q & Hq & Hqt).
      exists q. split; [by right | done]. }
    destruct (pd_phase_drag_forces plots_data !! p) as [[| f fs] |] eqn:Hp; [by auto | | by auto].
    destruct (Rlt_dec 0 (np_max f fs)) as [Hpos |]; [| by auto].
    inv_bind H. apply getitem_Ok in Ha.
    destruct (IH _ H) as (Hd & new & Hnew & Hall). split; [done |]. simpl in Hnew.
    eexists (_ :: new). split; [by rewrite Hnew, <- app_assoc |].
    intros t Ht. apply elem_of_cons in Ht as [-> | Ht].
    + exists p. split; [by left |]. unfold phase_trace_of. simpl.
      split_and!; try done. exists (np_max f fs). split; [apply np_max_elem | done].
    + destruct (Hall t Ht) as (q & Hq & Hqt). exists q. split; [by right | done].
Qed.

Lemma add_phase_traces_Raise plots_data phases fig e :
  add_phase_traces plots_data phases fig = Raise e ->
  exists p, e = KeyError p /\ p ∈ phases /\ phase_colors !! p = None.
Proof.
  revert fig. induction phases as [| p rest IH]; intros fig H; simpl in H; [done |].
  assert (Hskip : forall fig0, add_phase_traces plots_data rest fig0 = Raise e ->
            exists q, e = KeyError q /\ q ∈ p :: rest /\ phase_colors !! q = None).
  { intros fig0 H'. destruct (IH _ H') as (q & He & Hq & Hc). exists q.
    split; [done |]. split; [by right | done]. }
  destruct (pd_phase_drag_forces plots_data !! p) as [[| f fs] |]; [by eauto | | by eauto].
  destruct (Rlt_dec 0 (np_max f fs)); [| by eauto].
  unfold getitem in H. destruct (phase_colors !! p) as [color |] eqn:Hc; simpl in H.
  - by eauto.
  - injection H as <-. exists p. split; [done |]. split; [by left | done].
Qed.

Lemma configure_time_axis_traces fig plots_data :
  traces (_configure_time_axis fig plots_data) = traces fig.
Proof. unfold _configure_time_axis. by destruct (pd_time plots_data). Qed.

Lemma phase_colors_known (p : string) : p ∈ phase_order -> is_Some (phase_colors !! p).
Proof.
  unfold phase_order, phase_colors. intros Hp.
  repeat (apply elem_of_cons in Hp as [-> | Hp]; [by simplify_map_eq |]).
  by apply elem_of_nil in Hp.
Qed.

End Plots.

(** X23. The time axis of the plots of a run: [_configure_time_axis]
    leaves the figure as it is when no sample was stored; otherwise it
    sets a tick spacing of 0.5, 5 or 10 s, and no stored time lies more
    than 1000 spacings after 0, because the clock of the samples stops at
    10000 s.  The traces are never touched. *)
Theorem time_axis_ticks
    (fuel : nat) (cfg : Inputs) (s : Sim) (r : Results) (fig : Figure) :
  run fuel cfg = Some (Ok (s, r)) ->
  traces (_configure_time_axis fig (get_plot_data_dict cfg s)) = traces fig
  /\ (time s = [] -> _configure_time_axis fig (get_plot_data_dict cfg s) = fig)
  /\ (time s <> [] ->
      exists d, dtick (_configure_time_axis fig (get_plot_data_dict cfg s)) = Some d
        /\ (d = 0.5 \/ d = 5 \/ d = 10)
        /\ forall t, t ∈ time s -> t <= 1000 * d).
Proof.
  intros Hrun. apply run_after in Hrun as (_ & N & HN & _).
  pose proof (after_times_bounded cfg N s HN) as Hbound.
  unfold _configure_time_axis, get_plot_data_dict. simpl.
  destruct (time s) as [| t rest] eqn:Htime; [done |]. simpl.
  split; [done |]. split; [done |]. intros _. eexists. split; [done |].
  pose proof (np_max_elem t rest) as Hin. apply Hbound in Hin.
  destruct (tick_spacing_cases (np_max t rest)) as [[-> H] | [[-> H] | [-> H]]].
  - split; [by left |]. intros x Hx. apply np_max_upper in Hx. lra.
  - split; [right; by left |]. intros x Hx. apply np_max_upper in Hx. lra.
  - split; [right; by right |]. intros x Hx. apply np_max_upper in Hx. lra.
Qed.

Lemma time_axis_ticks_witness :
  exists d, dtick (create_velocity_plot (get_plot_data_dict cfg_coast coast_s2)) = Some d
    /\ (d = 0.5 \/ d = 5 \/ d = 10)
    /\ forall t, t ∈ time coast_s2 -> t <= 1000 * d.
Proof.
  by apply (time_axis_ticks 2 cfg_coast coast_s2 coast_results _ coast_run).
Defined.

(** X24. The force plot starts with the trace of the total drag and then
    has, for selected phases whose drag series holds a positive sample,
    a trace of that series over the time series in the phase's colour.
    It raises only [KeyError], for a selected phase with a positive sample
    and no colour; it does not raise when every selected phase is one of
    ACS, Drogue, Pilot and Main. *)
Theorem force_plot_traces (plots_data : PlotsData) :
  (forall fig, create_force_plot plots_data = Ok fig ->
     exists rest, traces fig = total_drag_trace plots_data :: rest
       /\ forall t, t ∈ rest ->
            exists p, p ∈ pd_selected_phases plots_data
                      /\ phase_trace_of plots_data p t)
  /\ (forall e, create_force_plot plots_data = Raise e ->
      exists p, e = KeyError p /\ p ∈ pd_selected_phases plots_data
                /\ phase_colors !! p = None)
  /\ ((forall p, p ∈ pd_selected_phases plots_data -> p ∈ phase_order) ->
      exists fig, create_force_plot plots_data = Ok fig).
Proof.
  unfold create_force_plot.
  destruct (add_phase_traces plots_data (pd_selected_phases plots_data) _)
    as [fig0 | e0] eqn:H; simpl.
  - apply add_phase_traces_Ok in H as (_ & new & Hnew & Hall). simpl in Hnew.
    split; [| split; [done | by eauto]].
    intros fig [= <-]. exists new. split; [| done].
    by rewrite configure_time_axis_traces.
  - apply add_phase_traces_Raise in H as (p & -> & Hp & Hc).
    split; [done |]. split.
    + intros e [= <-]. by exists p.
    + intros Hsel. destruct (phase_colors_known p (Hsel p Hp)) as [c Hc']. congruence.
Qed.

Lemma force_plot_traces_witness :
  exists fig, create_force_plot (get_plot_data_dict cfg_coast coast_s2) = Ok fig.
Proof.
  apply (force_plot_traces (get_plot_data_dict cfg_coast coast_s2)).
  intros p Hp. apply list_elem_of_singleton in Hp as ->.
  unfold phase_order. set_solver.
Defined.

(** X25. In the force plot of a run in which no phase is selected twice,
    every trace has as many forces as times, and the traces after the
    total are those of phases that deployed: a phase that never deployed
    has no trace. *)
Theorem force_plot_of_run
    (fuel : nat) (cfg : Inputs) (s : Sim) (r : Results) (fig : Figure) :
  NoDup (selected_phases cfg) ->
  run fuel cfg = Some (Ok (s, r)) ->
  create_force_plot (get_plot_data_dict cfg s) = Ok fig ->
  (forall t, t ∈ traces fig -> length (trace_y t) = length (trace_x t))
  /\ exists rest, traces fig = total_drag_trace (get_plot_data_dict cfg s) :: rest
       /\ forall t, t ∈ rest ->
            exists p, p ∈ selected_phases cfg /\ deployed s p
                      /\ trace_y t = drag_series s p.
Proof.
  intros Hsel Hrun Hfig. apply run_after in Hrun as (_ & N & HN & _).
  unfold create_force_plot in Hfig. inv_bind Hfig. injection Hfig as <-.
  apply add_phase_traces_Ok in Ha as (_ & new & Hnew & Hall). simpl in Hnew, Hall.
  assert (Htr : traces (_configure_time_axis a (get_plot_data_dict cfg s))
                = total_drag_trace (get_plot_data_dict cfg s) :: new).
  { by rewrite configure_time_axis_traces. }
  rewrite Htr.
  assert (Hnew' : forall t, t ∈ new ->
            exists p, p ∈ selected_phases cfg /\ deployed s p
                      /\ trace_y t = drag_series s p /\ trace_x t = time s).
  { intros t Ht. destruct (Hall t Ht) as (p & Hp & Hx & Hy & _ & _ & y & Hin & Hpos).
    simpl in Hx, Hy. exists p. split; [done |].
    assert (Hser : trace_y t = drag_series s p) by (unfold drag_series; by rewrite Hy).
    split; [| done]. unfold deployed.
    destruct (decide (p ∈ deployed_phases s)) as [| Hpend]; [done |]. exfalso.
    destruct (after_series _ _ _ HN p) as [Hs _].
    destruct (Hs Hp) as (xs & Hxs & _ & Hzero). rewrite Hxs in Hy. injection Hy as ->.
    rewrite (Hzero Hpend) in Hin. apply elem_of_replicate in Hin as [-> _]. lra. }
  split.
  - intros t Ht. apply elem_of_cons in Ht as [-> | Ht].
    + simpl. rewrite (after_total_length cfg N s HN).
      by rewrite (proj1 (proj2 (after_clock _ _ _ HN))).
    + destruct (Hnew' t Ht) as (p & Hp & _ & -> & ->).
      rewrite (after_series_length cfg p N s Hp HN), (occurrences_NoDup _ _ Hsel Hp).
      rewrite (proj1 (proj2 (after_clock _ _ _ HN))). lia.
  - exists new. split; [done |]. intros t Ht.
    destruct (Hnew' t Ht) as (p & Hp & Hd & Hy & _). by exists p.
Qed.

Lemma coast_force_plot :
  exists fig, create_force_plot (get_plot_data_dict cfg_coast coast_s2) = Ok fig.
Proof.
  unfold create_force_plot.
  destruct (add_phase_traces _ _ _) as [fig | e] eqn:H; simpl; [by eexists |].
  apply add_phase_traces_Raise in H as (p & _ & Hp & Hc). simpl in Hp.
  apply list_elem_of_singleton in Hp as ->. by vm_compute in Hc.
Qed.

Lemma force_plot_of_run_witness :
  exists fig, create_force_plot (get_plot_data_dict cfg_coast coast_s2) = Ok fig
    /\ forall t, t ∈ traces fig -> length (trace_y t) = length (trace_x t).
Proof.
  destruct coast_force_plot as [fig Hfig]. exists fig. split; [done |].
  apply (force_plot_of_run 2 cfg_coast coast_s2 coast_results fig
           (NoDup_singleton _) coast_run Hfig).
Defined.
